(** * trace-logger: circuit breaker, formatter, logger and log rotation

  A shallow embedding of the TypeScript sources
  [src/circuit-breaker.ts], [src/logger.ts] and [src/log.rotation.ts],
  together with the properties stated about them.

  Conventions.  JavaScript numbers that hold integers (counters,
  millisecond timestamps, byte sizes) are [Z].  Every reading of the
  platform clock ([Date.now()], [new Date()]) is an explicit argument
  of the pure transition functions and an oracle read in the effectful
  layer.  Strings are [string] (one [ascii] per code unit). *)

From stdpp Require Import gmap strings list fin_maps sorting.
From Stdlib Require Import ZArith Lia Ascii.

Open Scope Z_scope.

(* ===================================================================== *)
(** * src/circuit-breaker.ts                                              *)
(* ===================================================================== *)

Module Breaker.

(** [Required<CircuitBreakerOptions>] without the callback, whose
    invocations are reported by [incrementErrorCount] itself. *)
Record CircuitBreakerOptions := {
  circuitBreakerCount : Z;
  circuitBreakerTime : Z;
  circuitBreakerCooldown : Z
}.

(** The constructor's defaults: [?? 5], [?? 30000], [?? 60000]. *)
Definition defaultOptions : CircuitBreakerOptions :=
  {| circuitBreakerCount := 5;
     circuitBreakerTime := 30000;
     circuitBreakerCooldown := 60000 |}.

(** The private fields of [LoggerCircuitBreaker].  [lastResetTime] is
    both the start of the counting window and, while the breaker is
    open, the instant at which it opened. *)
Record LoggerCircuitBreaker := {
  errorCount : Z;
  lastResetTime : Z;
  isOpen : bool
}.

(** Field initialisers: [errorCount = 0], [lastResetTime = Date.now()],
    [isOpen = false]. *)
Definition create (now : Z) : LoggerCircuitBreaker :=
  {| errorCount := 0; lastResetTime := now; isOpen := false |}.

Definition enable (now : Z) (b : LoggerCircuitBreaker) : LoggerCircuitBreaker :=
  {| errorCount := 0; lastResetTime := now; isOpen := false |}.

Definition trip (now : Z) (b : LoggerCircuitBreaker) : LoggerCircuitBreaker :=
  {| errorCount := errorCount b; lastResetTime := now; isOpen := true |}.

(** [isEnabled()]: the returned boolean and the breaker afterwards.
    The clock is consulted only when the breaker is open. *)
Definition isEnabled (o : CircuitBreakerOptions) (now : Z)
    (b : LoggerCircuitBreaker) : bool * LoggerCircuitBreaker :=
  if negb (isOpen b) then (true, b)
  else if circuitBreakerCooldown o <=? now - lastResetTime b then
    (true, {| errorCount := 0; lastResetTime := lastResetTime b; isOpen := false |})
  else (false, b).

(** [incrementErrorCount()]: the breaker afterwards and the number of
    times [circuitBreakerCallback] was invoked by this call. *)
Definition incrementErrorCount (o : CircuitBreakerOptions) (now : Z)
    (b : LoggerCircuitBreaker) : LoggerCircuitBreaker * nat :=
  if isOpen b then (b, 0%nat)
  else
    let count :=
      if circuitBreakerTime o <? now - lastResetTime b then 1
      else errorCount b + 1 in
    if circuitBreakerCount o <=? count then
      ({| errorCount := count; lastResetTime := now; isOpen := true |}, 1%nat)
    else
      ({| errorCount := count; lastResetTime := now; isOpen := false |}, 0%nat).

(** The object returned by [getStatus()]. *)
Record Status := {
  st_isOpen : bool;
  st_errorCount : Z;
  st_lastResetTime : Z;
  st_timeSinceLastReset : Z;
  st_remainingCooldown : Z
}.

Definition getStatus (o : CircuitBreakerOptions) (now1 now2 : Z)
    (b : LoggerCircuitBreaker) : Status :=
  {| st_isOpen := isOpen b;
     st_errorCount := errorCount b;
     st_lastResetTime := lastResetTime b;
     st_timeSinceLastReset := now1 - lastResetTime b;
     st_remainingCooldown :=
       if isOpen b
       then Z.max 0 (circuitBreakerCooldown o - (now2 - lastResetTime b))
       else 0 |}.

(** A run of [incrementErrorCount] calls, one per clock reading in
    [ts]; the callback invocations are added up. *)
Fixpoint recordFailures (o : CircuitBreakerOptions) (ts : list Z)
    (b : LoggerCircuitBreaker) : LoggerCircuitBreaker * nat :=
  match ts with
  | [] => (b, 0%nat)
  | t :: ts' =>
      let '(b1, c1) := incrementErrorCount o t b in
      let '(b2, c2) := recordFailures o ts' b1 in
      (b2, (c1 + c2)%nat)
  end.

(** Failures "within the window": no failure comes more than
    [circuitBreakerTime] after the one before it.  (The window slides:
    [lastResetTime] is moved to every recorded failure.) *)
Fixpoint withinWindow (w : Z) (ts : list Z) : Prop :=
  match ts with
  | t1 :: ((t2 :: _) as ts') => t2 - t1 <= w /\ withinWindow w ts'
  | _ => True
  end.

(** A burst of failures in time order that all fall inside one span of
    length [w]. *)
Definition inOneSpan (w : Z) (ts : list Z) : Prop :=
  Sorted Z.le ts /\ forall a b, a ∈ ts -> b ∈ ts -> b - a <= w.

(** What a run of failures leaves behind, as a predicate on the final
    breaker and the number of callback invocations. *)
Definition counted (o : CircuitBreakerOptions) (n : Z) (tlast : Z) (r : LoggerCircuitBreaker * nat) : Prop :=
  errorCount (fst r) = n /\
  lastResetTime (fst r) = tlast /\
  isOpen (fst r) = (circuitBreakerCount o <=? n) /\
  snd r = (if circuitBreakerCount o <=? n then 1%nat else 0%nat).

End Breaker.

(* ===================================================================== *)
(** * The platform: text, clock, identifiers, JSON, console, files        *)
(* ===================================================================== *)

(** The parts of ECMAScript and Node.js that the sources call, restricted
    to what they use.  Strings hold code units below 256. *)

Module Text.

Definition ESC : ascii := ascii_of_nat 27.

(** The double-quote character. *)
Definition DQ : ascii := ascii_of_nat 34.

Definition isDigit (c : ascii) : bool :=
  let n := nat_of_ascii c in (48 <=? n)%nat && (n <=? 57)%nat.

Definition digitChar (d : Z) : ascii :=
  ascii_of_nat (48 + Z.to_nat (d mod 10)).

(** [String(n).padStart(k, '0')] for [0 <= n < 10^k]. *)
Definition pad2 (n : Z) : string :=
  String (digitChar (n / 10)) (String (digitChar n) EmptyString).
Definition pad3 (n : Z) : string :=
  String (digitChar (n / 100)) (pad2 n).
Definition pad4 (n : Z) : string :=
  String (digitChar (n / 1000)) (pad3 n).
Definition pad6 (n : Z) : string :=
  String (digitChar (n / 100000)) (String (digitChar (n / 10000)) (pad4 n)).

(** Decimal rendering of a natural number, most significant digit
    first; [fuel] bounds the number of digits. *)
Fixpoint digitsOf (fuel : nat) (n : Z) (acc : string) : string :=
  match fuel with
  | O => acc
  | S f =>
      let acc' := String (digitChar n) acc in
      if n / 10 =? 0 then acc' else digitsOf f (n / 10) acc'
  end.

(** [String(z)] for an integer-valued number. *)
Definition showZ (z : Z) : string :=
  if z <? 0 then String "-" (digitsOf (S (Z.to_nat (Z.log2 (- z)))) (- z) EmptyString)
  else digitsOf (S (Z.to_nat (Z.log2 z))) z EmptyString.

Fixpoint startsWith (s p : string) : bool :=
  match p, s with
  | EmptyString, _ => true
  | String _ _, EmptyString => false
  | String b p', String a s' => if Ascii.eqb a b then startsWith s' p' else false
  end.

(** [s.slice(n)] and [s.slice(0, n)] for [n >= 0]. *)
Fixpoint dropStr (n : nat) (s : string) : string :=
  match n, s with
  | O, _ => s
  | S _, EmptyString => EmptyString
  | S n', String _ r => dropStr n' r
  end.

Fixpoint takeStr (n : nat) (s : string) : string :=
  match n, s with
  | O, _ => EmptyString
  | S _, EmptyString => EmptyString
  | S n', String c r => String c (takeStr n' r)
  end.

Definition endsWith (s p : string) : bool :=
  let n := String.length s in
  let k := String.length p in
  (k <=? n)%nat && String.eqb (dropStr (n - k) s) p.

(** Whether every character of a string satisfies [P]. *)
Fixpoint allChars (P : ascii -> bool) (s : string) : bool :=
  match s with
  | EmptyString => true
  | String c r => P c && allChars P r
  end.

Definition upperChar (c : ascii) : ascii :=
  let n := nat_of_ascii c in
  if (97 <=? n)%nat && (n <=? 122)%nat then ascii_of_nat (n - 32) else c.

Fixpoint toUpperCase (s : string) : string :=
  match s with
  | EmptyString => EmptyString
  | String c r => String (upperChar c) (toUpperCase r)
  end.

(** [s.replace(/[xy]/g, r)] for a one-character class given as a
    predicate and a one-character replacement. *)
Fixpoint replaceAllChars (cls : ascii -> bool) (r : ascii) (s : string) : string :=
  match s with
  | EmptyString => EmptyString
  | String c s' => String (if cls c then r else c) (replaceAllChars cls r s')
  end.

(** [s.replace('x', r)] with a string pattern of one character: only
    the first occurrence is replaced. *)
Fixpoint replaceFirstChar (x r : ascii) (s : string) : string :=
  match s with
  | EmptyString => EmptyString
  | String c s' => if Ascii.eqb c x then String r s' else String c (replaceFirstChar x r s')
  end.

(** [s.split('x')[0]]: the part of [s] before the first [x]. *)
Fixpoint beforeFirst (x : ascii) (s : string) : string :=
  match s with
  | EmptyString => EmptyString
  | String c s' => if Ascii.eqb c x then EmptyString else String c (beforeFirst x s')
  end.

(** Whether a character occurs in a string. *)
Fixpoint hasChar (x : ascii) (s : string) : bool :=
  match s with
  | EmptyString => false
  | String c s' => Ascii.eqb c x || hasChar x s'
  end.

(** Whether [p] occurs in [s] as a substring ([s.includes(p)]). *)
Fixpoint includes (s p : string) : bool :=
  startsWith s p ||
  match s with
  | EmptyString => false
  | String _ s' => includes s' p
  end.

End Text.

(* ===================================================================== *)
(** * Strings as UTF-16 code units                                        *)
(* ===================================================================== *)

(** A JavaScript string is a sequence of 16-bit code units.  The size
    text of the rotation options is kept in that form, since
    [toLowerCase] acts on it beyond Latin-1. *)
Module Utf16.

(** The code units of a text of Latin-1 characters. *)
Fixpoint utf16 (s : string) : list N :=
  match s with
  | EmptyString => []
  | String c r => N_of_ascii c :: utf16 r
  end.

(** [String.prototype.toLowerCase] on one code unit.  The table has
    every cased letter of Basic Latin and Latin-1, and every letter
    from elsewhere whose lower-case form has a code unit below U+0100:
    U+0130 (two code units, i and U+0307), U+0178, U+1E9E, the Kelvin
    sign U+212A and the Angstrom sign U+212B.  The remaining cased
    letters (Latin Extended, Greek, Cyrillic and so on) become letters
    above U+00FF again; they are written here as the letters they come
    from, which [parseSize], the one caller, cannot tell apart: its
    pattern has no place for either. *)
Definition lowerUnit (c : N) : list N :=
  if ((65 <=? c) && (c <=? 90))%N then [(c + 32)%N]
  else if ((192 <=? c) && (c <=? 222) && negb (c =? 215))%N then [(c + 32)%N]
  else if (c =? 304)%N then [105%N; 775%N]
  else if (c =? 376)%N then [255%N]
  else if (c =? 7838)%N then [223%N]
  else if (c =? 8490)%N then [107%N]
  else if (c =? 8491)%N then [229%N]
  else [c].

Definition toLowerCase (s : list N) : list N := flat_map lowerUnit s.

End Utf16.

Module JsDate.
Import Text.

(** A time value is the number of milliseconds since the epoch, as
    returned by [Date.now()]. *)

(** Proleptic Gregorian date of a day number (days since 1970-01-01). *)
Definition civilFromDays (days : Z) : Z * Z * Z :=
  let z := days + 719468 in
  let era := z / 146097 in
  let doe := z - era * 146097 in
  let yoe := (doe - doe / 1460 + doe / 36524 - doe / 146096) / 365 in
  let doy := doe - (365 * yoe + yoe / 4 - yoe / 100) in
  let mp := (5 * doy + 2) / 153 in
  let d := doy - (153 * mp + 2) / 5 + 1 in
  let m := if mp <? 10 then mp + 3 else mp - 9 in
  let y := yoe + era * 400 + (if m <=? 2 then 1 else 0) in
  (y, m, d).

Definition yearOf (t : Z) : Z := fst (fst (civilFromDays (t / 86400000))).
Definition monthOf (t : Z) : Z := snd (fst (civilFromDays (t / 86400000))).
Definition dayOf (t : Z) : Z := snd (civilFromDays (t / 86400000)).
Definition hoursOf (t : Z) : Z := (t mod 86400000) / 3600000.
Definition minutesOf (t : Z) : Z := (t mod 3600000) / 60000.
Definition secondsOf (t : Z) : Z := (t mod 60000) / 1000.
Definition millisOf (t : Z) : Z := t mod 1000.

(** Years 0..9999 print with four digits, others with a sign and six. *)
Definition yearString (y : Z) : string :=
  if (0 <=? y) && (y <=? 9999) then pad4 y
  else String (if y <? 0 then "-"%char else "+"%char) (pad6 (Z.abs y)).

(** [new Date(t).toISOString()]: [YYYY-MM-DDTHH:mm:ss.sssZ]. *)
Definition toISOString (t : Z) : string :=
  yearString (yearOf t) +:+ "-" +:+ pad2 (monthOf t) +:+ "-" +:+ pad2 (dayOf t)
  +:+ "T" +:+ pad2 (hoursOf t) +:+ ":" +:+ pad2 (minutesOf t) +:+ ":"
  +:+ pad2 (secondsOf t) +:+ "." +:+ pad3 (millisOf t) +:+ "Z".

(** [getHours()], ... read the local time: [tz] is the offset of local
    time from UTC in milliseconds. *)
Definition localClockString (tz t : Z) : string :=
  let l := t + tz in
  pad2 (hoursOf l) +:+ ":" +:+ pad2 (minutesOf l) +:+ ":" +:+ pad2 (secondsOf l)
  +:+ "." +:+ pad3 (millisOf l).

End JsDate.

Module Uuid.

Definition hexDigit (n : nat) : ascii :=
  match n with
  | 0 => "0" | 1 => "1" | 2 => "2" | 3 => "3" | 4 => "4" | 5 => "5" | 6 => "6"
  | 7 => "7" | 8 => "8" | 9 => "9" | 10 => "a" | 11 => "b" | 12 => "c"
  | 13 => "d" | 14 => "e" | _ => "f"
  end%nat%char.

Definition hexByte (b : N) (rest : string) : string :=
  String (hexDigit (N.to_nat ((b / 16) mod 16)))
    (String (hexDigit (N.to_nat (b mod 16))) rest).

(** [v4()] of the uuid package on sixteen random bytes: the version and
    variant bits are forced, then the bytes are printed 8-4-4-4-12. *)
Definition format (r : nat -> N) : string :=
  let b6 := N.lor (N.land (r 6%nat) 15) 64 in
  let b8 := N.lor (N.land (r 8%nat) 63) 128 in
  hexByte (r 0%nat) (hexByte (r 1%nat) (hexByte (r 2%nat) (hexByte (r 3%nat)
  (String "-" (hexByte (r 4%nat) (hexByte (r 5%nat)
  (String "-" (hexByte b6 (hexByte (r 7%nat)
  (String "-" (hexByte b8 (hexByte (r 9%nat)
  (String "-" (hexByte (r 10%nat) (hexByte (r 11%nat) (hexByte (r 12%nat)
    (hexByte (r 13%nat) (hexByte (r 14%nat) (hexByte (r 15%nat) EmptyString)))))))))))))))))))%char.

End Uuid.

Module Json.
Import Text.

(** JavaScript values as far as [JSON.stringify] distinguishes them.
    [JBackRef] stands for a reference to an object that encloses it (a
    cycle).  [JNum z] is the number [z] for an integer of magnitude
    below [2^53], which a double holds exactly and [JSON.stringify]
    prints digit for digit; fractions, larger numbers (printed in
    exponent notation from [1e21] on), [NaN] and the infinities have
    no constructor here. *)
#[warnings="-register-all"]
Inductive JsValue :=
| JUndefined
| JNull
| JBool (b : bool)
| JNum (z : Z)
| JStr (s : string)
| JBigInt (z : Z)
| JArr (items : list JsValue)
| JObj (props : list (string * JsValue))
| JBackRef.

(** Exceptions. *)
Inductive Exn :=
| TypeError (message : string)
| SystemError (code : string) (path : string).

Definition hexNibble (n : nat) : ascii := Uuid.hexDigit n.

(** [QuoteJSONString]: the characters that are escaped. *)
Definition escapeChar (c : ascii) (rest : string) : string :=
  let n := nat_of_ascii c in
  if (n =? 34)%nat then String "\" (String DQ rest)
  else if (n =? 92)%nat then String "\" (String "\" rest)
  else if (n =? 8)%nat then String "\" (String "b" rest)
  else if (n =? 9)%nat then String "\" (String "t" rest)
  else if (n =? 10)%nat then String "\" (String "n" rest)
  else if (n =? 12)%nat then String "\" (String "f" rest)
  else if (n =? 13)%nat then String "\" (String "r" rest)
  else if (n <? 32)%nat then
    String "\" (String "u" (String "0" (String "0"
      (String (hexNibble (n / 16)) (String (hexNibble (n mod 16)) rest)))))
  else String c rest.

Fixpoint escapeString (s : string) : string :=
  match s with
  | EmptyString => EmptyString
  | String c r => escapeChar c (escapeString r)
  end.

Definition quote (s : string) : string :=
  String DQ (escapeString s +:+ String DQ EmptyString).

Fixpoint joinComma (parts : list string) : string :=
  match parts with
  | [] => EmptyString
  | [x] => x
  | x :: rest => x +:+ "," +:+ joinComma rest
  end.

(** [SerializeJSONProperty] without indentation: [inr e] is a thrown
    exception, [inl None] is [undefined], [inl (Some s)] is text. *)
Fixpoint serialize (v : JsValue) : option string + Exn :=
  match v with
  | JUndefined => inl None
  | JNull => inl (Some "null")
  | JBool b => inl (Some (if b then "true" else "false"))
  | JNum z => inl (Some (showZ z))
  | JStr s => inl (Some (quote s))
  | JBigInt _ => inr (TypeError "Do not know how to serialize a BigInt")
  | JBackRef => inr (TypeError "Converting circular structure to JSON")
  | JArr items =>
      let fix elems (l : list JsValue) : list string + Exn :=
        match l with
        | [] => inl []
        | x :: r =>
            match serialize x with
            | inr e => inr e
            | inl o =>
                match elems r with
                | inr e => inr e
                | inl ps => inl (default "null" o :: ps)
                end
            end
        end in
      match elems items with
      | inr e => inr e
      | inl ps => inl (Some ("[" +:+ joinComma ps +:+ "]"))
      end
  | JObj props =>
      let fix members (l : list (string * JsValue)) : list string + Exn :=
        match l with
        | [] => inl []
        | (k, x) :: r =>
            match serialize x with
            | inr e => inr e
            | inl o =>
                match members r with
                | inr e => inr e
                | inl ps =>
                    inl (match o with
                         | Some t => (quote k +:+ ":" +:+ t) :: ps
                         | None => ps
                         end)
                end
            end
        end in
      match members props with
      | inr e => inr e
      | inl ps => inl (Some ("{" +:+ joinComma ps +:+ "}"))
      end
  end.

(** [JSON.stringify(obj)] for an object given by its own enumerable
    properties. *)
Definition stringify (props : list (string * JsValue)) : string + Exn :=
  match serialize (JObj props) with
  | inr e => inr e
  | inl o => inl (default "undefined" o)
  end.

End Json.

Module Sys.
Import Json.

(** A call of [console.log], [console.warn] or [console.error] with its
    arguments rendered as text. *)
Inductive ConsoleMethod := ConsoleLog | ConsoleWarn | ConsoleError.

Record ConsoleCall := {
  method : ConsoleMethod;
  args : list string
}.

(** A directory entry.  [busy] entries are those the platform refuses
    to unlink or rename (the call throws). *)
Record File := {
  content : string;
  mtime : Z;
  busy : bool
}.

(** A path is kept as the pair [(dirname p, basename p)];
    [join(dir, name)] is the pairing. *)
Abbreviation Path := (string * string)%type.

(** The state the code runs in: what it reads from the platform, what
    it writes to it, and the one object it mutates itself. *)
Record World := {
  clock : nat -> Z;        (* the successive readings of the system clock *)
  ticks : nat;             (* how many readings were taken *)
  tzOffset : Z;            (* local time minus UTC, in milliseconds *)
  entropy : nat -> nat -> N; (* the n-th batch of sixteen random bytes *)
  draws : nat;             (* how many batches were taken *)
  pid : Z;                 (* process.pid *)
  traceStore : option (gmap string string); (* asyncLocalStorage.getStore() *)
  console : list ConsoleCall;               (* console output, oldest first *)
  fs : gmap (string * string) File;
  breaker : Breaker.LoggerCircuitBreaker    (* the logger's circuitBreaker object *)
}.

Definition setTicks (n : nat) (w : World) : World :=
  {| clock := clock w; ticks := n; tzOffset := tzOffset w; entropy := entropy w;
     draws := draws w; pid := pid w; traceStore := traceStore w;
     console := console w; fs := fs w; breaker := breaker w |}.

Definition setDraws (n : nat) (w : World) : World :=
  {| clock := clock w; ticks := ticks w; tzOffset := tzOffset w; entropy := entropy w;
     draws := n; pid := pid w; traceStore := traceStore w;
     console := console w; fs := fs w; breaker := breaker w |}.

Definition setTraceStore (st : option (gmap string string)) (w : World) : World :=
  {| clock := clock w; ticks := ticks w; tzOffset := tzOffset w; entropy := entropy w;
     draws := draws w; pid := pid w; traceStore := st;
     console := console w; fs := fs w; breaker := breaker w |}.

Definition setConsole (c : list ConsoleCall) (w : World) : World :=
  {| clock := clock w; ticks := ticks w; tzOffset := tzOffset w; entropy := entropy w;
     draws := draws w; pid := pid w; traceStore := traceStore w;
     console := c; fs := fs w; breaker := breaker w |}.

Definition setFs (f : gmap (string * string) File) (w : World) : World :=
  {| clock := clock w; ticks := ticks w; tzOffset := tzOffset w; entropy := entropy w;
     draws := draws w; pid := pid w; traceStore := traceStore w;
     console := console w; fs := f; breaker := breaker w |}.

Definition setBreaker (b : Breaker.LoggerCircuitBreaker) (w : World) : World :=
  {| clock := clock w; ticks := ticks w; tzOffset := tzOffset w; entropy := entropy w;
     draws := draws w; pid := pid w; traceStore := traceStore w;
     console := console w; fs := fs w; breaker := b |}.

(** Computations: a result or a thrown exception, and the world after. *)
Inductive Outcome (A : Type) :=
| Returned (a : A)
| Thrown (e : Exn).
Arguments Returned {A} a.
Arguments Thrown {A} e.

Definition M (A : Type) : Type := World -> Outcome A * World.

#[export] Instance M_ret : MRet M := fun A a w => (Returned a, w).

#[export] Instance M_bind : MBind M := fun A B f m w =>
  match m w with
  | (Returned a, w') => f a w'
  | (Thrown e, w') => (Thrown e, w')
  end.

Definition throw {A} (e : Exn) : M A := fun w => (Thrown e, w).

(** [try { body } catch (err) { handler(err) }]. *)
Definition tryCatch {A} (body : M A) (handler : Exn -> M A) : M A := fun w =>
  match body w with
  | (Returned a, w') => (Returned a, w')
  | (Thrown e, w') => handler e w'
  end.

Definition get : M World := fun w => (Returned w, w).
Definition modify (f : World -> World) : M unit := fun w => (Returned tt, f w).

(** [Date.now()] and [new Date()]: take the next clock reading. *)
Definition dateNow : M Z := fun w =>
  (Returned (clock w (ticks w)), setTicks (S (ticks w)) w).

(** [uuidv4()]: format the next batch of random bytes. *)
Definition uuidv4 : M string := fun w =>
  (Returned (Uuid.format (entropy w (draws w))), setDraws (S (draws w)) w).

Definition consoleCall (m : ConsoleMethod) (a : list string) : M unit :=
  modify (fun w => setConsole (console w ++ [{| method := m; args := a |}]) w).

Definition showExn (e : Exn) : string :=
  match e with
  | TypeError m => "TypeError: " +:+ m
  | SystemError c (p) => "Error: " +:+ c +:+ ": " +:+ p
  end.

(** [asyncLocalStorage.run(store, body)]: [body] runs with [store] as
    the ambient store; the previous one is visible again afterwards,
    also when [body] throws. *)
Definition alsRun {A} (store : gmap string string) (body : M A) : M A := fun w =>
  let saved := traceStore w in
  let '(r, w') := body (setTraceStore (Some store) w) in
  (r, setTraceStore saved w').

(** ** Node's [fs] and [path] *)

Definition pathString (p : Path) : string := fst p +:+ "/" +:+ snd p.

Definition existsSync (p : Path) : M bool := fun w =>
  (Returned (bool_decide (is_Some (fs w !! p))), w).

(** [statSync(p)]: the size in bytes and the modification time. *)
Definition statSync (p : Path) : M (Z * Z) := fun w =>
  match fs w !! p with
  | Some f => (Returned (Z.of_nat (String.length (content f)), mtime f), w)
  | None => (Thrown (SystemError "ENOENT" (pathString p)), w)
  end.

(** [renameSync(src, dst)]: an existing [dst] is replaced. *)
Definition renameSync (src dst : Path) : M unit := fun w =>
  match fs w !! src with
  | None => (Thrown (SystemError "ENOENT" (pathString src)), w)
  | Some f =>
      if busy f then (Thrown (SystemError "EBUSY" (pathString src)), w)
      else
        match fs w !! dst with
        | Some g =>
            if busy g then (Thrown (SystemError "EBUSY" (pathString dst)), w)
            else (Returned tt, setFs (<[dst := f]> (delete src (fs w))) w)
        | None => (Returned tt, setFs (<[dst := f]> (delete src (fs w))) w)
        end
  end.

Definition unlinkSync (p : Path) : M unit := fun w =>
  match fs w !! p with
  | None => (Thrown (SystemError "ENOENT" (pathString p)), w)
  | Some f =>
      if busy f then (Thrown (SystemError "EBUSY" (pathString p)), w)
      else (Returned tt, setFs (delete p (fs w)) w)
  end.

(** The names of the entries of [dir]. *)
Definition dirNames (files : gmap (string * string) File) (dir : string) : list string :=
  snd <$> filter (fun k => fst k = dir) (fst <$> map_to_list files).

(** [readdirSync(dir)]. *)
Definition readdirSync (dir : string) : M (list string) := fun w =>
  (Returned (dirNames (fs w) dir), w).

(** [createWriteStream(p, {flags: 'a'})], one [write] and [end].  The
    platform performs the write after the call has returned.  The file
    system of the model shows the file as it is once the stream of this
    write has been flushed, no other write to the file being in flight:
    the text is appended, the file being created when missing.  The
    order in which the streams of several writes in quick succession
    reach the file is not modelled, and neither is the size that
    [statSync] reports while a stream is still open.  (Failures of the
    stream are reported asynchronously, outside the call.) *)
Definition appendFile (p : Path) (data : string) : M unit := fun w =>
  let now := clock w (ticks w) in
  let f' :=
    match fs w !! p with
    | Some f => {| content := content f +:+ data; mtime := now; busy := busy f |}
    | None => {| content := data; mtime := now; busy := false |}
    end in
  (Returned tt, setFs (<[p := f']> (fs w)) w).

(** [path.extname] on a file name: from its last dot on, where a dot in
    first position does not count and [".."] has no extension. *)
Fixpoint lastDotSuffix (s : string) : option string :=
  match s with
  | EmptyString => None
  | String c r =>
      match lastDotSuffix r with
      | Some e => Some e
      | None => if Ascii.eqb c "." then Some s else None
      end
  end.

Definition extname (name : string) : string :=
  match name with
  | EmptyString => EmptyString
  | String c r =>
      if String.eqb name ".." then EmptyString
      else default EmptyString (lastDotSuffix r)
  end.

(** [path.basename(p, ext)] on the file name of [p]. *)
Definition basenameExt (name ext : string) : string :=
  let n := String.length name in
  let k := String.length ext in
  if (0 <? k)%nat && (k <=? n)%nat then
    if String.eqb ext name then EmptyString
    else if Text.endsWith name ext then Text.takeStr (n - k) name
    else name
  else name.

End Sys.

(* ===================================================================== *)
(** * Double-precision numbers, as far as [parseSize] needs them          *)
(* ===================================================================== *)

Module Double.

(** A non-negative JavaScript number: the dyadic rational
    [mant * 2^expo], or [Infinity]. *)
Inductive Num :=
| Finite (mant : Z) (expo : Z)
| Infinity.

(** [floor(log2(p/q))] for positive [p], [q]. *)
Definition floorLog2 (p q : Z) : Z :=
  let g := Z.log2 p - Z.log2 q in
  if 0 <=? g then (if q * 2 ^ g <=? p then g else g - 1)
  else (if q <=? p * 2 ^ (- g) then g else g - 1).

(** The double nearest to [p/q] (ties to even), for [0 <= p], [0 < q]:
    53 significant bits, exponents from -1074, overflow to
    [Infinity]. *)
Definition nearest (p q : Z) : Num :=
  if p =? 0 then Finite 0 0
  else
    let e := Z.max (floorLog2 p q - 52) (-1074) in
    let num := if 0 <=? e then p else p * 2 ^ (- e) in
    let den := if 0 <=? e then q * 2 ^ e else q in
    let m0 := num / den in
    let r := num mod den in
    let m := if (den <? 2 * r) || ((den =? 2 * r) && Z.odd m0) then m0 + 1 else m0 in
    if 2 ^ 1024 <=? m * 2 ^ (Z.max e 0) then Infinity else Finite m e.

(** [x * 2^j] for [0 <= j <= 30]: exact, unless it overflows. *)
Definition scale (x : Num) (j : Z) : Num :=
  match x with
  | Infinity => Infinity
  | Finite m e =>
      if 2 ^ 1024 <=? m * 2 ^ (Z.max (e + j) 0) then Infinity else Finite m (e + j)
  end.

(** [Math.floor(x)] as an integer, [None] for [Infinity]. *)
Definition floor (x : Num) : option Z :=
  match x with
  | Infinity => None
  | Finite m e => Some (if 0 <=? e then m * 2 ^ e else m / 2 ^ (- e))
  end.

(** [n > x] for an integer [n] and [x = Math.floor(...)]. *)
Definition gtFloor (n : Z) (x : option Z) : bool :=
  match x with
  | Some k => k <? n
  | None => false
  end.

End Double.

(* ===================================================================== *)
(** * src/log.rotation.ts                                                 *)
(* ===================================================================== *)

Module Rotator.
Import Text Utf16 Json Sys.

(** [Required<RotationOptions>]. *)
Record RotationOptions := {
  enabled : bool;
  maxSize : list N;
  maxFiles : Z;
  compress : bool
}.

(** The constructor's defaults. *)
Definition defaultOptions : RotationOptions :=
  {| enabled := false; maxSize := utf16 "10m"; maxFiles := 5; compress := false |}.

(** [\d]: the ten ASCII digits. *)
Definition isDecimalDigit (c : N) : bool := ((48 <=? c) && (c <=? 57))%N.

(** [\s]: the white space and the line terminators of ECMAScript
    (tab, line feed, vertical tab, form feed, carriage return, space,
    no-break space, U+1680, U+2000 to U+200A, U+2028, U+2029, U+202F,
    U+205F, U+3000 and U+FEFF). *)
Definition isSpace (c : N) : bool :=
  (((9 <=? c) && (c <=? 13)) || (c =? 32) || (c =? 160) || (c =? 5760)
   || ((8192 <=? c) && (c <=? 8202)) || (c =? 8232) || (c =? 8233)
   || (c =? 8239) || (c =? 8287) || (c =? 12288) || (c =? 65279))%N.

(** [\.]. *)
Definition isDot (c : N) : bool := (c =? 46)%N.

(** The longest run of digits at the front of a string, and the rest. *)
Fixpoint takeDigits (s : list N) : list N * list N :=
  match s with
  | [] => ([], [])
  | c :: r =>
      if isDecimalDigit c then let '(d, r') := takeDigits r in (c :: d, r')
      else ([], s)
  end.

Fixpoint dropSpaces (s : list N) : list N :=
  match s with
  | [] => []
  | c :: r => if isSpace c then dropSpaces r else s
  end.

(** The table [units], by the binary exponent of the multiple; its
    keys are the letters b, k, m and g. *)
Definition unitExponent (c : N) : option Z :=
  if (c =? 98)%N then Some 0
  else if (c =? 107)%N then Some 10
  else if (c =? 109)%N then Some 20
  else if (c =? 103)%N then Some 30
  else None.

(** [s.match(/^(\d+(?:\.\d+)?)\s*([bkmg])?$/)]: the integer digits and
    the fraction digits of group 1, and the exponent of the unit of
    group 2 ([None] when the group did not take part). *)
Definition matchSize (s : list N) : option (list N * list N * option Z) :=
  let '(int, r1) := takeDigits s in
  match int with
  | [] => None
  | _ :: _ =>
      let '(frac, r2) :=
        match r1 with
        | c :: r =>
            if isDot c then
              match takeDigits r with
              | ([], _) => ([], r1)
              | (f, r') => (f, r')
              end
            else ([], r1)
        | [] => ([], r1)
        end in
      match dropSpaces r2 with
      | [] => Some (int, frac, None)
      | [u] =>
          match unitExponent u with
          | Some j => Some (int, frac, Some j)
          | None => None
          end
      | _ => None
      end
  end.

(** The value of a string of digits. *)
Fixpoint digitsValue (acc : Z) (s : list N) : Z :=
  match s with
  | [] => acc
  | c :: r => digitsValue (10 * acc + (Z.of_N c - 48)) r
  end.

(** [parseFloat] on the text [int.frac] of group 1. *)
Definition parseFloat (int frac : list N) : Double.Num :=
  Double.nearest (digitsValue (digitsValue 0 int) frac)
                 (10 ^ Z.of_nat (length frac)).

(** [parseSize(sizeStr)]; [None] is [Infinity]. *)
Definition parseSize (sizeStr : list N) : option Z :=
  match matchSize (toLowerCase sizeStr) with
  | None => Some (10 * 1024 * 1024)
  | Some (int, frac, u) =>
      Double.floor (Double.scale (parseFloat int frac) (default 0 u))
  end.

(** The suffix given to a rotated file:
    [toISOString().replace(/[:.]/g, '-').replace('T', '_').split('Z')[0]]. *)
Definition rotationStamp (now : Z) : string :=
  beforeFirst "Z"
    (replaceFirstChar "T" "_"
      (replaceAllChars (fun c => Ascii.eqb c ":" || Ascii.eqb c ".") "-"
        (JsDate.toISOString now))).

(** The path a file is rotated to at clock reading [now]. *)
Definition rotatedPath (filePath : Path) (now : Z) : Path :=
  let ext := extname (snd filePath) in
  (fst filePath,
   basenameExt (snd filePath) ext +:+ "-" +:+ rotationStamp now +:+ ext).

Definition rotateFile (filePath : Path) : M unit :=
  now ← dateNow;
  tryCatch (renameSync filePath (rotatedPath filePath now))
    (fun e => consoleCall ConsoleError ["Failed to rotate log file:"; showExn e]).

(** One element of the array built in [cleanupOldFiles]. *)
Record Entry := {
  name : string;
  path : Path;
  time : Z
}.

(** The filter of [cleanupOldFiles] on a directory entry [file]. *)
Definition isSibling (filePath : Path) (file : string) : bool :=
  let ext := extname (snd filePath) in
  startsWith file (basenameExt (snd filePath) ext)
  && endsWith file ext
  && negb (String.eqb file (snd filePath)).

(** [.sort((a, b) => b.time - a.time)]: a stable sort, newest first. *)
Fixpoint insertEntry (x : Entry) (l : list Entry) : list Entry :=
  match l with
  | [] => [x]
  | y :: r => if time y <=? time x then x :: y :: r else y :: insertEntry x r
  end.

Definition sortNewestFirst (l : list Entry) : list Entry :=
  foldr insertEntry [] l.

(** [arr.slice(k)]: a negative [k] counts from the end. *)
Definition slice {A} (k : Z) (l : list A) : list A :=
  if k <? 0 then drop (Z.to_nat (Z.max (Z.of_nat (length l) + k) 0)) l
  else drop (Z.to_nat k) l.

Fixpoint statEntries (dir : string) (files : list string) : M (list Entry) :=
  match files with
  | [] => mret []
  | file :: rest =>
      st ← statSync (dir, file);
      es ← statEntries dir rest;
      mret ({| name := file; path := (dir, file); time := snd st |} :: es)
  end.

(** The [forEach] over [filesToRemove]. *)
Fixpoint removeEntries (l : list Entry) : M unit :=
  match l with
  | [] => mret tt
  | f :: rest =>
      tryCatch (unlinkSync (path f))
        (fun e => consoleCall ConsoleError ["Failed to remove old log file:"; showExn e]);;
      removeEntries rest
  end.

Definition cleanupOldFiles (o : RotationOptions) (filePath : Path) : M unit :=
  tryCatch
    (names ← readdirSync (fst filePath);
     entries ← statEntries (fst filePath) (filter (fun f => isSibling filePath f = true) names);
     let files := sortNewestFirst entries in
     if maxFiles o <? Z.of_nat (length files)
     then removeEntries (slice (maxFiles o) files)
     else mret tt)
    (fun e => consoleCall ConsoleError ["Failed to cleanup old log files:"; showExn e]).

Definition checkAndRotate (o : RotationOptions) (filePath : Path) : M unit :=
  if negb (enabled o) then mret tt
  else
    tryCatch
      (ex ← existsSync filePath;
       if negb ex then mret tt
       else
         st ← statSync filePath;
         let limit := parseSize (maxSize o) in
         if Double.gtFloor (fst st) limit
         then rotateFile filePath;; cleanupOldFiles o filePath
         else mret tt)
      (fun e => consoleCall ConsoleError ["Log rotation error:"; showExn e]).

End Rotator.

(* ===================================================================== *)
(** * src/logger.ts                                                       *)
(* ===================================================================== *)

Module Logger.
Import Text Json Sys.

(** ** Colours *)

Definition sgr (code : string) : string := String ESC (String "[" (code +:+ "m")).

Definition reset : string := sgr "0".
Definition bright : string := sgr "1".
Definition dim : string := sgr "2".
Definition black : string := sgr "30".
Definition red : string := sgr "31".
Definition green : string := sgr "32".
Definition yellow : string := sgr "33".
Definition blue : string := sgr "34".
Definition magenta : string := sgr "35".
Definition cyan : string := sgr "36".
Definition white : string := sgr "37".
Definition brightRed : string := sgr "91".
Definition brightGreen : string := sgr "92".
Definition brightYellow : string := sgr "93".
Definition brightBlue : string := sgr "94".
Definition brightMagenta : string := sgr "95".
Definition brightCyan : string := sgr "96".
Definition brightWhite : string := sgr "97".

(** The four levels, in the order of [logLevels]. *)
Inductive Level := debug | info | warn | error.

#[export] Instance Level_eq_dec : EqDecision Level.
Proof. solve_decision. Defined.

Definition levelName (l : Level) : string :=
  match l with
  | debug => "debug" | info => "info" | warn => "warn" | error => "error"
  end.

(** [logLevels.indexOf(level)]. *)
Definition levelIndex (l : Level) : Z :=
  match l with
  | debug => 0 | info => 1 | warn => 2 | error => 3
  end.

Definition DefaultLevelColors (l : Level) : string :=
  match l with
  | debug => cyan | info => green | warn => yellow | error => red
  end.

(** The own keys of [colorMap]. *)
Definition colorMap : list (string * string) :=
  [ ("black", black); ("red", red); ("green", green); ("yellow", yellow);
    ("blue", blue); ("magenta", magenta); ("cyan", cyan); ("white", white);
    ("brightRed", brightRed); ("brightGreen", brightGreen);
    ("brightYellow", brightYellow); ("brightBlue", brightBlue);
    ("brightMagenta", brightMagenta); ("brightCyan", brightCyan);
    ("brightWhite", brightWhite) ].

Fixpoint assoc (k : string) (l : list (string * string)) : option string :=
  match l with
  | [] => None
  | (k', v) :: r => if String.eqb k k' then Some v else assoc k r
  end.

(** What a property name that is not an own key of [colorMap] finds on
    [Object.prototype], as a template string renders the value: the
    source text of a built-in function, or [[object Object]] for the
    prototype object itself. *)
Definition objectPrototype : list (string * string) :=
  [ ("constructor", "function Object() { [native code] }");
    ("__defineGetter__", "function __defineGetter__() { [native code] }");
    ("__defineSetter__", "function __defineSetter__() { [native code] }");
    ("hasOwnProperty", "function hasOwnProperty() { [native code] }");
    ("__lookupGetter__", "function __lookupGetter__() { [native code] }");
    ("__lookupSetter__", "function __lookupSetter__() { [native code] }");
    ("isPrototypeOf", "function isPrototypeOf() { [native code] }");
    ("propertyIsEnumerable", "function propertyIsEnumerable() { [native code] }");
    ("toString", "function toString() { [native code] }");
    ("valueOf", "function valueOf() { [native code] }");
    ("__proto__", "[object Object]");
    ("toLocaleString", "function toLocaleString() { [native code] }") ].

(** [colorMap[colorName] || ''], as the text that the template strings
    of [formatLog] and [writeToConsole] make of the result.  [colorMap] is
    an object literal: a name that is not one of its own keys is looked up
    on [Object.prototype], and what is found there is truthy. *)
Definition getColorCode (colorName : string) : string :=
  match assoc colorName colorMap with
  | Some code => code
  | None => default EmptyString (assoc colorName objectPrototype)
  end.

(** ** Options *)

Record ErrorObject := {
  errorMessage : string;
  stack : option string
}.

Record LogOptions := {
  functionName : string;
  metadata : option (list (string * JsValue));
  error_ : option ErrorObject;
  customColor : option string;
  logColor : option string;
  fullLogColor : option string
}.

(** [config.customColors]: a colour name per level, when given. *)
Definition CustomColors : Type := Level -> option string.

(** Truthiness of an optional string: present and not empty. *)
Definition truthy (o : option string) : option string :=
  match o with
  | Some EmptyString => None
  | _ => o
  end.

(** ** Formatting *)

Definition getTimestamp : M string :=
  now ← dateNow; mret (JsDate.toISOString now).

Definition getConsoleTimestamp : M string :=
  w ← get; now ← dateNow; mret (JsDate.localClockString (tzOffset w) now).

(** The characters [[0-9;]]. *)
Definition isParam (c : ascii) : bool := isDigit c || Ascii.eqb c ";".

(** After [ESC \[]: the number of characters of [[0-9;]*m] at the front
    of [s], if it is there. *)
Fixpoint paramsLength (s : string) : option nat :=
  match s with
  | EmptyString => None
  | String c r =>
      if isParam c then S <$> paramsLength r
      else if Ascii.eqb c "m" then Some 1%nat
      else None
  end.

(** The length of a match of [/\x1b\[[0-9;]*m/] at the front of [s]. *)
Definition ansiLength (s : string) : option nat :=
  match s with
  | String e (String b r) =>
      if Ascii.eqb e ESC && Ascii.eqb b "[" then (fun n => S (S n)) <$> paramsLength r
      else None
  | _ => None
  end.

(** [str.replace(/\x1b\[[0-9;]*m/g, '')]: the string is scanned from
    the left; a match is dropped and the scan resumes after it.  [skip]
    counts the characters of the current match still to be dropped. *)
Fixpoint strip (skip : nat) (s : string) : string :=
  match s with
  | EmptyString => EmptyString
  | String c r =>
      match skip with
      | S k => strip k r
      | O =>
          match ansiLength s with
          | Some n => strip (Nat.pred n) r
          | None => String c (strip 0 r)
          end
      end
  end.

Definition removeColors (str : string) : string := strip 0 str.

(** Whether a colour escape sequence occurs somewhere in a string. *)
Fixpoint containsAnsi (s : string) : bool :=
  match s with
  | EmptyString => false
  | String c r => bool_decide (is_Some (ansiLength s)) || containsAnsi r
  end.

(** [asyncLocalStorage.getStore()?.get('traceId') || uuidv4()]. *)
Definition currentTraceId : M string :=
  w ← get;
  match truthy (traceStore w ≫= (fun m => m !! "traceId")) with
  | Some id => mret id
  | None => uuidv4
  end.

(** The colour of the level token: [opts.customColor], else the
    configured colour of the level, else the default one. *)
Definition levelColorFor (custom : option string) (customLevelColors : option CustomColors)
    (level : Level) : string :=
  match truthy custom with
  | Some c => getColorCode c
  | None =>
      match customLevelColors ≫= (fun cc => truthy (cc level)) with
      | Some c => getColorCode c
      | None => DefaultLevelColors level
      end
  end.

(** [opts.metadata ? JSON.stringify(opts.metadata) : '{}']. *)
Definition metadataText (opts : LogOptions) : M string :=
  match metadata opts with
  | Some m =>
      match stringify m with
      | inl t => mret t
      | inr e => throw e
      end
  | None => mret "{}"
  end.

(** The template strings of [formatLog], given the trace identifier,
    the metadata text and the timestamp. *)
Definition render (level : Level) (msg : string) (opts : LogOptions)
    (useColors : bool) (customLevelColors : option CustomColors)
    (traceId metadataText timestamp : string) : string :=
  let levelColor := levelColorFor (customColor opts) customLevelColors level in
  let resetColor := reset in
  let dimColor := if useColors then dim else EmptyString in
  let brightColor := if useColors then bright else EmptyString in
  let fullColor := from_option getColorCode EmptyString (truthy (fullLogColor opts)) in
  let msgColor := from_option getColorCode EmptyString (truthy (logColor opts)) in
  let output :=
    fullColor +:+ brightColor +:+ timestamp +:+ ":" +:+ resetColor +:+ " "
    +:+ levelColor +:+ levelName level +:+ resetColor +:+ ": "
    +:+ fullColor +:+ msgColor +:+ msg +:+ resetColor +:+ String "010"
    (fullColor +:+ dimColor +:+ "Trace Id: " +:+ traceId +:+ resetColor +:+ String "010"
    (fullColor +:+ dimColor +:+ "Function Name: " +:+ functionName opts +:+ resetColor
     +:+ String "010"
    (fullColor +:+ dimColor +:+ "Metadata: " +:+ metadataText +:+ resetColor))) in
  match truthy (error_ opts ≫= stack) with
  | Some st =>
      let errorColor := if useColors then red else EmptyString in
      output +:+ String "010"
        (fullColor +:+ errorColor +:+ "Error Stack: " +:+ st +:+ resetColor)
  | None => output
  end.

(** [formatLog]: the trace identifier is looked up (or generated), the
    metadata serialised and the clock read, in this order. *)
Definition formatLog (level : Level) (msg : string) (opts : LogOptions)
    (useColors : bool) (customLevelColors : option CustomColors) : M string :=
  traceId ← currentTraceId;
  md ← metadataText opts;
  timestamp ← getTimestamp;
  mret (render level msg opts useColors customLevelColors traceId md timestamp).

(** ** The logger object *)

(** The fields of [CustomLogger] fixed by its constructor.  The
    breaker object itself lives in the [World]. *)
Record CustomLogger := {
  fileTransport : option Path;
  breakerOptions : Breaker.CircuitBreakerOptions;
  circuitBreakerCallback : M unit;
  logRotator : Rotator.RotationOptions;
  currentLogLevelIndex : Z;
  useColors : bool;
  customLevelColors : CustomColors
}.

(** The default [circuitBreakerCallback]. *)
Definition defaultCallback : M unit :=
  consoleCall ConsoleLog ["Logging disabled due to circuit breaker"].

(** [circuitBreaker.isEnabled()] on the logger's breaker. *)
Definition isEnabled (L : CustomLogger) : M bool :=
  w ← get;
  if negb (Breaker.isOpen (breaker w)) then mret true
  else
    now ← dateNow;
    let '(r, b) := Breaker.isEnabled (breakerOptions L) now (breaker w) in
    modify (setBreaker b);; mret r.

(** [circuitBreaker.incrementErrorCount()] on the logger's breaker. *)
Definition incrementErrorCount (L : CustomLogger) : M unit :=
  w ← get;
  if Breaker.isOpen (breaker w) then mret tt
  else
    now ← dateNow;
    let '(b, n) := Breaker.incrementErrorCount (breakerOptions L) now (breaker w) in
    modify (setBreaker b);;
    match n with
    | O => mret tt
    | S _ => circuitBreakerCallback L
    end.

Definition shouldLog (L : CustomLogger) (level : Level) : bool :=
  currentLogLevelIndex L <=? levelIndex level.

(** The [write] of the object returned by [createFileTransport]. *)
Definition fileTransportWrite (L : CustomLogger) (p : Path) (data : string) : M unit :=
  tryCatch
    (Rotator.checkAndRotate (logRotator L) p;;
     appendFile p (data +:+ String "010" EmptyString))
    (fun e => consoleCall ConsoleError ["Failed to write to log file:"; showExn e]).

Definition consoleMethodOf (level : Level) : ConsoleMethod :=
  match level with
  | info => ConsoleLog
  | debug => ConsoleLog
  | warn => ConsoleWarn
  | error => ConsoleError
  end.

Definition writeToConsole (L : CustomLogger) (level : Level) (formattedLog : string)
    (customColor logColor fullLogColor : option string) : M unit :=
  timestamp ← getConsoleTimestamp;
  w ← get;
  let levelColor :=
    match truthy customColor with
    | Some c => getColorCode c
    | None =>
        match truthy (customLevelColors L level) with
        | Some c => getColorCode c
        | None => DefaultLevelColors level
        end
    end in
  let resetColor := reset in
  let pidColor := if useColors L then blue else EmptyString in
  let bracketColor := if useColors L then dim else EmptyString in
  let fullLogPrefixColor := from_option getColorCode EmptyString (truthy fullLogColor) in
  let prefix :=
    fullLogPrefixColor +:+ bracketColor +:+ "[" +:+ timestamp +:+ "]" +:+ resetColor
    +:+ " " +:+ levelColor +:+ toUpperCase (levelName level) +:+ resetColor +:+ " "
    +:+ fullLogPrefixColor +:+ bracketColor +:+ "(" +:+ pidColor +:+ showZ (pid w)
    +:+ bracketColor +:+ "):" +:+ resetColor in
  consoleCall (consoleMethodOf level) [prefix; formattedLog].

(** [CustomLogger.log]. *)
Definition log (L : CustomLogger) (level : Level) (msg : string) (opts : LogOptions)
    : M unit :=
  if negb (shouldLog L level) then mret tt
  else
    blocked ←
      (if decide (level = error) then en ← isEnabled L; mret (negb en)
       else mret false);
    if (blocked : bool) then mret tt
    else
      formattedLog ← formatLog level msg opts (useColors L) (Some (customLevelColors L));
      writeToConsole L level formattedLog (customColor opts) (logColor opts)
        (fullLogColor opts);;
      match fileTransport L with
      | Some p =>
          fileLog ← formatLog level msg opts false None;
          fileTransportWrite L p (removeColors fileLog)
      | None => mret tt
      end;;
      if decide (level = error) then incrementErrorCount L else mret tt.

(** ** Construction *)

Inductive Mode := simple | pro.

(** [CircuitBreakerOptions] as passed by the caller. *)
Record BreakerConfig := {
  cfgCount : option Z;
  cfgTime : option Z;
  cfgCooldown : option Z;
  cfgCallback : option (M unit)
}.

(** [RotationOptions] as passed by the caller. *)
Record RotationConfig := {
  cfgEnabled : option bool;
  cfgMaxSize : option (list N);
  cfgMaxFiles : option Z;
  cfgCompress : option bool
}.

Record LoggerConfig := {
  mode : option Mode;
  logLevel : option Level;
  filePath : option Path;
  colors : option bool;
  customColors : option CustomColors;
  circuitBreaker : option BreakerConfig;
  rotation : option RotationConfig;
  includeIp : option bool;
  includeUserAgent : option bool;
  includeParams : bool;
  includeQueries : bool;
  includeResponseHeaders : bool;
  includeSendData : bool
}.

Definition emptyBreakerConfig : BreakerConfig :=
  {| cfgCount := None; cfgTime := None; cfgCooldown := None; cfgCallback := None |}.

Definition emptyRotationConfig : RotationConfig :=
  {| cfgEnabled := None; cfgMaxSize := None; cfgMaxFiles := None; cfgCompress := None |}.

(** [new CustomLogger(config)]: the breaker is created at the current
    clock reading. *)
Definition newCustomLogger (config : LoggerConfig) : M CustomLogger :=
  let bc := default emptyBreakerConfig (circuitBreaker config) in
  let rc := default emptyRotationConfig (rotation config) in
  now ← dateNow;
  modify (setBreaker (Breaker.create now));;
  mret
    {| fileTransport :=
         match mode config with
         | Some pro => filePath config
         | _ => None
         end;
       breakerOptions :=
         {| Breaker.circuitBreakerCount := default 5 (cfgCount bc);
            Breaker.circuitBreakerTime := default 30000 (cfgTime bc);
            Breaker.circuitBreakerCooldown := default 60000 (cfgCooldown bc) |};
       circuitBreakerCallback := default defaultCallback (cfgCallback bc);
       logRotator :=
         {| Rotator.enabled := default false (cfgEnabled rc);
            Rotator.maxSize := default (Utf16.utf16 "10m") (cfgMaxSize rc);
            Rotator.maxFiles := default 5 (cfgMaxFiles rc);
            Rotator.compress := default false (cfgCompress rc) |};
       currentLogLevelIndex := levelIndex (default info (logLevel config));
       useColors := default true (colors config);
       customLevelColors := default (fun _ => None) (customColors config) |}.

(** ** The Express middleware *)

Record Request := {
  reqMethod : string;
  reqUrl : string;
  reqIp : option string;
  reqUserAgent : option string;
  reqParams : list (string * JsValue);
  reqQuery : list (string * JsValue);
  reqBody : JsValue
}.

Record Response := {
  statusCode : Z;
  responseHeaders : list (string * JsValue)
}.

(** [JSON.parse(JSON.stringify(v))]: [undefined] members are dropped,
    [undefined] elements become [null]. *)
Fixpoint jsonClone (v : JsValue) : option JsValue + Exn :=
  match v with
  | JUndefined => inl None
  | JBigInt _ => inr (TypeError "Do not know how to serialize a BigInt")
  | JBackRef => inr (TypeError "Converting circular structure to JSON")
  | JArr items =>
      let fix elems (l : list JsValue) : list JsValue + Exn :=
        match l with
        | [] => inl []
        | x :: r =>
            match jsonClone x with
            | inr e => inr e
            | inl o =>
                match elems r with
                | inr e => inr e
                | inl vs => inl (default JNull o :: vs)
                end
            end
        end in
      match elems items with
      | inr e => inr e
      | inl vs => inl (Some (JArr vs))
      end
  | JObj props =>
      let fix members (l : list (string * JsValue)) : list (string * JsValue) + Exn :=
        match l with
        | [] => inl []
        | (k, x) :: r =>
            match jsonClone x with
            | inr e => inr e
            | inl o =>
                match members r with
                | inr e => inr e
                | inl ps =>
                    inl (match o with
                         | Some x' => (k, x') :: ps
                         | None => ps
                         end)
                end
            end
        end in
      match members props with
      | inr e => inr e
      | inl ps => inl (Some (JObj ps))
      end
  | other => inl (Some other)
  end.

(** The [body] entry of the request metadata. *)
Definition bodyEntry (body : JsValue) : list (string * JsValue) :=
  match body with
  | JObj _ | JArr _ =>
      match jsonClone body with
      | inl (Some b) => [("body", b)]
      | inl None => [("body", JUndefined)]
      | inr _ => [("body", JStr "[Unserializable Body]")]
      end
  | JStr EmptyString => []
  | JStr t => [("body", JStr (takeStr 1000 t))]
  | _ => []
  end.

(** The metadata object built in the [finish] handler. *)
Definition requestMetadata (config : LoggerConfig) (req : Request) (res : Response)
    (elapsed : Z) : list (string * JsValue) :=
  [ ("method", JStr (reqMethod req)); ("url", JStr (reqUrl req));
    ("status", JNum (statusCode res));
    ("responseTime", JStr (showZ elapsed +:+ "ms")) ]
  ++ (if default true (includeIp config)
      then [("ip", from_option JStr JUndefined (reqIp req))] else [])
  ++ (if default true (includeUserAgent config)
      then [("userAgent", JStr (default "Unknown" (truthy (reqUserAgent req))))] else [])
  ++ (if includeParams config && negb (bool_decide (reqParams req = []))
      then [("params", JObj (reqParams req))] else [])
  ++ (if includeQueries config && negb (bool_decide (reqQuery req = []))
      then [("queries", JObj (reqQuery req))] else [])
  ++ (if includeResponseHeaders config
      then [("responseHeaders", JObj (responseHeaders res))] else [])
  ++ (if includeSendData config then bodyEntry (reqBody req) else []).

(** The handler [httpLogger(config)] on one request.  [next] stands
    for the application code run by [next()]; the [finish] handler runs
    once that code is done and the response has been sent, in the same
    trace scope.  [L] is the initialised global logger. *)
Definition httpLogger (config : LoggerConfig) (L : CustomLogger) (req : Request)
    (res : Response) (next : M unit) : M unit :=
  traceId ← uuidv4;
  alsRun {[ "traceId" := traceId ]}
    (start ← dateNow;
     next;;
     finish ← dateNow;
     log L info (reqMethod req +:+ " " +:+ reqUrl req)
       {| functionName := "HTTP_REQUEST";
          metadata := Some (requestMetadata config req res (finish - start));
          error_ := None; customColor := None; logColor := None;
          fullLogColor := None |}).

End Logger.

(* --------------------------------------------------------------------- *)
(** ** Properties of the circuit breaker                                  *)
(* --------------------------------------------------------------------- *)

Lemma last_cons_default {A} (ts : list A) : forall t d,
List.last (t :: ts) d = List.last ts t.
Proof.
induction ts as [|u ts IH]; intros t d; [reflexivity|].
change (List.last (t :: u :: ts) d) with (List.last (u :: ts) d).
rewrite (IH u d). symmetry. apply IH.
Qed.

Section BreakerFacts.
Import Breaker.
Variable o : CircuitBreakerOptions.

Lemma isEnabled_closed now b :
  isOpen b = false -> isEnabled o now b = (true, b).
Proof. intros H. unfold isEnabled. now rewrite H. Qed.

Lemma incrementErrorCount_open now b :
  isOpen b = true -> incrementErrorCount o now b = (b, 0%nat).
Proof. intros H. unfold incrementErrorCount. now rewrite H. Qed.

(** From a zero count the first recorded failure always yields a count
    of one, whichever branch is taken. *)
Lemma first_failure_count now b :
  isOpen b = false -> errorCount b = 0 ->
  errorCount (fst (incrementErrorCount o now b)) = 1 /\
  lastResetTime (fst (incrementErrorCount o now b)) = now /\
  isOpen (fst (incrementErrorCount o now b)) = (circuitBreakerCount o <=? 1) /\
  snd (incrementErrorCount o now b) = (if circuitBreakerCount o <=? 1 then 1%nat else 0%nat).
Proof.
  intros Hc H0. unfold incrementErrorCount. rewrite Hc, H0.
  replace (0 + 1) with 1 by reflexivity.
  destruct (circuitBreakerTime o <? now - lastResetTime b);
    destruct (circuitBreakerCount o <=? 1); cbn; auto.
Qed.

(** One recorded failure inside the window. *)
Lemma incrementErrorCount_in_window now b :
  isOpen b = false ->
  now - lastResetTime b <= circuitBreakerTime o ->
  incrementErrorCount o now b =
    ({| errorCount := errorCount b + 1; lastResetTime := now;
        isOpen := (circuitBreakerCount o <=? errorCount b + 1) |},
     if circuitBreakerCount o <=? errorCount b + 1 then 1%nat else 0%nat).
Proof.
  intros Hc Hw. unfold incrementErrorCount. rewrite Hc.
  destruct (Z.ltb_spec (circuitBreakerTime o) (now - lastResetTime b)); [lia|].
  now destruct (circuitBreakerCount o <=? errorCount b + 1).
Qed.

(** One recorded failure after the window has gone stale. *)
Lemma incrementErrorCount_stale now b :
  isOpen b = false ->
  circuitBreakerTime o < now - lastResetTime b ->
  incrementErrorCount o now b =
    ({| errorCount := 1; lastResetTime := now;
        isOpen := (circuitBreakerCount o <=? 1) |},
     if circuitBreakerCount o <=? 1 then 1%nat else 0%nat).
Proof.
  intros Hc Hw. unfold incrementErrorCount. rewrite Hc.
  destruct (Z.ltb_spec (circuitBreakerTime o) (now - lastResetTime b)); [|lia].
  now destruct (circuitBreakerCount o <=? 1).
Qed.

(** Counting inside the window: starting closed with some failures of
    which the last happened at [lastResetTime b], a further run that
    stays within the window and does not exceed the threshold adds one
    per failure and opens exactly when the threshold is met. *)
Lemma recordFailures_counts ts : forall b,
  isOpen b = false ->
  withinWindow (circuitBreakerTime o) (lastResetTime b :: ts) ->
  errorCount b < circuitBreakerCount o ->
  errorCount b + Z.of_nat (length ts) <= circuitBreakerCount o ->
  counted o (errorCount b + Z.of_nat (length ts))
          (List.last ts (lastResetTime b))
          (recordFailures o ts b).
Proof.
  induction ts as [|t ts IH]; intros b Hc Hw Hlt Hle.
  - unfold counted. cbn. rewrite Z.add_0_r, Hc.
    destruct (Z.leb_spec (circuitBreakerCount o) (errorCount b)); [lia|auto].
  - cbn [withinWindow] in Hw. destruct Hw as [Hgap Hw].
    rewrite length_cons, Nat2Z.inj_succ in *.
    cbn [recordFailures].
    rewrite (incrementErrorCount_in_window t b Hc Hgap).
    destruct (Z.leb_spec (circuitBreakerCount o) (errorCount b + 1)) as [Hge|Hlt'].
    + (* threshold met by this failure: the run ends here *)
      assert (ts = []) as ->.
      { destruct ts; [reflexivity|]. rewrite length_cons, Nat2Z.inj_succ in Hle. lia. }
      replace (errorCount b + Z.succ (Z.of_nat (length (@nil Z))))
        with (errorCount b + 1) by (cbn [length]; lia).
      unfold counted. cbn.
      destruct (Z.leb_spec (circuitBreakerCount o) (errorCount b + 1)); [auto|lia].
    + set (b1 := {| errorCount := errorCount b + 1; lastResetTime := t; isOpen := false |}).
      specialize (IH b1 eq_refl Hw).
      cbn [errorCount lastResetTime b1] in IH.
      specialize (IH ltac:(lia) ltac:(lia)).
      destruct (recordFailures o ts b1) as [b2 c2].
      unfold counted in *. cbn [fst snd] in *.
      destruct IH as (E1 & E2 & E3 & E4).
      replace (errorCount b + Z.succ (Z.of_nat (length ts)))
        with (errorCount b + 1 + Z.of_nat (length ts)) by lia.
      repeat split; auto.
      rewrite E2. symmetry. apply last_cons_default.
Qed.

(** The same from a zero count, where the position of the very first
    failure relative to [lastResetTime] does not matter. *)
Lemma recordFailures_from_zero ts b :
  isOpen b = false -> errorCount b = 0 ->
  0 < circuitBreakerCount o ->
  withinWindow (circuitBreakerTime o) ts ->
  Z.of_nat (length ts) <= circuitBreakerCount o ->
  counted o (Z.of_nat (length ts)) (List.last ts (lastResetTime b))
          (recordFailures o ts b).
Proof.
  intros Hc H0 HT Hw Hle.
  destruct ts as [|t ts].
  - unfold counted. cbn. rewrite H0, Hc. change (Z.of_nat 0) with 0.
    destruct (Z.leb_spec (circuitBreakerCount o) 0); [lia|auto].
  - cbn [recordFailures].
    destruct (first_failure_count t b Hc H0) as (F1 & F2 & F3 & F4).
    destruct (incrementErrorCount o t b) as [b1 c1]. cbn [fst snd] in *.
    rewrite length_cons, Nat2Z.inj_succ in *.
    destruct (Z.leb_spec (circuitBreakerCount o) 1) as [Hge|Hlt].
    + assert (ts = []) as ->.
      { destruct ts; [reflexivity|]. rewrite length_cons, Nat2Z.inj_succ in Hle. lia. }
      replace (Z.succ (Z.of_nat (length (@nil Z)))) with 1 by (cbn [length]; lia).
      unfold counted. cbn. subst c1.
      destruct (Z.leb_spec (circuitBreakerCount o) 1); [|lia].
      rewrite Nat.add_0_r. auto.
    + pose proof (recordFailures_counts ts b1 F3) as IH.
      rewrite F2, F1 in IH.
      specialize (IH Hw ltac:(lia) ltac:(lia)).
      destruct (recordFailures o ts b1) as [b2 c2].
      unfold counted in *. cbn [fst snd] in *.
      destruct IH as (E1 & E2 & E3 & E4). subst c1.
      replace (Z.succ (Z.of_nat (length ts))) with (1 + Z.of_nat (length ts)) by lia.
      repeat split; auto.
      rewrite E2. symmetry. apply last_cons_default.
Qed.

End BreakerFacts.

(** A burst inside one span is within the (sliding) window. *)
Lemma inOneSpan_withinWindow w ts :
  Breaker.inOneSpan w ts -> Breaker.withinWindow w ts.
Proof.
  intros [_ Hspan]. induction ts as [|a ts IH]; [exact I|].
  destruct ts as [|b ts]; [exact I|].
  split.
  - apply Hspan; [left | right; left].
  - apply IH. intros x y Hx Hy. apply Hspan; right; assumption.
Qed.

Section BreakerClaims.
Import Breaker.
Variable o : CircuitBreakerOptions.

(** Once open, a breaker ignores every further failure. *)
Lemma recordFailures_open ts b :
  isOpen b = true -> recordFailures o ts b = (b, 0%nat).
Proof.
  intros Ho. induction ts as [|t ts IH]; [reflexivity|].
  cbn [recordFailures]. rewrite (incrementErrorCount_open o t b Ho), IH. reflexivity.
Qed.

(** One call invokes the callback once if it opened the breaker and not
    at all otherwise. *)
Lemma incrementErrorCount_callback now b :
  snd (incrementErrorCount o now b) =
    if negb (isOpen b) && isOpen (fst (incrementErrorCount o now b))
    then 1%nat else 0%nat.
Proof.
  unfold incrementErrorCount. destruct (isOpen b) eqn:Ho; [reflexivity|].
  cbn zeta. destruct (circuitBreakerCount o <=? _); reflexivity.
Qed.

(** A breaker that is open stays open under further failures. *)
Lemma incrementErrorCount_stays_open now b :
  isOpen b = true -> isOpen (fst (incrementErrorCount o now b)) = true.
Proof. intros Ho. now rewrite (incrementErrorCount_open o now b Ho). Qed.

(** Over a whole run of failures the callback is invoked once if the
    run opened the breaker and not at all otherwise. *)
Lemma recordFailures_callback ts : forall b,
  snd (recordFailures o ts b) =
    if negb (isOpen b) && isOpen (fst (recordFailures o ts b))
    then 1%nat else 0%nat.
Proof.
  induction ts as [|t ts IH]; intros b.
  - cbn. now destruct (isOpen b).
  - cbn [recordFailures].
    pose proof (incrementErrorCount_callback t b) as Hc.
    destruct (incrementErrorCount o t b) as [b1 c1] eqn:E1. cbn [fst snd] in Hc.
    specialize (IH b1).
    destruct (isOpen b1) eqn:Ho1.
    + rewrite (recordFailures_open ts b1 Ho1) in *. cbn [fst snd] in *.
      rewrite Ho1, Hc. lia.
    + destruct (recordFailures o ts b1) as [b2 c2]. cbn [fst snd negb andb] in *.
      rewrite Hc, IH.
      destruct (isOpen b) eqn:Ho.
      * rewrite (incrementErrorCount_open o t b Ho) in E1. congruence.
      * cbn. reflexivity.
Qed.

(** C1.  Starting from a closed breaker with a zero count (as created,
    as left by [enable], or as left by a cooldown reset), let failures
    be recorded at the clock readings [ts], none more than the window
    after the one before.  With fewer failures than the threshold,
    [isEnabled] answers true (and changes nothing).  With exactly as many
    as the threshold the breaker is open, having opened at the last
    failure; [isEnabled] answers false (and changes nothing) as long as
    less than the cooldown has passed since then; and once the cooldown
    has passed, a single [isEnabled] call answers true, closes the
    breaker and sets the count to zero. *)
Theorem C1_breaker_trips_and_recovers (b0 : LoggerCircuitBreaker) (ts : list Z) (now : Z) :
  0 < circuitBreakerCount o ->
  isOpen b0 = false -> errorCount b0 = 0 ->
  withinWindow (circuitBreakerTime o) ts ->
  let b := fst (recordFailures o ts b0) in
  (Z.of_nat (length ts) < circuitBreakerCount o ->
     isEnabled o now b = (true, b)) /\
  (Z.of_nat (length ts) = circuitBreakerCount o ->
     isOpen b = true /\
     lastResetTime b = List.last ts (lastResetTime b0) /\
     (now - lastResetTime b < circuitBreakerCooldown o ->
        isEnabled o now b = (false, b)) /\
     (circuitBreakerCooldown o <= now - lastResetTime b ->
        fst (isEnabled o now b) = true /\
        isOpen (snd (isEnabled o now b)) = false /\
        errorCount (snd (isEnabled o now b)) = 0)).
Proof.
  intros HT Hc H0 Hw b. split.
  - intros Hlt.
    destruct (recordFailures_from_zero o ts b0 Hc H0 HT Hw ltac:(lia)) as (_ & _ & E3 & _).
    apply isEnabled_closed. fold b in E3. rewrite E3. lia.
  - intros Heq.
    destruct (recordFailures_from_zero o ts b0 Hc H0 HT Hw ltac:(lia)) as (_ & E2 & E3 & _).
    fold b in E2, E3.
    assert (Hopen : isOpen b = true) by (rewrite E3; lia).
    split; [exact Hopen|]. split; [exact E2|]. split.
    + intros Hcool. unfold isEnabled. rewrite Hopen. cbn [negb].
      destruct (Z.leb_spec (circuitBreakerCooldown o) (now - lastResetTime b)); [lia|reflexivity].
    + intros Hcool. unfold isEnabled. rewrite Hopen. cbn [negb].
      destruct (Z.leb_spec (circuitBreakerCooldown o) (now - lastResetTime b)); [|lia].
      repeat split.
Qed.

(** C4.  [incrementErrorCount] changes nothing and invokes nothing when
    the breaker is open.  On a closed breaker the count becomes exactly 1
    when more than the window has passed since [lastResetTime] and is
    incremented otherwise; [lastResetTime] becomes the current reading in
    both cases; the breaker opens exactly when the new count has reached
    the threshold, [lastResetTime] then being the instant of opening; and
    the callback is invoked once by the call that opens the breaker and by
    no other call, so once per trip over any run of failures. *)
Theorem C4_incrementErrorCount_contract (now : Z) (b : LoggerCircuitBreaker) (ts : list Z) :
  let r := incrementErrorCount o now b in
  (if isOpen b then r = (b, 0%nat)
   else
     errorCount (fst r) =
       (if circuitBreakerTime o <? now - lastResetTime b then 1 else errorCount b + 1) /\
     lastResetTime (fst r) = now /\
     isOpen (fst r) = (circuitBreakerCount o <=? errorCount (fst r))) /\
  snd r = (if negb (isOpen b) && isOpen (fst r) then 1%nat else 0%nat) /\
  snd (recordFailures o ts b) =
    (if negb (isOpen b) && isOpen (fst (recordFailures o ts b)) then 1%nat else 0%nat).
Proof.
  cbn zeta. split; [|split].
  - unfold incrementErrorCount. destruct (isOpen b); [reflexivity|].
    cbn zeta.
    destruct (circuitBreakerCount o <=? _) eqn:E; cbn [fst errorCount lastResetTime isOpen];
      rewrite ?E; auto.
  - apply incrementErrorCount_callback.
  - apply recordFailures_callback.
Qed.

End BreakerClaims.

(** The scenario of the tests: threshold 3, window 1000 ms, cooldown
    2000 ms; three failures within 500 ms, then a check 2100 ms later. *)
Lemma C1_witness :
  let o := {| Breaker.circuitBreakerCount := 3; Breaker.circuitBreakerTime := 1000;
              Breaker.circuitBreakerCooldown := 2000 |} in
  let b := fst (Breaker.recordFailures o [100; 300; 500] (Breaker.create 0)) in
  Breaker.isOpen b = true /\
  Breaker.isEnabled o 600 b = (false, b) /\
  fst (Breaker.isEnabled o 2600 b) = true /\
  Breaker.errorCount (snd (Breaker.isEnabled o 2600 b)) = 0.
Proof.
  intros o b.
  destruct (C1_breaker_trips_and_recovers o (Breaker.create 0) [100; 300; 500] 600)
    as [_ H600]; [reflexivity | reflexivity | reflexivity | cbn; lia |].
  destruct (C1_breaker_trips_and_recovers o (Breaker.create 0) [100; 300; 500] 2600)
    as [_ H2600]; [reflexivity | reflexivity | reflexivity | cbn; lia |].
  destruct (H600 eq_refl) as (Hopen & _ & Hshut & _).
  destruct (H2600 eq_refl) as (_ & _ & _ & Hheal).
  destruct (Hheal ltac:(vm_compute; discriminate)) as (Ht & _ & Hz).
  split; [exact Hopen|]. split; [apply Hshut; reflexivity|].
  split; [exact Ht | exact Hz].
Defined.

(* --------------------------------------------------------------------- *)
(** ** Strings                                                            *)
(* --------------------------------------------------------------------- *)

Section StringFacts.
Import Text.

Lemma app_cons_str (c : ascii) (s t : string) :
  String c s +:+ t = String c (s +:+ t).
Proof. reflexivity. Qed.

Lemma app_nil_l_str (t : string) : EmptyString +:+ t = t.
Proof. reflexivity. Qed.

Lemma app_nil_r_str (s : string) : s +:+ EmptyString = s.
Proof.
  induction s as [|c s IH]; [reflexivity|].
  rewrite app_cons_str. now f_equal.
Qed.

Lemma app_assoc_str (a b c : string) : (a +:+ b) +:+ c = a +:+ (b +:+ c).
Proof.
  induction a as [|x a IH]; [reflexivity|].
  rewrite !app_cons_str. now f_equal.
Qed.

Lemma length_app_str (a b : string) :
  String.length (a +:+ b) = (String.length a + String.length b)%nat.
Proof.
  induction a as [|x a IH]; [reflexivity|].
  rewrite app_cons_str. cbn [String.length]. now rewrite IH.
Qed.

Lemma dropStr_app (a b : string) : dropStr (String.length a) (a +:+ b) = b.
Proof.
  induction a as [|x a IH]; [now destruct b|].
  rewrite app_cons_str. exact IH.
Qed.

Lemma takeStr_app (a b : string) : takeStr (String.length a) (a +:+ b) = a.
Proof.
  induction a as [|x a IH]; [now destruct b|].
  rewrite app_cons_str. cbn [String.length takeStr]. now f_equal.
Qed.

Lemma takeStr_dropStr (n : nat) (s : string) : takeStr n s +:+ dropStr n s = s.
Proof.
  revert s. induction n as [|n IH]; intros [|c s]; try reflexivity.
  cbn [takeStr dropStr]. rewrite app_cons_str. now f_equal.
Qed.

Lemma startsWith_app (p r : string) : startsWith (p +:+ r) p = true.
Proof.
  induction p as [|x p IH]; [now destruct r|].
  rewrite app_cons_str. cbn [startsWith]. now rewrite Ascii.eqb_refl.
Qed.

Lemma startsWith_inv (s p : string) :
  startsWith s p = true -> exists r, s = p +:+ r.
Proof.
  revert s. induction p as [|x p IH]; intros s H.
  - exists s. reflexivity.
  - destruct s as [|c s]; cbn in H; [discriminate|].
    destruct (Ascii.eqb_spec c x) as [->|]; [|discriminate].
    destruct (IH s H) as [r ->]. now exists r.
Qed.

Lemma endsWith_app (x p : string) : endsWith (x +:+ p) p = true.
Proof.
  unfold endsWith. rewrite length_app_str.
  replace (String.length x + String.length p - String.length p)%nat
    with (String.length x) by lia.
  rewrite dropStr_app, String.eqb_refl.
  rewrite andb_true_r. apply Nat.leb_le. lia.
Qed.

Lemma endsWith_inv (s p : string) :
  endsWith s p = true -> exists x, s = x +:+ p.
Proof.
  unfold endsWith. intros H. apply andb_true_iff in H as [_ H].
  apply String.eqb_eq in H.
  remember (String.length s - String.length p)%nat as n eqn:Hn. clear Hn.
  exists (takeStr n s). rewrite <- H. symmetry. apply takeStr_dropStr.
Qed.

Lemma hasChar_app (x : ascii) (a b : string) :
  hasChar x (a +:+ b) = hasChar x a || hasChar x b.
Proof.
  induction a as [|c a IH]; [reflexivity|].
  rewrite app_cons_str. cbn [hasChar]. now rewrite IH, orb_assoc.
Qed.

Lemma includes_here (s p : string) : startsWith s p = true -> includes s p = true.
Proof. intros H. destruct s; cbn [includes]; now rewrite H. Qed.

Lemma includes_app (a p b : string) : includes (a +:+ p +:+ b) p = true.
Proof.
  induction a as [|c a IH].
  - rewrite app_nil_l_str. apply includes_here, startsWith_app.
  - rewrite app_cons_str. cbn [includes]. rewrite IH. apply orb_true_r.
Qed.

End StringFacts.

(* --------------------------------------------------------------------- *)
(** ** The size grammar of [parseSize]                                    *)
(* --------------------------------------------------------------------- *)

Module SizeGrammar.
Import Text Utf16 Rotator.

(** The text of a fraction: nothing, or a dot and the digits. *)
Definition fracText (frac : list N) : list N :=
  match frac with
  | [] => []
  | _ :: _ => 46%N :: frac
  end.

(** The unit letters with the binary exponent of their multiple: b, k,
    m and g in either case, and the Kelvin sign U+212A, whose
    lower-case form is k. *)
Definition unitLetter (c : N) : option Z :=
  if ((c =? 98) || (c =? 66))%N then Some 0
  else if ((c =? 107) || (c =? 75) || (c =? 8490))%N then Some 10
  else if ((c =? 109) || (c =? 77))%N then Some 20
  else if ((c =? 103) || (c =? 71))%N then Some 30
  else None.

(** A unit suffix: nothing, or one unit letter. *)
Inductive unitSuffix : list N -> option Z -> Prop :=
| NoUnit : unitSuffix [] None
| Unit (c : N) (j : Z) :
    unitLetter c = Some j -> unitSuffix [c] (Some j).

(** The strings [parseSize] parses: digits, optionally a dot and more
    digits, optional white space, an optional unit suffix. *)
Definition sizeSpec (s int frac : list N) (u : option Z) : Prop :=
  int <> [] /\ forallb isDecimalDigit int = true /\ forallb isDecimalDigit frac = true /\
  exists ws ut, forallb isSpace ws = true /\ unitSuffix ut u /\
    s = int ++ fracText frac ++ ws ++ ut.

(** The grammar in the words of the specification: an optional decimal
    number followed by an optional unit suffix b, k, m or g in either
    case. *)
Definition decimalNumber (num : list N) : Prop :=
  exists int frac, int <> [] /\ forallb isDecimalDigit int = true /\
    forallb isDecimalDigit frac = true /\ num = int ++ fracText frac.

Definition specUnitLetter (c : N) : bool :=
  ((c =? 98) || (c =? 66) || (c =? 107) || (c =? 75)
   || (c =? 109) || (c =? 77) || (c =? 103) || (c =? 71))%N.

Inductive specUnitSuffix : list N -> Prop :=
| SpecNoUnit : specUnitSuffix []
| SpecUnit (c : N) : specUnitLetter c = true -> specUnitSuffix [c].

Definition specSizeSpec (s : list N) : Prop :=
  exists num ut, (num = [] \/ decimalNumber num) /\ specUnitSuffix ut /\
    s = num ++ ut.

(** The characters of that grammar. *)
Definition specChar (c : N) : bool :=
  isDecimalDigit c || isDot c || specUnitLetter c.

(** The number written [int.frac], times ten to the number of fraction
    digits. *)
Definition scaledValue (int frac : list N) : Z :=
  digitsValue (digitsValue 0 int) frac.

(** The floor of the number times [2^j], computed exactly. *)
Definition exactFloor (int frac : list N) (j : Z) : Z :=
  (scaledValue int frac * 2 ^ j) / 10 ^ Z.of_nat (length frac).

(** The floor of the number times [2^j], computed as the code does: on
    the double nearest to the number. *)
Definition doubleFloor (int frac : list N) (j : Z) : option Z :=
  Double.floor
    (Double.scale
       (Double.nearest (scaledValue int frac) (10 ^ Z.of_nat (length frac))) j).

End SizeGrammar.

Section SizeFacts.
Import Text Utf16 Rotator SizeGrammar.

(** Case analysis on the comparisons of a code unit with constants. *)
Ltac unit_cases :=
  repeat match goal with
  | |- context [(?a <=? ?b)%N] => destruct (N.leb_spec a b); try (exfalso; lia)
  | |- context [(?a =? ?b)%N] => destruct (N.eqb_spec a b); try (exfalso; lia)
  | H : context [(?a <=? ?b)%N] |- _ => destruct (N.leb_spec a b); try (exfalso; lia)
  | H : context [(?a =? ?b)%N] |- _ => destruct (N.eqb_spec a b); try (exfalso; lia)
  end.

Lemma lowerUnit_nonempty (c : N) : lowerUnit c <> [].
Proof. unfold lowerUnit. repeat case_match; discriminate. Qed.

Lemma digit_unit_facts (c : N) :
  isDecimalDigit c = true ->
  lowerUnit c = [c] /\ isSpace c = false /\ isDot c = false /\ unitExponent c = None.
Proof.
  unfold isDecimalDigit, lowerUnit, isSpace, isDot, unitExponent. intros H.
  unit_cases; cbn in *; try discriminate; auto.
Qed.

Lemma space_unit_facts (c : N) :
  isSpace c = true ->
  lowerUnit c = [c] /\ isDecimalDigit c = false /\ isDot c = false /\
  unitExponent c = None.
Proof.
  unfold isDecimalDigit, lowerUnit, isSpace, isDot, unitExponent. intros H.
  unit_cases; cbn in *; try discriminate; auto.
Qed.

Lemma unit_char_facts (c : N) (j : Z) :
  unitExponent c = Some j ->
  isDecimalDigit c = false /\ isSpace c = false /\ isDot c = false.
Proof.
  unfold isDecimalDigit, isSpace, isDot, unitExponent. intros H.
  unit_cases; cbn in *; try discriminate; auto.
Qed.

(** The classes of code units that [toLowerCase] neither changes nor
    produces from anything else. *)
Definition fixedClass (P : N -> bool) : Prop :=
  forall c x, x ∈ lowerUnit c -> P x = true -> lowerUnit c = [x] /\ c = x.

Lemma digits_fixed : fixedClass isDecimalDigit.
Proof.
  intros c x Hx HP. unfold isDecimalDigit in HP. unfold lowerUnit in *.
  repeat case_match;
    repeat (apply elem_of_cons in Hx as [->|Hx]); try (now apply elem_of_nil in Hx);
    unit_cases; cbn in *; try discriminate; auto.
Qed.

Lemma spaces_fixed : fixedClass isSpace.
Proof.
  intros c x Hx HP. unfold isSpace in HP. unfold lowerUnit in *.
  repeat case_match;
    repeat (apply elem_of_cons in Hx as [->|Hx]); try (now apply elem_of_nil in Hx);
    unit_cases; cbn in *; try discriminate; auto.
Qed.

Lemma number_fixed : fixedClass (fun c => isDecimalDigit c || isDot c).
Proof.
  intros c x Hx HP. unfold isDecimalDigit, isDot in HP. unfold lowerUnit in *.
  repeat case_match;
    repeat (apply elem_of_cons in Hx as [->|Hx]); try (now apply elem_of_nil in Hx);
    unit_cases; cbn in *; try discriminate; auto.
Qed.

(** The unit letters are the code units that [toLowerCase] turns into
    a key of the table [units]. *)
Lemma unitLetter_lower (c : N) (j : Z) :
  unitLetter c = Some j <->
  exists x, lowerUnit c = [x] /\ unitExponent x = Some j.
Proof.
  unfold unitLetter, lowerUnit, unitExponent. split.
  - intros H. unit_cases; cbn in *; try discriminate; eexists; (split; [reflexivity|]);
      unit_cases; cbn in *; try discriminate; auto.
  - intros (x & E & H). unit_cases; cbn in *; try discriminate;
      injection E as E; first [exfalso; lia | assumption].
Qed.

Lemma toLowerCase_app (a b : list N) :
  toLowerCase (a ++ b) = toLowerCase a ++ toLowerCase b.
Proof. apply flat_map_app. Qed.

Lemma toLowerCase_fixed (P : N -> bool) (s : list N) :
  (forall c, P c = true -> lowerUnit c = [c]) ->
  forallb P s = true -> toLowerCase s = s.
Proof.
  intros HP. induction s as [|c s IH]; [reflexivity|].
  cbn [forallb]. intros H. apply andb_true_iff in H as [Hc Hs].
  unfold toLowerCase. cbn [flat_map]. rewrite (HP c Hc). cbn [app]. f_equal.
  now apply IH.
Qed.

Lemma toLowerCase_digits (s : list N) :
  forallb isDecimalDigit s = true -> toLowerCase s = s.
Proof. apply toLowerCase_fixed. intros c Hc. now apply digit_unit_facts in Hc. Qed.

Lemma toLowerCase_spaces (s : list N) :
  forallb isSpace s = true -> toLowerCase s = s.
Proof. apply toLowerCase_fixed. intros c Hc. now apply space_unit_facts in Hc. Qed.

(** Whether a string begins with a code unit satisfying [P]. *)
Definition headIs (P : N -> bool) (s : list N) : bool :=
  match s with
  | [] => false
  | c :: _ => P c
  end.

Lemma takeDigits_app (d r : list N) :
  forallb isDecimalDigit d = true -> headIs isDecimalDigit r = false ->
  takeDigits (d ++ r) = (d, r).
Proof.
  intros Hd Hr. induction d as [|c d IH].
  - cbn [app]. destruct r as [|c r]; [reflexivity|].
    cbn in Hr. cbn [takeDigits]. now rewrite Hr.
  - cbn [forallb] in Hd. apply andb_true_iff in Hd as [Hc Hd].
    cbn [app takeDigits]. now rewrite Hc, (IH Hd).
Qed.

Lemma takeDigits_spec (s : list N) :
  s = fst (takeDigits s) ++ snd (takeDigits s) /\
  forallb isDecimalDigit (fst (takeDigits s)) = true /\
  headIs isDecimalDigit (snd (takeDigits s)) = false.
Proof.
  induction s as [|c s IH]; [now cbn|].
  cbn [takeDigits]. destruct (isDecimalDigit c) eqn:Hc.
  - destruct (takeDigits s) as [d r]. cbn [fst snd] in *.
    destruct IH as (E & Hd & Hr). cbn [app forallb]. rewrite <- E.
    now rewrite Hc, Hd.
  - cbn [fst snd app]. cbn. now rewrite Hc.
Qed.

Lemma dropSpaces_app (ws r : list N) :
  forallb isSpace ws = true -> headIs isSpace r = false ->
  dropSpaces (ws ++ r) = r.
Proof.
  intros Hw Hr. induction ws as [|c ws IH].
  - cbn [app]. destruct r as [|c r]; [reflexivity|].
    cbn in Hr. cbn [dropSpaces]. now rewrite Hr.
  - cbn [forallb] in Hw. apply andb_true_iff in Hw as [Hc Hw].
    cbn [app dropSpaces]. now rewrite Hc, (IH Hw).
Qed.

Lemma dropSpaces_spec (s : list N) :
  exists ws, forallb isSpace ws = true /\ s = ws ++ dropSpaces s /\
    headIs isSpace (dropSpaces s) = false.
Proof.
  induction s as [|c s IH]; [now exists []|].
  cbn [dropSpaces]. destruct (isSpace c) eqn:Hc.
  - destruct IH as (ws & Hw & E & Hh). exists (c :: ws).
    cbn [forallb app]. rewrite Hc, Hw, <- E. auto.
  - exists []. cbn. now rewrite Hc.
Qed.

(** The grammar on text that is already in lower case. *)
Inductive lowUnit : list N -> option Z -> Prop :=
| LowNoUnit : lowUnit [] None
| LowUnit (c : N) (j : Z) :
    unitExponent c = Some j -> lowUnit [c] (Some j).

Definition lowSizeSpec (t int frac : list N) (u : option Z) : Prop :=
  int <> [] /\ forallb isDecimalDigit int = true /\ forallb isDecimalDigit frac = true /\
  exists ws ut, forallb isSpace ws = true /\ lowUnit ut u /\
    t = int ++ fracText frac ++ ws ++ ut.

Lemma lowUnit_head (ut : list N) (u : option Z) :
  lowUnit ut u ->
  headIs isDecimalDigit ut = false /\ headIs isSpace ut = false /\
  headIs isDot ut = false.
Proof.
  intros [|c j Hc]; [now cbn|]. cbn. now apply unit_char_facts in Hc.
Qed.

Lemma tail_head (ws ut : list N) (u : option Z) :
  forallb isSpace ws = true -> lowUnit ut u ->
  headIs isDecimalDigit (ws ++ ut) = false /\
  headIs isDot (ws ++ ut) = false.
Proof.
  intros Hw Hu. destruct ws as [|c ws].
  - cbn [app]. now apply lowUnit_head in Hu.
  - cbn [forallb] in Hw. apply andb_true_iff in Hw as [Hc _].
    cbn. now apply space_unit_facts in Hc.
Qed.

Lemma matchSize_complete (t int frac : list N) (u : option Z) :
  lowSizeSpec t int frac u -> matchSize t = Some (int, frac, u).
Proof.
  intros (Hne & Hi & Hf & ws & ut & Hw & Hu & ->).
  destruct (tail_head ws ut u Hw Hu) as [Hd Hdot].
  destruct (lowUnit_head ut u Hu) as (_ & Hsp & _).
  unfold matchSize.
  assert (Hr1 : headIs isDecimalDigit (fracText frac ++ ws ++ ut) = false).
  { destruct frac; [exact Hd | reflexivity]. }
  rewrite (takeDigits_app int _ Hi Hr1).
  destruct int as [|i0 int]; [congruence|].
  destruct frac as [|f0 frac].
  - cbn [fracText app].
    assert (Hsel :
      match ws ++ ut with
      | c :: r =>
          if isDot c
          then match takeDigits r with
               | ([], _) => ([], ws ++ ut)
               | (f, r') => (f, r')
               end
          else ([], ws ++ ut)
      | [] => ([], ws ++ ut)
      end = ([], ws ++ ut)).
    { destruct (ws ++ ut) as [|c r]; [reflexivity|]. cbn in Hdot. now rewrite Hdot. }
    rewrite Hsel, (dropSpaces_app ws ut Hw Hsp).
    destruct Hu as [|c j Hc]; [reflexivity | now rewrite Hc].
  - cbn [fracText app].
    change (isDot 46) with true. cbn match.
    change (f0 :: frac ++ ws ++ ut) with ((f0 :: frac) ++ ws ++ ut).
    rewrite (takeDigits_app (f0 :: frac) _ Hf Hd).
    rewrite (dropSpaces_app ws ut Hw Hsp).
    destruct Hu as [|c j Hc]; [reflexivity | now rewrite Hc].
Qed.

Lemma matchSize_sound (t int frac : list N) (u : option Z) :
  matchSize t = Some (int, frac, u) -> lowSizeSpec t int frac u.
Proof.
  unfold matchSize.
  destruct (takeDigits_spec t) as (Et & Hi & Hh).
  destruct (takeDigits t) as [i r1]. cbn [fst snd] in *.
  destruct i as [|i0 i]; [discriminate|].
  set (sel := match r1 with
              | c :: r =>
                  if isDot c
                  then match takeDigits r with
                       | ([], _) => ([], r1)
                       | (f, r') => (f, r')
                       end
                  else ([], r1)
              | [] => ([], r1)
              end).
  assert (Hsel : forallb isDecimalDigit (fst sel) = true /\ r1 = fracText (fst sel) ++ snd sel).
  { subst sel. destruct r1 as [|c r]; [now cbn|].
    unfold isDot. destruct (N.eqb_spec c 46) as [->|]; [|now cbn].
    destruct (takeDigits_spec r) as (Er & Hf & _).
    destruct (takeDigits r) as [f r']. cbn [fst snd] in *.
    destruct f as [|f0 f]; [now cbn|].
    cbn [fst snd fracText]. split; [exact Hf|].
    cbn [app]. now f_equal. }
  destruct sel as [f r2]. cbn [fst snd] in Hsel. destruct Hsel as [Hf Er1].
  destruct (dropSpaces_spec r2) as (ws & Hw & Er2 & _).
  intros H.
  assert (Hu : exists ut, dropSpaces r2 = ut /\ lowUnit ut u /\ i0 :: i = int /\ f = frac).
  { destruct (dropSpaces r2) as [|c [|c' r3]]; try discriminate.
    - injection H as <- <- <-. exists []. auto using LowNoUnit.
    - destruct (unitExponent c) as [j|] eqn:Hc; [|discriminate].
      injection H as <- <- <-. exists [c]. auto using LowUnit. }
  destruct Hu as (ut & Eut & Hu & <- & <-).
  split; [discriminate|]. split; [exact Hi|]. split; [exact Hf|].
  exists ws, ut. split; [exact Hw|]. split; [exact Hu|].
  rewrite Et at 1. f_equal. rewrite Er1. f_equal. rewrite Er2 at 1. now rewrite Eut.
Qed.

(** Pulling a prefix of fixed code units back through [toLowerCase]. *)
Lemma toLowerCase_prefix (P : N -> bool) (s d r : list N) :
  fixedClass P ->
  toLowerCase s = d ++ r -> forallb P d = true ->
  exists s', s = d ++ s' /\ toLowerCase s' = r.
Proof.
  intros HP. revert s. induction d as [|x d IH]; intros s H Hd.
  - exists s. auto.
  - cbn [forallb] in Hd. apply andb_true_iff in Hd as [Hx Hd].
    destruct s as [|c s]; [discriminate|].
    unfold toLowerCase in H. cbn [flat_map] in H.
    assert (Hin : x ∈ lowerUnit c).
    { destruct (lowerUnit c) as [|y l] eqn:E; [now apply lowerUnit_nonempty in E|].
      cbn [app] in H. injection H as -> _. left. }
    destruct (HP c x Hin Hx) as [E ->]. rewrite E in H. cbn [app] in H.
    injection H as H.
    destruct (IH s H Hd) as (s' & -> & Hs'). now exists s'.
Qed.

Lemma forallb_weaken (P Q : N -> bool) (s : list N) :
  (forall c, P c = true -> Q c = true) -> forallb P s = true -> forallb Q s = true.
Proof.
  intros HPQ. induction s as [|c s IH]; [reflexivity|].
  cbn [forallb]. intros H. apply andb_true_iff in H as [Hc Hs].
  now rewrite (HPQ c Hc), IH.
Qed.

Lemma fracText_number (frac : list N) :
  forallb isDecimalDigit frac = true ->
  forallb (fun c => isDecimalDigit c || isDot c) (fracText frac) = true.
Proof.
  intros Hf. destruct frac as [|f0 frac]; [reflexivity|].
  apply (forallb_weaken _ (fun c => isDecimalDigit c || isDot c)) in Hf;
    [|intros c Hc; now rewrite Hc].
  unfold fracText. cbn [forallb] in *. rewrite Hf. reflexivity.
Qed.

Lemma toLowerCase_fracText (frac : list N) :
  forallb isDecimalDigit frac = true -> toLowerCase (fracText frac) = fracText frac.
Proof.
  intros Hf. apply (toLowerCase_fixed (fun c => isDecimalDigit c || isDot c));
    [|now apply fracText_number].
  intros c Hc. unfold isDecimalDigit, isDot in Hc. unfold lowerUnit.
  unit_cases; cbn in *; try discriminate; auto.
Qed.

Lemma toLowerCase_nil (s : list N) : toLowerCase s = [] -> s = [].
Proof.
  destruct s as [|c s]; [reflexivity|]. unfold toLowerCase. cbn [flat_map].
  intros H. apply app_eq_nil in H as [H _]. now apply lowerUnit_nonempty in H.
Qed.

Lemma toLowerCase_single (s : list N) (x : N) :
  toLowerCase s = [x] -> exists c, s = [c] /\ lowerUnit c = [x].
Proof.
  destruct s as [|c s]; [discriminate|]. unfold toLowerCase. cbn [flat_map].
  intros H. destruct (lowerUnit c) as [|y l] eqn:E; [now apply lowerUnit_nonempty in E|].
  cbn [app] in H. injection H as -> H. apply app_eq_nil in H as [-> H].
  apply toLowerCase_nil in H as ->. now exists c.
Qed.

(** The grammar is that of the matcher on the lower-cased text. *)
Lemma sizeSpec_lower (s int frac : list N) (u : option Z) :
  sizeSpec s int frac u <-> lowSizeSpec (toLowerCase s) int frac u.
Proof.
  split.
  - intros (Hne & Hi & Hf & ws & ut & Hw & Hu & ->).
    split; [exact Hne|]. split; [exact Hi|]. split; [exact Hf|].
    exists ws, (toLowerCase ut). split; [exact Hw|]. split.
    + destruct Hu as [|c j Hc]; [constructor|].
      apply unitLetter_lower in Hc as (x & E & Hx).
      unfold toLowerCase. cbn [flat_map]. rewrite E. now constructor.
    + rewrite !toLowerCase_app, (toLowerCase_digits int Hi),
        (toLowerCase_fracText frac Hf), (toLowerCase_spaces ws Hw). reflexivity.
  - intros (Hne & Hi & Hf & ws & ut & Hw & Hu & E).
    split; [exact Hne|]. split; [exact Hi|]. split; [exact Hf|].
    apply (toLowerCase_prefix _ _ _ _ digits_fixed) in E as (r1 & -> & E); [|exact Hi].
    apply (toLowerCase_prefix _ _ _ _ number_fixed) in E as (r2 & -> & E);
      [|now apply fracText_number].
    apply (toLowerCase_prefix _ _ _ _ spaces_fixed) in E as (ut' & -> & Eut); [|exact Hw].
    exists ws, ut'. split; [exact Hw|]. split; [|reflexivity].
    destruct Hu as [|x j Hx].
    + apply toLowerCase_nil in Eut as ->. constructor.
    + apply toLowerCase_single in Eut as (c & -> & E). constructor.
      apply unitLetter_lower. now exists x.
Qed.

End SizeFacts.

Section SizeClaims.
Import Text Utf16 Rotator SizeGrammar.

Lemma digitsValue_nonneg (s : list N) : forall acc,
  0 <= acc -> forallb isDecimalDigit s = true -> 0 <= digitsValue acc s.
Proof.
  induction s as [|c s IH]; intros acc Ha Hs; [exact Ha|].
  cbn [forallb] in Hs. apply andb_true_iff in Hs as [Hc Hs].
  cbn [digitsValue]. apply IH; [|exact Hs].
  unfold isDecimalDigit in Hc. apply andb_true_iff in Hc as [Hlo _].
  apply N.leb_le in Hlo. lia.
Qed.

(** A double holds every integer below [2^53] exactly, and multiplying
    it by a power of two is exact as well. *)
Lemma nearest_integer_exact (p j : Z) :
  0 <= p < 2 ^ 53 -> 0 <= j <= 30 ->
  Double.floor (Double.scale (Double.nearest p 1) j) = Some (p * 2 ^ j).
Proof.
  intros Hp Hj. unfold Double.nearest.
  destruct (Z.eqb_spec p 0) as [->|Hnz].
  - unfold Double.scale. rewrite Z.mul_0_l.
    destruct (Z.leb_spec (2 ^ 1024) 0) as [Hbad|_].
    { pose proof (Z.pow_pos_nonneg 2 1024). lia. }
    unfold Double.floor. rewrite Z.add_0_l.
    destruct (Z.leb_spec 0 j); [|lia]. now rewrite Z.mul_0_l.
  - assert (Hpos : 0 < p) by lia.
    pose proof (Z.log2_spec p Hpos) as [Hlo Hhi].
    assert (Hg : 0 <= Z.log2 p <= 52).
    { split; [apply Z.log2_nonneg|].
      assert (Z.log2 p < 53) by (apply Z.log2_lt_pow2; lia). lia. }
    unfold Double.floorLog2. change (Z.log2 1) with 0. rewrite Z.sub_0_r.
    destruct (Z.leb_spec 0 (Z.log2 p)); [|lia].
    rewrite Z.mul_1_l. destruct (Z.leb_spec (2 ^ Z.log2 p) p); [|lia].
    set (k := 52 - Z.log2 p).
    assert (Hk : 0 <= k <= 52) by (unfold k; lia).
    replace (Z.max (Z.log2 p - 52) (-1074)) with (- k) by (unfold k; lia).
    assert (Hnum : (if 0 <=? - k then p else p * 2 ^ (- - k)) = p * 2 ^ k).
    { destruct (Z.leb_spec 0 (- k)).
      - assert (k = 0) as -> by lia. now rewrite Z.mul_1_r.
      - now rewrite Z.opp_involutive. }
    assert (Hden : (if 0 <=? - k then 1 * 2 ^ (- k) else 1) = 1).
    { destruct (Z.leb_spec 0 (- k)); [|reflexivity].
      assert (k = 0) as -> by lia. reflexivity. }
    rewrite Hnum, Hden, Z.div_1_r, Z.mod_1_r.
    change (1 <? 2 * 0) with false. change (1 =? 2 * 0) with false.
    cbn [orb andb].
    assert (Hm : 0 < p * 2 ^ k < 2 ^ 53).
    { split; [apply Z.mul_pos_pos; [lia | apply Z.pow_pos_nonneg; lia]|].
      replace 53 with (Z.log2 p + 1 + k) by (unfold k; lia).
      rewrite Z.pow_add_r by lia.
      apply Z.mul_lt_mono_pos_r; [apply Z.pow_pos_nonneg; lia | exact Hhi]. }
    assert (Hmax : Z.max (- k) 0 = 0) by lia. rewrite Hmax, Z.mul_1_r.
    assert (Hbig : 2 ^ 53 * 2 ^ 30 < 2 ^ 1024) by (vm_compute; reflexivity).
    destruct (Z.leb_spec (2 ^ 1024) (p * 2 ^ k)) as [Hbad|_]; [lia|].
    unfold Double.scale.
    assert (Hsc : p * 2 ^ k * 2 ^ Z.max (- k + j) 0 < 2 ^ 1024).
    { assert (2 ^ Z.max (- k + j) 0 <= 2 ^ 30) by (apply Z.pow_le_mono_r; lia).
      assert (0 < 2 ^ Z.max (- k + j) 0) by (apply Z.pow_pos_nonneg; lia).
      nia. }
    destruct (Z.leb_spec (2 ^ 1024) (p * 2 ^ k * 2 ^ Z.max (- k + j) 0)) as [Hbad|_]; [lia|].
    unfold Double.floor. f_equal.
    destruct (Z.leb_spec 0 (- k + j)).
    + rewrite <- Z.mul_assoc, <- Z.pow_add_r by lia. f_equal. f_equal. lia.
    + replace k with (j + (- (- k + j))) at 1 by lia.
      rewrite Z.pow_add_r by lia. rewrite Z.mul_assoc.
      apply Z.div_mul. apply Z.pow_nonzero; lia.
Qed.

(** [floorLog2 p q] is the binary exponent of [p/q]:
    [2^L <= p/q < 2^(L+1)]. *)
Lemma floorLog2_spec (p q : Z) :
  0 < p -> 0 < q ->
  let L := Double.floorLog2 p q in
  (0 <= L -> q * 2 ^ L <= p < q * 2 ^ (L + 1)) /\
  (L < 0 -> q <= p * 2 ^ (- L) < 2 * q).
Proof.
  intros Hp Hq. unfold Double.floorLog2.
  pose proof (Z.log2_spec p Hp) as [Hp1 Hp2].
  pose proof (Z.log2_spec q Hq) as [Hq1 Hq2].
  pose proof (Z.log2_nonneg p) as Hlp. pose proof (Z.log2_nonneg q) as Hlq.
  set (lp := Z.log2 p) in *. set (lq := Z.log2 q) in *.
  rewrite Z.pow_succ_r in Hp2, Hq2 by lia.
  destruct (Z.leb_spec 0 (lp - lq)) as [Hg|Hg].
  - assert (EA : 2 ^ lp = 2 ^ lq * 2 ^ (lp - lq)).
    { rewrite <- Z.pow_add_r by lia. f_equal. lia. }
    assert (HG : 0 < 2 ^ (lp - lq)) by (apply Z.pow_pos_nonneg; lia).
    assert (HB : 0 < 2 ^ lq) by (apply Z.pow_pos_nonneg; lia).
    destruct (Z.leb_spec (q * 2 ^ (lp - lq)) p) as [Hc|Hc]; cbn zeta.
    + split; [|lia]. intros _. split; [exact Hc|].
      rewrite Z.pow_add_r by lia. change (2 ^ 1) with 2. nia.
    + destruct (Z.eq_dec lp lq) as [E|E].
      * replace (lp - lq - 1) with (-1) by lia. split; [lia|]. intros _.
        change (2 ^ (- -1)) with 2. replace (lp - lq) with 0 in * by lia.
        change (2 ^ 0) with 1 in *. nia.
      * split; [|lia]. intros _.
        replace (lp - lq - 1 + 1) with (lp - lq) by lia.
        split; [|lia].
        assert (EG : 2 ^ (lp - lq) = 2 * 2 ^ (lp - lq - 1)).
        { rewrite <- Z.pow_succ_r by lia. f_equal. lia. }
        assert (0 < 2 ^ (lp - lq - 1)) by (apply Z.pow_pos_nonneg; lia).
        nia.
  - assert (EB : 2 ^ lq = 2 ^ lp * 2 ^ (- (lp - lq))).
    { rewrite <- Z.pow_add_r by lia. f_equal. lia. }
    assert (HG : 0 < 2 ^ (- (lp - lq))) by (apply Z.pow_pos_nonneg; lia).
    assert (HA : 0 < 2 ^ lp) by (apply Z.pow_pos_nonneg; lia).
    destruct (Z.leb_spec q (p * 2 ^ (- (lp - lq)))) as [Hc|Hc]; cbn zeta.
    + split; [lia|]. intros _. split; [exact Hc|]. nia.
    + split; [lia|]. intros _.
      replace (- (lp - lq - 1)) with (Z.succ (- (lp - lq))) by lia.
      rewrite Z.pow_succ_r by lia. nia.
Qed.

(** A number that is itself a double, [a / 2^N] with [a] below [2^53],
    is read without rounding, and multiplying it by a power of two is
    exact as well. *)
Lemma nearest_dyadic_exact (p q a N j : Z) :
  0 <= p -> 0 < q -> 0 <= a < 2 ^ 53 -> 0 <= N <= 1074 -> p * 2 ^ N = a * q ->
  0 <= j <= 30 ->
  Double.floor (Double.scale (Double.nearest p q) j) = Some (p * 2 ^ j / q).
Proof.
  intros Hp Hq Ha HN Hx Hj.
  assert (Hbig : 2 ^ 53 * 2 ^ 30 < 2 ^ 1024) by (vm_compute; reflexivity).
  unfold Double.nearest. destruct (Z.eqb_spec p 0) as [->|Hnz].
  - unfold Double.scale. rewrite !Z.mul_0_l.
    destruct (Z.leb_spec (2 ^ 1024) 0) as [Hbad|_]; [lia|].
    unfold Double.floor. rewrite Z.add_0_l.
    destruct (Z.leb_spec 0 j); [|lia]. now rewrite Z.mul_0_l, Z.div_0_l by lia.
  - assert (Hpos : 0 < p) by lia.
    assert (H2N : 0 < 2 ^ N) by (apply Z.pow_pos_nonneg; lia).
    assert (Hapos : 0 < a) by nia.
    pose proof (floorLog2_spec p q Hpos Hq) as HL. cbn zeta in HL.
    set (L := Double.floorLog2 p q) in *. destruct HL as [HL1 HL2].
    assert (HLN : L <= 52 - N).
    { destruct (Z.le_gt_cases L (52 - N)) as [|Hgt]; [assumption|exfalso].
      destruct (Z.le_gt_cases 0 L) as [H0|H0].
      - destruct (HL1 H0) as [Hlo _].
        assert (E : 2 ^ (L + N) = 2 ^ L * 2 ^ N) by (apply Z.pow_add_r; lia).
        assert (2 ^ 53 <= 2 ^ (L + N)) by (apply Z.pow_le_mono_r; lia).
        assert (0 < 2 ^ L) by (apply Z.pow_pos_nonneg; lia). nia.
      - destruct (HL2 H0) as [Hlo _].
        assert (E : 2 ^ N = 2 ^ (- L) * 2 ^ (N + L)).
        { rewrite <- Z.pow_add_r by lia. f_equal. lia. }
        assert (2 ^ 53 <= 2 ^ (N + L)) by (apply Z.pow_le_mono_r; lia).
        assert (0 < 2 ^ (- L)) by (apply Z.pow_pos_nonneg; lia). nia. }
    assert (HLlo : - N <= L).
    { destruct (Z.le_gt_cases (- N) L) as [|Hlt]; [assumption|exfalso].
      destruct (HL2 ltac:(lia)) as [_ Hhi].
      assert (E : 2 ^ (- L) = 2 ^ N * 2 ^ (- L - N)).
      { rewrite <- Z.pow_add_r by lia. f_equal. lia. }
      assert (2 ^ 1 <= 2 ^ (- L - N)) by (apply Z.pow_le_mono_r; lia).
      change (2 ^ 1) with 2 in *. nia. }
    cbv zeta. set (e := Z.max (L - 52) (-1074)).
    assert (He : e <= - N) by (unfold e; lia).
    set (k := - e). assert (Hk : N <= k <= 1074) by (unfold k, e; lia).
    assert (H2k : 0 < 2 ^ k) by (apply Z.pow_pos_nonneg; lia).
    assert (Hnum : (if 0 <=? e then p else p * 2 ^ k) = p * 2 ^ k).
    { destruct (Z.leb_spec 0 e); [|reflexivity].
      assert (k = 0) as -> by (unfold k; lia). now rewrite Z.mul_1_r. }
    assert (Hden : (if 0 <=? e then q * 2 ^ e else q) = q).
    { destruct (Z.leb_spec 0 e); [|reflexivity].
      assert (e = 0) as -> by lia. now rewrite Z.mul_1_r. }
    rewrite Hnum, Hden.
    set (m := a * 2 ^ (k - N)).
    assert (Hm : p * 2 ^ k = m * q).
    { unfold m. replace k with (N + (k - N)) at 1 by lia.
      rewrite Z.pow_add_r by lia. nia. }
    rewrite Hm, Z.div_mul, Z.mod_mul by lia.
    replace (q <? 2 * 0) with false by (symmetry; apply Z.ltb_ge; lia).
    replace (q =? 2 * 0) with false by (symmetry; apply Z.eqb_neq; lia).
    cbn [orb andb].
    assert (Hmpos : 0 < m) by (unfold m; apply Z.mul_pos_pos;
                                 [lia | apply Z.pow_pos_nonneg; lia]).
    assert (Hm53 : m < 2 ^ 53).
    { apply (Z.mul_lt_mono_pos_r q); [lia|]. rewrite <- Hm.
      destruct (Z.le_gt_cases 0 L) as [H0|H0].
      - destruct (HL1 H0) as [_ Hhi].
        assert (k = 52 - L) as -> by (unfold k, e; lia).
        assert (E : 2 ^ 53 = 2 ^ (L + 1) * 2 ^ (52 - L)).
        { rewrite <- Z.pow_add_r by lia. f_equal. lia. }
        assert (HY : 0 < 2 ^ (52 - L)) by (apply Z.pow_pos_nonneg; lia).
        rewrite E. pose proof (Zmult_lt_compat_r _ _ _ HY Hhi) as Hlt.
        rewrite <- Z.mul_assoc in Hlt. rewrite (Z.mul_comm _ q). exact Hlt.
      - destruct (HL2 H0) as [_ Hhi].
        assert (E : 2 ^ k = 2 ^ (- L) * 2 ^ (k + L)).
        { rewrite <- Z.pow_add_r by (unfold k, e; lia). f_equal. lia. }
        assert (2 ^ (k + L) <= 2 ^ 52) by (apply Z.pow_le_mono_r; unfold k, e; lia).
        assert (0 < 2 ^ (k + L)) by (apply Z.pow_pos_nonneg; unfold k, e; lia).
        assert (E53 : 2 ^ 53 = 2 * 2 ^ 52) by reflexivity.
        assert (0 < 2 ^ (- L)) by (apply Z.pow_pos_nonneg; lia).
        rewrite E, Z.mul_assoc.
        apply Z.lt_le_trans with (2 * q * 2 ^ (k + L)).
        + apply Z.mul_lt_mono_pos_r; assumption.
        + rewrite E53. nia. }
    assert (Hmax : Z.max e 0 = 0) by lia. rewrite Hmax, Z.mul_1_r.
    destruct (Z.leb_spec (2 ^ 1024) m) as [Hbad|_]; [lia|].
    unfold Double.scale.
    assert (Hsc : m * 2 ^ Z.max (e + j) 0 < 2 ^ 1024).
    { assert (2 ^ Z.max (e + j) 0 <= 2 ^ 30) by (apply Z.pow_le_mono_r; lia).
      assert (0 < 2 ^ Z.max (e + j) 0) by (apply Z.pow_pos_nonneg; lia).
      nia. }
    destruct (Z.leb_spec (2 ^ 1024) (m * 2 ^ Z.max (e + j) 0)) as [Hbad|_]; [lia|].
    unfold Double.floor. f_equal.
    destruct (Z.leb_spec 0 (e + j)).
    + assert (Ej : 2 ^ j = 2 ^ k * 2 ^ (e + j)).
      { rewrite <- Z.pow_add_r by lia. f_equal. unfold k. lia. }
      rewrite Ej, Z.mul_assoc, Hm.
      replace (m * q * 2 ^ (e + j)) with (m * 2 ^ (e + j) * q) by ring.
      symmetry. apply Z.div_mul. lia.
    + replace (- (e + j)) with (k - j) by (unfold k; lia).
      assert (0 < 2 ^ (k - j)) by (apply Z.pow_pos_nonneg; lia).
      assert (Em : m = p * 2 ^ k / q) by (rewrite Hm; symmetry; apply Z.div_mul; lia).
      rewrite Em. rewrite Z.div_div by lia.
      replace k with (j + (k - j)) at 1 by lia.
      rewrite Z.pow_add_r, Z.mul_assoc by lia.
      apply Z.div_mul_cancel_r; lia.
Qed.

Lemma unitSuffix_exponent (ut : list N) (u : option Z) :
  unitSuffix ut u -> 0 <= default 0 u <= 30.
Proof.
  intros [|c j Hc]; cbn; [lia|].
  unfold unitLetter in Hc.
  repeat match type of Hc with
         | (if ?b then _ else _) = _ => destruct b
         end; inversion Hc; lia.
Qed.

(** A text of the grammar of the specification has no other
    characters than digits, dots and the eight unit letters. *)
Lemma specSizeSpec_chars (s : list N) : specSizeSpec s -> forallb specChar s = true.
Proof.
  intros (num & ut & Hnum & Hu & ->). rewrite forallb_app. apply andb_true_iff. split.
  - destruct Hnum as [->|(int & frac & _ & Hi & Hf & ->)]; [reflexivity|].
    rewrite forallb_app. apply andb_true_iff. split.
    + apply (forallb_weaken isDecimalDigit); [|exact Hi].
      intros c Hc. unfold specChar. now rewrite Hc.
    + apply (forallb_weaken (fun c => isDecimalDigit c || isDot c));
        [|now apply fracText_number].
      intros c Hc. unfold specChar. now rewrite Hc.
  - destruct Hu as [|c Hc]; [reflexivity|]. cbn [forallb]. unfold specChar.
    now rewrite Hc, orb_true_r.
Qed.

(** C7, as it holds.  [parseSize] maps every string made of a decimal
    number (digits, optionally a dot and more digits), optional white
    space and an optional unit letter (b, k, m or g in either case, or
    the Kelvin sign, which [toLowerCase] turns into k) to the floor of
    the number, read as the nearest double, times the binary multiple of
    the unit ([2^0], [2^10], [2^20], [2^30]; no unit means bytes).  For a
    whole number below [2^53] that is exactly the number times the
    multiple, and for every number that is itself a double ([a / 2^n]
    with [a] below [2^53], such as 1.5 or 0.25) it is exactly the floor
    of the number times the multiple.  Every other string is mapped to
    10485760.  Strings are sequences of UTF-16 code units, and white
    space is that of the pattern's [\s]. *)
Theorem C7_parseSize_grammar (s : list N) :
  (forall int frac u, sizeSpec s int frac u ->
     parseSize s = doubleFloor int frac (default 0 u)) /\
  (forall int u, sizeSpec s int [] u ->
     scaledValue int [] < 2 ^ 53 ->
     parseSize s = Some (scaledValue int [] * 2 ^ default 0 u)) /\
  (forall int frac u a n, sizeSpec s int frac u ->
     0 <= n <= 1074 -> a < 2 ^ 53 ->
     scaledValue int frac * 2 ^ n = a * 10 ^ Z.of_nat (length frac) ->
     parseSize s = Some (exactFloor int frac (default 0 u))) /\
  ((forall int frac u, ~ sizeSpec s int frac u) -> parseSize s = Some 10485760).
Proof.
  assert (Hmain : forall int frac u, sizeSpec s int frac u ->
            parseSize s = doubleFloor int frac (default 0 u)).
  { intros int frac u H. apply sizeSpec_lower, matchSize_complete in H.
    unfold parseSize. now rewrite H. }
  split; [exact Hmain|]. split; [|split].
  - intros int u H Hlt. rewrite (Hmain int [] u H).
    destruct H as (_ & Hi & _ & ws & ut & _ & Hu & _).
    unfold doubleFloor. change (10 ^ Z.of_nat (length (@nil N))) with 1.
    apply nearest_integer_exact; [|exact (unitSuffix_exponent ut u Hu)].
    split; [|exact Hlt]. unfold scaledValue. cbn [digitsValue].
    now apply digitsValue_nonneg.
  - intros int frac u a n H Hn Ha Hx. rewrite (Hmain int frac u H).
    destruct H as (_ & Hi & Hf & ws & ut & _ & Hu & _).
    assert (Hp : 0 <= scaledValue int frac).
    { unfold scaledValue. apply digitsValue_nonneg; [|exact Hf].
      apply digitsValue_nonneg; [lia | exact Hi]. }
    assert (Hq : 0 < 10 ^ Z.of_nat (length frac)) by (apply Z.pow_pos_nonneg; lia).
    assert (H2n : 0 < 2 ^ n) by (apply Z.pow_pos_nonneg; lia).
    unfold doubleFloor, exactFloor.
    apply (nearest_dyadic_exact _ _ a n); try assumption; [nia|].
    exact (unitSuffix_exponent ut u Hu).
  - intros Hno. unfold parseSize.
    destruct (matchSize (toLowerCase s)) as [[[int frac] u]|] eqn:E; [|reflexivity].
    apply matchSize_sound, sizeSpec_lower in E. now apply Hno in E.
Qed.

(** C7 fails as stated.  ["5 k"] is not an optional decimal number
    followed by an optional unit suffix, yet it is not mapped to the
    default, and neither is ["10"] followed by the Kelvin sign U+212A;
    and ["0.99999999999999999999"] is mapped to 1 although the floor of
    that number is 0. *)
Lemma C7_counterexample :
  (~ specSizeSpec (utf16 "5 k") /\ parseSize (utf16 "5 k") = Some 5120 /\
   5120 <> 10485760) /\
  (~ specSizeSpec (utf16 "10" ++ [8490%N]) /\
   parseSize (utf16 "10" ++ [8490%N]) = Some 10240 /\ 10240 <> 10485760) /\
  (specSizeSpec (utf16 "0.99999999999999999999") /\
   parseSize (utf16 "0.99999999999999999999") = Some 1 /\
   exactFloor (utf16 "0") (utf16 "99999999999999999999") 0 = 0).
Proof.
  split; [split; [|split]|split; [split; [|split]|split; [|split]]].
  - intros H. apply specSizeSpec_chars in H. discriminate H.
  - vm_compute. reflexivity.
  - discriminate.
  - intros H. apply specSizeSpec_chars in H. discriminate H.
  - vm_compute. reflexivity.
  - discriminate.
  - exists (utf16 "0.99999999999999999999"), [].
    split; [|split; [constructor | now rewrite app_nil_r]].
    right. exists (utf16 "0"), (utf16 "99999999999999999999").
    repeat split; discriminate.
  - vm_compute. reflexivity.
  - vm_compute. reflexivity.
Qed.

End SizeClaims.

(* --------------------------------------------------------------------- *)
(** ** Running computations                                               *)
(* --------------------------------------------------------------------- *)

Section MonadFacts.
Import Sys.

Lemma run_ret {A} (a : A) (w : World) : (mret a : M A) w = (Returned a, w).
Proof. reflexivity. Qed.

Lemma run_bind {A B} (m : M A) (f : A -> M B) (w : World) :
  (m ≫= f) w =
    match m w with
    | (Returned a, w') => f a w'
    | (Thrown e, w') => (Thrown e, w')
    end.
Proof. reflexivity. Qed.

Lemma run_bind_returned {A B} (m : M A) (f : A -> M B) (w w' : World) (a : A) :
  m w = (Returned a, w') -> (m ≫= f) w = f a w'.
Proof. intros H. now rewrite run_bind, H. Qed.

Lemma run_bind_thrown {A B} (m : M A) (f : A -> M B) (w w' : World) (e : Json.Exn) :
  m w = (Thrown e, w') -> (m ≫= f) w = (Thrown e, w').
Proof. intros H. now rewrite run_bind, H. Qed.

Lemma run_tryCatch_returned {A} (m : M A) (h : Json.Exn -> M A) (w w' : World) (a : A) :
  m w = (Returned a, w') -> tryCatch m h w = (Returned a, w').
Proof. intros H. unfold tryCatch. now rewrite H. Qed.

Lemma run_tryCatch_thrown {A} (m : M A) (h : Json.Exn -> M A) (w w' : World) (e : Json.Exn) :
  m w = (Thrown e, w') -> tryCatch m h w = h e w'.
Proof. intros H. unfold tryCatch. now rewrite H. Qed.

End MonadFacts.

(* --------------------------------------------------------------------- *)
(** ** Retention                                                          *)
(* --------------------------------------------------------------------- *)

Module Retention.
Import Text Sys Rotator.

(** The modification time of a path. *)
Definition mtimeOf (files : gmap (string * string) File) (p : Path) : Z :=
  from_option mtime 0 (files !! p).

(** The names in the directory of [filePath] that [cleanupOldFiles]
    selects: every entry that passes its filter.  The rotated logs of
    [filePath] are among them, and so is any other file whose name
    starts with the base name and ends with the extension. *)
Definition siblingNames (files : gmap (string * string) File) (filePath : Path)
    : list string :=
  filter (fun f => isSibling filePath f = true) (dirNames files (fst filePath)).

Definition entryOf (files : gmap (string * string) File) (dir : string) (n : string)
    : Entry :=
  {| name := n; path := (dir, n); time := mtimeOf files (dir, n) |}.

(** The order the sort establishes: [a] is at least as new as [b]. *)
Definition newerEq (a b : Entry) : Prop := time b <= time a.

(** What is left of a file after an attempt to unlink it. *)
Definition afterUnlink (o : option File) : option File :=
  match o with
  | Some f => if busy f then Some f else None
  | None => None
  end.

End Retention.

Section RetentionFacts.
Import Text Sys Rotator Retention.

Lemma elem_of_dirNames (files : gmap (string * string) File) (dir n : string) :
  n ∈ dirNames files dir <-> is_Some (files !! (dir, n)).
Proof.
  unfold dirNames. rewrite list_elem_of_fmap. split.
  - intros (k & -> & Hk). apply list_elem_of_filter in Hk as [Hd Hk].
    apply list_elem_of_fmap in Hk as ([k' v] & -> & Hkv). cbn in *.
    apply elem_of_map_to_list in Hkv. destruct k' as [d n']. cbn in *. subst d. eauto.
  - intros [v Hv]. exists (dir, n). split; [reflexivity|].
    apply list_elem_of_filter. split; [reflexivity|].
    apply list_elem_of_fmap. exists ((dir, n), v). split; [reflexivity|].
    now apply elem_of_map_to_list.
Qed.

Lemma NoDup_dirNames (files : gmap (string * string) File) (dir : string) :
  NoDup (dirNames files dir).
Proof.
  unfold dirNames. apply NoDup_fmap_2_strong.
  - intros [d1 n1] [d2 n2] H1 H2 E. cbn in E. subst n2.
    apply list_elem_of_filter in H1 as [H1 _], H2 as [H2 _]. cbn in *. congruence.
  - apply NoDup_filter, NoDup_fst_map_to_list.
Qed.

Lemma elem_of_siblingNames files filePath n :
  n ∈ siblingNames files filePath <->
  isSibling filePath n = true /\ is_Some (files !! (fst filePath, n)).
Proof.
  unfold siblingNames. rewrite list_elem_of_filter, elem_of_dirNames. reflexivity.
Qed.

Lemma NoDup_siblingNames files filePath : NoDup (siblingNames files filePath).
Proof. apply NoDup_filter, NoDup_dirNames. Qed.

(** The filter spelled out: an entry of the directory is selected when
    its name starts with the base name of the active file, ends with
    its extension, and is not the name of the active file. *)
Lemma selected_iff files filePath n :
  n ∈ siblingNames files filePath <->
  is_Some (files !! (fst filePath, n)) /\
  startsWith n (basenameExt (snd filePath) (extname (snd filePath))) = true /\
  endsWith n (extname (snd filePath)) = true /\
  n <> snd filePath.
Proof.
  rewrite elem_of_siblingNames. unfold isSibling.
  rewrite !andb_true_iff, negb_true_iff, String.eqb_neq. tauto.
Qed.

(** The active file is not among its siblings. *)
Lemma active_not_sibling files filePath :
  snd filePath ∉ siblingNames files filePath.
Proof.
  intros H. apply elem_of_siblingNames in H as [H _].
  unfold isSibling in H. rewrite String.eqb_refl in H.
  now rewrite andb_false_r in H.
Qed.

Lemma statSync_some (p : Path) (w : World) (f : File) :
  fs w !! p = Some f ->
  statSync p w = (Returned (Z.of_nat (String.length (content f)), mtime f), w).
Proof. intros H. unfold statSync. now rewrite H. Qed.

Lemma statEntries_ok (dir : string) (names : list string) (w : World) :
  (forall n, n ∈ names -> is_Some (fs w !! (dir, n))) ->
  statEntries dir names w = (Returned (entryOf (fs w) dir <$> names), w).
Proof.
  induction names as [|n names IH]; intros Hall; [reflexivity|].
  cbn [statEntries]. destruct (Hall n ltac:(left)) as [f Hf].
  rewrite (run_bind_returned _ _ _ _ _ (statSync_some _ _ _ Hf)).
  rewrite (run_bind_returned _ _ _ _ _ (IH ltac:(intros; apply Hall; now right))).
  rewrite run_ret. cbn [fmap list_fmap snd].
  assert (entryOf (fs w) dir n = {| name := n; path := (dir, n); time := mtime f |}) as ->
    by (unfold entryOf, mtimeOf; now rewrite Hf).
  reflexivity.
Qed.

Lemma insertEntry_perm (x : Entry) (l : list Entry) : insertEntry x l ≡ₚ x :: l.
Proof.
  induction l as [|y l IH]; [reflexivity|].
  cbn [insertEntry]. destruct (time y <=? time x); [reflexivity|].
  rewrite IH. apply Permutation_swap.
Qed.

Lemma sortNewestFirst_perm (l : list Entry) : sortNewestFirst l ≡ₚ l.
Proof.
  induction l as [|x l IH]; [reflexivity|].
  unfold sortNewestFirst in *. cbn [foldr]. now rewrite insertEntry_perm, IH.
Qed.

Lemma insertEntry_sorted (x : Entry) (l : list Entry) :
  StronglySorted newerEq l -> StronglySorted newerEq (insertEntry x l).
Proof.
  induction l as [|y l IH]; intros Hs.
  - repeat constructor.
  - apply StronglySorted_inv in Hs as [Hs Hy].
    cbn [insertEntry]. destruct (Z.leb_spec (time y) (time x)) as [Hle|Hgt].
    + constructor; [constructor; assumption|].
      constructor; [exact Hle|].
      eapply Forall_impl; [exact Hy|]. unfold newerEq. intros z Hz. lia.
    + constructor; [now apply IH|].
      rewrite insertEntry_perm. constructor; [unfold newerEq; lia | exact Hy].
Qed.

Lemma sortNewestFirst_sorted (l : list Entry) :
  StronglySorted newerEq (sortNewestFirst l).
Proof.
  induction l as [|x l IH]; [constructor|].
  unfold sortNewestFirst in *. cbn [foldr]. now apply insertEntry_sorted.
Qed.

(** One guarded [unlinkSync]: it never throws, and only the file
    system and the console can change. *)
Lemma unlink_guarded (p : Path) (w : World) :
  exists w',
    tryCatch (unlinkSync p)
      (fun e => consoleCall ConsoleError ["Failed to remove old log file:"; showExn e]) w
      = (Returned tt, w') /\
    (forall q, fs w' !! q = if decide (q = p) then afterUnlink (fs w !! p) else fs w !! q) /\
    ticks w' = ticks w /\ clock w' = clock w /\ breaker w' = breaker w /\
    draws w' = draws w /\ traceStore w' = traceStore w.
Proof.
  unfold tryCatch, unlinkSync. destruct (fs w !! p) as [f|] eqn:Hp.
  - destruct (busy f) eqn:Hb.
    + eexists. split; [reflexivity|]. cbn. split; [|auto].
      intros q. case_decide as Hq; [subst q; rewrite Hp|]; cbn; now rewrite ?Hb.
    + eexists. split; [reflexivity|]. cbn. split; [|auto].
      intros q. case_decide as Hq.
      * subst q. rewrite lookup_delete_eq. cbn. now rewrite Hb.
      * now rewrite lookup_delete_ne.
  - eexists. split; [reflexivity|]. cbn. split; [|auto].
    intros q. case_decide as Hq; [subst q; now rewrite Hp | reflexivity].
Qed.

Lemma afterUnlink_idem (o : option File) : afterUnlink (afterUnlink o) = afterUnlink o.
Proof. destruct o as [f|]; [|reflexivity]. cbn. destruct (busy f) eqn:E; cbn; now rewrite ?E. Qed.

(** The loop over the files to remove: every listed path is
    unlinked unless the platform refuses, whatever happened to the
    others; nothing else changes in the file system. *)
Lemma removeEntries_spec (l : list Entry) : forall w,
  exists w',
    removeEntries l w = (Returned tt, w') /\
    (forall q, fs w' !! q =
       if decide (q ∈ path <$> l) then afterUnlink (fs w !! q) else fs w !! q) /\
    ticks w' = ticks w /\ clock w' = clock w /\ breaker w' = breaker w /\
    draws w' = draws w /\ traceStore w' = traceStore w.
Proof.
  induction l as [|e l IH]; intros w.
  - exists w. split; [reflexivity|]. split; [|auto].
    intros q. case_decide as Hq; [|reflexivity]. cbn in Hq. now apply elem_of_nil in Hq.
  - cbn [removeEntries].
    destruct (unlink_guarded (path e) w) as (w1 & E1 & F1 & T1 & C1 & B1 & D1 & S1).
    destruct (IH w1) as (w' & E' & F' & T' & C' & B' & D' & S').
    exists w'. split; [now rewrite (run_bind_returned _ _ _ _ _ E1)|].
    split; [|repeat split; congruence].
    intros q. rewrite F', !F1. cbn [fmap list_fmap].
    destruct (decide (q = path e)) as [->|Hne].
    + destruct (decide (path e ∈ path e :: (path <$> l))) as [_|Hn];
        [|exfalso; apply Hn; left].
      case_decide; [apply afterUnlink_idem | reflexivity].
    + destruct (decide (q ∈ path <$> l)) as [Hq|Hq];
        destruct (decide (q ∈ path e :: (path <$> l))) as [Hq'|Hq']; try reflexivity.
      * exfalso. apply Hq'. now right.
      * exfalso. apply elem_of_cons in Hq' as [?|?]; contradiction.
Qed.

End RetentionFacts.

Section RetentionClaims.
Import Text Sys Rotator Retention.

Lemma slice_nonneg {A} (k : Z) (l : list A) : 0 <= k -> slice k l = drop (Z.to_nat k) l.
Proof. intros Hk. unfold slice. destruct (Z.ltb_spec k 0); [lia | reflexivity]. Qed.

(** What [cleanupOldFiles] does to the file system, in terms of the
    sorted array it builds. *)
Lemma cleanupOldFiles_run (o : RotationOptions) (filePath : Path) (w : World) :
  0 <= maxFiles o ->
  let sorted := sortNewestFirst
                  (entryOf (fs w) (fst filePath) <$> siblingNames (fs w) filePath) in
  exists w',
    cleanupOldFiles o filePath w = (Returned tt, w') /\
    (forall q, fs w' !! q =
       if decide (q ∈ path <$> drop (Z.to_nat (maxFiles o)) sorted)
       then afterUnlink (fs w !! q) else fs w !! q) /\
    ticks w' = ticks w /\ clock w' = clock w /\ breaker w' = breaker w /\
    draws w' = draws w /\ traceStore w' = traceStore w.
Proof.
  intros HN sorted. unfold cleanupOldFiles.
  assert (Hstat : statEntries (fst filePath)
            (filter (fun f => isSibling filePath f = true) (dirNames (fs w) (fst filePath))) w
          = (Returned (entryOf (fs w) (fst filePath) <$> siblingNames (fs w) filePath), w)).
  { apply statEntries_ok. intros n Hn. now apply elem_of_siblingNames in Hn as [_ Hn]. }
  assert (Hbody : forall w1,
     (if maxFiles o <? Z.of_nat (length sorted)
      then removeEntries (slice (maxFiles o) sorted) else mret tt) w1
     = removeEntries (drop (Z.to_nat (maxFiles o)) sorted) w1).
  { intros w1. rewrite slice_nonneg by exact HN.
    destruct (Z.ltb_spec (maxFiles o) (Z.of_nat (length sorted))); [reflexivity|].
    rewrite drop_ge by lia. reflexivity. }
  destruct (removeEntries_spec (drop (Z.to_nat (maxFiles o)) sorted) w)
    as (w' & E & F & Rest).
  exists w'. split; [|split; [exact F | exact Rest]].
  apply run_tryCatch_returned.
  rewrite run_bind. unfold readdirSync at 1.
  rewrite run_bind, Hstat. cbn zeta. fold sorted. now rewrite Hbody.
Qed.

End RetentionClaims.

(* --------------------------------------------------------------------- *)
(** ** Rotation                                                           *)
(* --------------------------------------------------------------------- *)

Module RotationNames.
Import Text Sys Rotator.




(** Digits, dashes and underscores. *)
Definition plainChar (c : ascii) : bool :=
  isDigit c || Ascii.eqb c "-" || Ascii.eqb c "_".

End RotationNames.

Section RotationFacts.
Import Text Sys Rotator Retention RotationNames SizeGrammar.

Ltac ascii_cases c := destruct c as [[] [] [] [] [] [] [] []].

Lemma digitChar_isDigit (d : Z) : isDigit (digitChar d) = true.
Proof.
  unfold digitChar.
  assert (H : (Z.to_nat (d mod 10) < 10)%nat).
  { pose proof (Z.mod_pos_bound d 10 ltac:(lia)). lia. }
  revert H. generalize (Z.to_nat (d mod 10)). intros n Hn.
  do 10 (destruct n as [|n]; [reflexivity|]). lia.
Qed.

Lemma plainChar_facts (c : ascii) :
  plainChar c = true ->
  (Ascii.eqb c ":" || Ascii.eqb c ".") = false /\
  Ascii.eqb c "T" = false /\ Ascii.eqb c "Z" = false /\ Ascii.eqb c ESC = false.
Proof. ascii_cases c; vm_compute; intros H; try discriminate H; auto. Qed.

Lemma pad2_plain (n : Z) : allChars plainChar (pad2 n) = true.
Proof. unfold pad2, plainChar. cbn [allChars]. now rewrite !digitChar_isDigit. Qed.

Lemma pad3_plain (n : Z) : allChars plainChar (pad3 n) = true.
Proof.
  unfold pad3. cbn [allChars]. rewrite pad2_plain. unfold plainChar.
  now rewrite digitChar_isDigit.
Qed.

Lemma pad4_plain (n : Z) : allChars plainChar (pad4 n) = true.
Proof.
  unfold pad4. cbn [allChars]. rewrite pad3_plain. unfold plainChar.
  now rewrite digitChar_isDigit.
Qed.






Lemma beforeFirst_hit (x : ascii) (b : string) :
  beforeFirst x (String x EmptyString +:+ b) = EmptyString.
Proof. rewrite !app_cons_str. cbn [beforeFirst]. now rewrite Ascii.eqb_refl. Qed.


Lemma lastDotSuffix_suffix (r e : string) :
  lastDotSuffix r = Some e -> exists y, r = y +:+ e.
Proof.
  revert e. induction r as [|c r IH]; intros e H; [discriminate|].
  cbn [lastDotSuffix] in H. destruct (lastDotSuffix r) as [e'|].
  - injection H as <-. destruct (IH e' eq_refl) as [y ->].
    exists (String c y). reflexivity.
  - destruct (Ascii.eqb c "."); [|discriminate]. injection H as <-.
    exists EmptyString. reflexivity.
Qed.

Lemma eqb_length_ne (a b : string) :
  String.length a <> String.length b -> String.eqb a b = false.
Proof. intros H. apply String.eqb_neq. intros ->. now apply H. Qed.

(** A file name is its base name followed by its extension. *)
Lemma name_split (name : string) :
  name = basenameExt name (extname name) +:+ extname name.
Proof.
  unfold extname. destruct name as [|c r]; [reflexivity|].
  destruct (String.eqb (String c r) "..").
  { unfold basenameExt. cbn [String.length Nat.ltb Nat.leb andb].
    now rewrite app_nil_r_str. }
  destruct (lastDotSuffix r) as [e|] eqn:He; cbn [default from_option id].
  - destruct (lastDotSuffix_suffix r e He) as [y ->].
    destruct e as [|e0 e].
    { unfold basenameExt. cbn [String.length Nat.ltb Nat.leb andb].
      now rewrite !app_nil_r_str. }
    unfold basenameExt.
    change (String c (y +:+ String e0 e)) with (String c y +:+ String e0 e).
    rewrite length_app_str.
    assert ((0 <? String.length (String e0 e))%nat = true) as -> by reflexivity.
    assert ((String.length (String e0 e)
              <=? String.length (String c y) + String.length (String e0 e))%nat = true) as ->
      by (apply Nat.leb_le; lia).
    cbn [andb]. rewrite eqb_length_ne
      by (rewrite length_app_str; cbn [String.length]; lia).
    rewrite endsWith_app.
    replace (String.length (String c y) + String.length (String e0 e)
             - String.length (String e0 e))%nat
      with (String.length (String c y)) by lia.
    now rewrite takeStr_app.
  - unfold basenameExt. cbn [String.length Nat.ltb Nat.leb andb].
    now rewrite app_nil_r_str.
Qed.

(** The file a log is rotated to passes the filter of
    [cleanupOldFiles]. *)
Lemma rotated_is_sibling (filePath : Path) (now : Z) :
  isSibling filePath (snd (rotatedPath filePath now)) = true.
Proof.
  unfold isSibling, rotatedPath. cbn [snd].
  set (ext := extname (snd filePath)). set (base := basenameExt (snd filePath) ext).
  rewrite startsWith_app.
  rewrite <- !app_assoc_str. rewrite endsWith_app. cbn [andb].
  apply negb_true_iff, eqb_length_ne.
  pose proof (f_equal String.length (name_split (snd filePath))) as Hlen.
  fold ext base in Hlen. rewrite Hlen, !length_app_str. cbn [String.length]. lia.
Qed.

Lemma rotated_ne (filePath : Path) (now : Z) : rotatedPath filePath now <> filePath.
Proof.
  intros E. pose proof (rotated_is_sibling filePath now) as H.
  rewrite E in H. unfold isSibling in H. rewrite String.eqb_refl in H.
  now rewrite andb_false_r in H.
Qed.


(** The siblings after a successful rotation. *)
Lemma siblings_after_rename (files : gmap (string * string) File) (filePath target : Path)
    (f : File) (n : string) :
  fst target = fst filePath -> isSibling filePath (snd target) = true ->
  n ∈ siblingNames (<[target := f]> (delete filePath files)) filePath <->
  n = snd target \/ n ∈ siblingNames files filePath.
Proof.
  intros Hdir Hsib. rewrite !elem_of_siblingNames.
  destruct target as [td tn], filePath as [pd pn]. cbn [fst snd] in *. subst td.
  split.
  - intros [Hn Hsome]. destruct (decide (n = tn)) as [->|Hne]; [now left|]. right.
    split; [exact Hn|].
    rewrite lookup_insert_ne in Hsome by congruence.
    destruct (decide (n = pn)) as [->|Hne'].
    + now rewrite lookup_delete_eq in Hsome; destruct Hsome.
    + now rewrite lookup_delete_ne in Hsome by congruence.
  - intros [->|[Hn Hsome]].
    + split; [exact Hsib|]. rewrite lookup_insert_eq. eauto.
    + split; [exact Hn|].
      destruct (decide (n = tn)) as [->|Hne]; [rewrite lookup_insert_eq; eauto|].
      rewrite lookup_insert_ne by congruence.
      rewrite lookup_delete_ne; [exact Hsome|].
      intros E. injection E as <-. unfold isSibling in Hn. cbn [snd] in Hn.
      rewrite String.eqb_refl in Hn. now rewrite andb_false_r in Hn.
Qed.

End RotationFacts.

Section RotationClaims.
Import Text Sys Rotator Retention RotationNames.

(** The world after the active file was renamed at the next clock
    reading. *)
Definition afterRotation (filePath : Path) (f : File) (w : World) : World :=
  setFs (<[rotatedPath filePath (clock w (ticks w)) := f]> (delete filePath (fs w)))
        (setTicks (S (ticks w)) w).

Lemma rotateFile_ok (filePath : Path) (f : File) (w : World) :
  fs w !! filePath = Some f -> busy f = false ->
  (forall g, fs w !! rotatedPath filePath (clock w (ticks w)) = Some g -> busy g = false) ->
  rotateFile filePath w = (Returned tt, afterRotation filePath f w).
Proof.
  intros Hf Hb Ht. unfold rotateFile. rewrite run_bind. unfold dateNow at 1.
  apply run_tryCatch_returned. unfold renameSync, afterRotation.
  cbn [fs setTicks]. rewrite Hf, Hb.
  destruct (fs w !! rotatedPath filePath (clock w (ticks w))) as [g|] eqn:Hg;
    [rewrite (Ht g eq_refl)|]; reflexivity.
Qed.


End RotationClaims.

(** A log directory holding one file of 2000 bytes. *)
Module RotationExample.
Import Text Sys Rotator.

Fixpoint replicateStr (n : nat) (c : ascii) : string :=
  match n with
  | O => EmptyString
  | S k => String c (replicateStr k c)
  end.

Definition options : RotationOptions :=
  {| enabled := true; maxSize := Utf16.utf16 "1k"; maxFiles := 5; compress := false |}.

Definition active : Path := ("logs", "app.log").

Definition world : World :=
  {| clock := fun n => 1700000000123 + Z.of_nat n; ticks := 0; tzOffset := 0;
     entropy := fun d n => N.of_nat (16 * d + n); draws := 0; pid := 4242;
     traceStore := None; console := [];
     fs := {[ active := {| content := replicateStr 2000 "x"; mtime := 1699999999000;
                           busy := false |} ]};
     breaker := Breaker.create 0 |}.

End RotationExample.


(** A log directory with four selected entries, one of which the
    platform refuses to unlink, next to the active file and an unrelated
    file. *)
Module RetentionExample.
Import Text Sys Rotator.

Definition options : RotationOptions :=
  {| enabled := true; maxSize := Utf16.utf16 "1k"; maxFiles := 2; compress := false |}.

Definition active : Path := ("logs", "app.log").

Definition file (t : Z) (b : bool) : File :=
  {| content := "x"; mtime := t; busy := b |}.

Definition world : World :=
  {| clock := fun n => 1700000000123 + Z.of_nat n; ticks := 0; tzOffset := 0;
     entropy := fun d n => N.of_nat (16 * d + n); draws := 0; pid := 4242;
     traceStore := None; console := [];
     fs := {[ active := file 500 false;
              ("logs", "app-d.log") := file 400 false;
              ("logs", "app-c.log") := file 300 false;
              ("logs", "app-b.log") := file 200 true;
              ("logs", "app-a.log") := file 100 false;
              ("logs", "other.txt") := file 50 false ]};
     breaker := Breaker.create 0 |}.

End RetentionExample.

(** A log directory shared by three programs: next to the active file
    [app.log] it holds the rotated logs of three earlier rotations of
    [app.log], one minute apart, and the logs [apple.log] and
    [application.log] of the two other programs. *)
Module SharedDirectory.
Import Text Sys Rotator.

Definition options : RotationOptions :=
  {| enabled := true; maxSize := Utf16.utf16 "1k"; maxFiles := 2; compress := false |}.

Definition active : Path := ("logs", "app.log").

Definition file (t : Z) : File := {| content := "x"; mtime := t; busy := false |}.

Definition oldest : Path := rotatedPath active 1700000000123.
Definition middle : Path := rotatedPath active 1700000060123.
Definition newest : Path := rotatedPath active 1700000120123.

Definition world : World :=
  {| clock := fun n => 1700000180123 + Z.of_nat n; ticks := 0; tzOffset := 0;
     entropy := fun d n => N.of_nat (16 * d + n); draws := 0; pid := 4242;
     traceStore := None; console := [];
     fs := {[ active := file 500;
              ("logs", "application.log") := file 400;
              newest := file 300;
              ("logs", "apple.log") := file 250;
              middle := file 200;
              oldest := file 100 ]};
     breaker := Breaker.create 0 |}.

End SharedDirectory.

Section RetentionRuns.
Import Text Sys Rotator Retention.

(** C6 on an input the code can receive: a log directory shared by
    three programs.  Next to the active file [app.log] it holds three
    rotated logs of [app.log] and the logs [apple.log] and
    [application.log] of the two other programs.  A retention run with
    [maxFiles = 2] counts the two foreign logs among the files of
    [app.log], their names starting with [app] and ending with [.log]:
    it keeps [application.log] and the newest rotated log, and unlinks
    [apple.log] and the two older rotated logs.  Of the three rotated
    logs one is retained, not the two most recently modified, and a
    file that is no rotated log is deleted. *)
Lemma C6_failing_input :
  let w' := snd (cleanupOldFiles SharedDirectory.options SharedDirectory.active
                   SharedDirectory.world) in
  (SharedDirectory.oldest = ("logs", "app-2023-11-14_22-13-20-123.log") /\
   SharedDirectory.middle = ("logs", "app-2023-11-14_22-14-20-123.log") /\
   SharedDirectory.newest = ("logs", "app-2023-11-14_22-15-20-123.log")) /\
  (mtimeOf (fs SharedDirectory.world) SharedDirectory.oldest = 100 /\
   mtimeOf (fs SharedDirectory.world) SharedDirectory.middle = 200 /\
   mtimeOf (fs SharedDirectory.world) SharedDirectory.newest = 300) /\
  fst (cleanupOldFiles SharedDirectory.options SharedDirectory.active
         SharedDirectory.world) = Returned tt /\
  fs w' !! SharedDirectory.newest = Some (SharedDirectory.file 300) /\
  fs w' !! SharedDirectory.middle = None /\
  fs w' !! SharedDirectory.oldest = None /\
  fs w' !! ("logs", "apple.log") = None /\
  fs w' !! ("logs", "application.log") = Some (SharedDirectory.file 400) /\
  fs w' !! SharedDirectory.active = Some (SharedDirectory.file 500).
Proof. vm_compute. repeat split. Qed.

(** X22.  A retention run with [maxFiles = N >= 0] selects the entries
    of the log directory whose name starts with the base name of the
    active file and ends with its extension, the active file itself
    excepted; every rotated log of the active file is among them, and
    so is any other file with such a name.  When the modification
    times of the selected entries are pairwise distinct, they split
    into [kept] and [removed], where [kept] has [N] members (all of
    them when there are no more than [N]), every kept entry is newer
    than every removed one, kept entries are left as they were, and
    every removed entry is unlinked unless the platform refuses to
    unlink that one entry, independently of the other entries.  The
    active file and every file that is not selected are left as they
    were, and the run itself never fails. *)
Theorem cleanup_keeps_newest_selected (o : RotationOptions) (filePath : Path) (w : World) :
  0 <= maxFiles o ->
  (forall f g, f ∈ siblingNames (fs w) filePath -> g ∈ siblingNames (fs w) filePath ->
     mtimeOf (fs w) (fst filePath, f) = mtimeOf (fs w) (fst filePath, g) -> f = g) ->
  exists (w' : World) (kept removed : list string),
    cleanupOldFiles o filePath w = (Returned tt, w') /\
    (forall n, n ∈ kept ++ removed <->
       is_Some (fs w !! (fst filePath, n)) /\
       startsWith n (basenameExt (snd filePath) (extname (snd filePath))) = true /\
       endsWith n (extname (snd filePath)) = true /\
       n <> snd filePath) /\
    (forall now, is_Some (fs w !! rotatedPath filePath now) ->
       snd (rotatedPath filePath now) ∈ kept ++ removed) /\
    NoDup (kept ++ removed) /\
    length kept = Nat.min (Z.to_nat (maxFiles o)) (length (kept ++ removed)) /\
    (forall k r, k ∈ kept -> r ∈ removed ->
       mtimeOf (fs w) (fst filePath, r) < mtimeOf (fs w) (fst filePath, k)) /\
    (forall k, k ∈ kept -> fs w' !! (fst filePath, k) = fs w !! (fst filePath, k)) /\
    (forall r, r ∈ removed ->
       fs w' !! (fst filePath, r) = afterUnlink (fs w !! (fst filePath, r))) /\
    fs w' !! filePath = fs w !! filePath /\
    (forall q, (fst q <> fst filePath \/ snd q ∉ kept ++ removed) ->
       fs w' !! q = fs w !! q).
Proof.
  intros HN Hdistinct.
  set (dir := fst filePath) in *.
  set (names := siblingNames (fs w) filePath) in *.
  set (entries := entryOf (fs w) dir <$> names).
  set (sorted := sortNewestFirst entries).
  set (N := Z.to_nat (maxFiles o)).
  destruct (cleanupOldFiles_run o filePath w HN) as (w' & E & F & _).
  fold dir names entries sorted N in F.
  assert (Hperm : sorted ≡ₚ entries) by apply sortNewestFirst_perm.
  assert (Hnames : name <$> entries = names).
  { unfold entries. rewrite <- list_fmap_compose. apply list_fmap_id. }
  assert (Hsplit : name <$> sorted = (name <$> take N sorted) ++ (name <$> drop N sorted)).
  { now rewrite <- fmap_app, take_drop. }
  assert (HpermN : names ≡ₚ (name <$> take N sorted) ++ (name <$> drop N sorted)).
  { rewrite <- Hsplit, Hperm, Hnames. reflexivity. }
  assert (Hnd : NoDup ((name <$> take N sorted) ++ (name <$> drop N sorted))).
  { rewrite <- HpermN. apply NoDup_siblingNames. }
  assert (Hentry : forall e, e ∈ sorted -> e = entryOf (fs w) dir (name e) /\ name e ∈ names).
  { intros e He. rewrite Hperm in He. unfold entries in He.
    apply list_elem_of_fmap in He as (n & -> & Hn). now split. }
  assert (Hpath : forall q l, l ⊆ sorted -> q ∈ path <$> l ->
            fst q = dir /\ snd q ∈ name <$> l).
  { intros q l Hl Hq. apply list_elem_of_fmap in Hq as (e & -> & He).
    destruct (Hentry e (Hl e He)) as [Ee _]. rewrite Ee. cbn. split; [reflexivity|].
    apply list_elem_of_fmap. exists e. split; [now rewrite Ee | exact He]. }
  assert (Hdrop : drop N sorted ⊆ sorted) by apply subseteq_drop.
  assert (Hunchanged : forall q, ~ (fst q = dir /\ snd q ∈ name <$> drop N sorted) ->
            fs w' !! q = fs w !! q).
  { intros q Hq. rewrite F. case_decide as Hin; [|reflexivity].
    exfalso. apply Hq. now apply Hpath. }
  assert (Hsel : forall n, n ∈ (name <$> take N sorted) ++ (name <$> drop N sorted) <->
            is_Some (fs w !! (dir, n)) /\
            startsWith n (basenameExt (snd filePath) (extname (snd filePath))) = true /\
            endsWith n (extname (snd filePath)) = true /\
            n <> snd filePath).
  { intros n. rewrite <- HpermN. unfold names. rewrite elem_of_siblingNames.
    fold dir. unfold isSibling. rewrite !andb_true_iff, negb_true_iff, String.eqb_neq.
    tauto. }
  exists w', (name <$> take N sorted), (name <$> drop N sorted).
  split; [exact E|]. split; [exact Hsel|]. split.
  { intros now Hnow. rewrite <- HpermN. apply elem_of_siblingNames.
    split; [apply rotated_is_sibling|]. exact Hnow. }
  split; [exact Hnd|]. split.
  { rewrite <- HpermN, length_fmap, length_take. unfold sorted.
    rewrite (Permutation_length (sortNewestFirst_perm entries)).
    unfold entries, names. now rewrite length_fmap. }
  split.
  { intros k r Hk Hr.
    apply list_elem_of_fmap in Hk as (ek & -> & Hek), Hr as (er & -> & Her).
    pose proof (sortNewestFirst_sorted entries) as Hs. fold sorted in Hs.
    rewrite <- (take_drop N sorted) in Hs.
    pose proof (StronglySorted_app_1_elem_of _ _ _ _ _ Hs Hek Her) as Hle.
    unfold newerEq in Hle.
    destruct (Hentry ek (subseteq_take N sorted ek Hek)) as [Eek Hnk].
    destruct (Hentry er (Hdrop er Her)) as [Eer Hnr].
    assert (Htk : time ek = mtimeOf (fs w) (dir, name ek)) by (now rewrite Eek at 1).
    assert (Htr : time er = mtimeOf (fs w) (dir, name er)) by (now rewrite Eer at 1).
    rewrite <- Htk, <- Htr.
    destruct (Z.eq_dec (time er) (time ek)) as [Heq|Hne]; [|lia].
    exfalso. rewrite Htk, Htr in Heq.
    pose proof (Hdistinct _ _ Hnr Hnk Heq) as Hsame.
    apply NoDup_app in Hnd as (_ & Hdisj & _).
    apply (Hdisj (name ek)).
    - apply list_elem_of_fmap. now exists ek.
    - rewrite <- Hsame. apply list_elem_of_fmap. now exists er. }
  split.
  { intros k Hk. apply Hunchanged. cbn. intros [_ Hin].
    apply NoDup_app in Hnd as (_ & Hdisj & _). exact (Hdisj k Hk Hin). }
  split.
  { intros r Hr. rewrite F. rewrite decide_True; [reflexivity|].
    apply list_elem_of_fmap in Hr as (er & -> & Her).
    apply list_elem_of_fmap. exists er. split; [|exact Her].
    destruct (Hentry er (Hdrop er Her)) as [Eer _]. now rewrite Eer at 2. }
  split.
  { apply Hunchanged. intros [_ Hin].
    apply (active_not_sibling (fs w) filePath). fold names. rewrite HpermN.
    apply elem_of_app. now right. }
  intros q Hq. apply Hunchanged. intros [Hd Hin]. destruct Hq as [Hq|Hq]; [contradiction|].
  apply Hq. apply elem_of_app. now right.
Qed.

Lemma cleanup_keeps_newest_selected_witness :
  exists (w' : World) (kept removed : list string),
    cleanupOldFiles RetentionExample.options RetentionExample.active
      RetentionExample.world = (Returned tt, w') /\
    (forall n, n ∈ kept ++ removed <->
       is_Some (fs RetentionExample.world !! (fst RetentionExample.active, n)) /\
       startsWith n (basenameExt (snd RetentionExample.active)
                       (extname (snd RetentionExample.active))) = true /\
       endsWith n (extname (snd RetentionExample.active)) = true /\
       n <> snd RetentionExample.active) /\
    (forall now, is_Some (fs RetentionExample.world !! rotatedPath RetentionExample.active now) ->
       snd (rotatedPath RetentionExample.active now) ∈ kept ++ removed) /\
    NoDup (kept ++ removed) /\
    length kept = Nat.min (Z.to_nat (maxFiles RetentionExample.options))
                    (length (kept ++ removed)) /\
    (forall k r, k ∈ kept -> r ∈ removed ->
       mtimeOf (fs RetentionExample.world) (fst RetentionExample.active, r)
       < mtimeOf (fs RetentionExample.world) (fst RetentionExample.active, k)) /\
    (forall k, k ∈ kept ->
       fs w' !! (fst RetentionExample.active, k)
       = fs RetentionExample.world !! (fst RetentionExample.active, k)) /\
    (forall r, r ∈ removed ->
       fs w' !! (fst RetentionExample.active, r)
       = afterUnlink (fs RetentionExample.world !! (fst RetentionExample.active, r))) /\
    fs w' !! RetentionExample.active
      = fs RetentionExample.world !! RetentionExample.active /\
    (forall q, (fst q <> fst RetentionExample.active \/ snd q ∉ kept ++ removed) ->
       fs w' !! q = fs RetentionExample.world !! q).
Proof.
  apply (cleanup_keeps_newest_selected RetentionExample.options RetentionExample.active
           RetentionExample.world).
  - vm_compute. discriminate.
  - assert (Hs : exists l, siblingNames (fs RetentionExample.world)
                    RetentionExample.active = l /\
                  l ≡ₚ ["app-a.log"; "app-b.log"; "app-c.log"; "app-d.log"]).
    { eexists. split; [vm_compute; reflexivity|].
      apply (bool_decide_unpack _). vm_compute. exact I. }
    destruct Hs as (l & -> & Hl). intros f g Hf Hg.
    rewrite Hl in Hf, Hg.
    repeat (apply elem_of_cons in Hf as [->|Hf]);
      try (now apply elem_of_nil in Hf);
      repeat (apply elem_of_cons in Hg as [->|Hg]);
      try (now apply elem_of_nil in Hg);
      vm_compute; intros E; first [reflexivity | discriminate E].
Defined.

End RetentionRuns.

(* --------------------------------------------------------------------- *)
(** ** Formatting                                                         *)
(* --------------------------------------------------------------------- *)

Module Format.
Import Text Json Sys Logger.

(** The identifier of the active trace scope, if there is one. *)
Definition ambientId (w : World) : option string :=
  truthy (traceStore w ≫= (fun m => m !! "traceId")).

(** The identifier [formatLog] puts on the record. *)
Definition recordId (w : World) : string :=
  default (Uuid.format (entropy w (draws w))) (ambientId w).

(** The world after [currentTraceId]. *)
Definition afterId (w : World) : World :=
  match ambientId w with
  | Some _ => w
  | None => setDraws (S (draws w)) w
  end.

(** The world after a successful [formatLog]. *)
Definition afterFormat (w : World) : World :=
  setTicks (S (ticks w)) (afterId w).

(** The metadata of [opts] serialises to [md]. *)
Definition metadataOk (opts : LogOptions) (md : string) : Prop :=
  match metadata opts with
  | Some m => stringify m = inl md
  | None => md = "{}"
  end.

(** The line of a record that carries the identifier. *)
Definition traceLine (id : string) : string :=
  "Trace Id: " +:+ id +:+ reset +:+ String "010" EmptyString.

(** A record without any colouring. *)
Definition renderPlain (level : Level) (msg : string) (opts : LogOptions)
    (traceId metadataText timestamp : string) : string :=
  let output :=
    timestamp +:+ ":" +:+ " " +:+ levelName level +:+ ": " +:+ msg +:+ String "010"
    ("Trace Id: " +:+ traceId +:+ String "010"
    ("Function Name: " +:+ functionName opts +:+ String "010"
    ("Metadata: " +:+ metadataText))) in
  match truthy (error_ opts ≫= stack) with
  | Some st => output +:+ String "010" ("Error Stack: " +:+ st)
  | None => output
  end.

(** [s], followed by anything, is stripped to [t] followed by the
    stripped rest. *)
Definition stripsTo (s t : string) : Prop :=
  forall rest, strip 0 (s +:+ rest) = t +:+ strip 0 rest.

Definition noEsc (s : string) : Prop := hasChar ESC s = false.

(** What [removeColors] leaves of [getColorCode colorName]: nothing of
    a colour of the palette, the text itself of anything else. *)
Definition leftover (colorName : string) : string :=
  match assoc colorName colorMap with
  | Some _ => EmptyString
  | None => default EmptyString (assoc colorName objectPrototype)
  end.

(** What [removeColors] leaves of the colour of the level token. *)
Definition levelLeftover (custom : option string) (customLevelColors : option CustomColors)
    (level : Level) : string :=
  match truthy custom with
  | Some c => leftover c
  | None =>
      match customLevelColors ≫= (fun cc => truthy (cc level)) with
      | Some c => leftover c
      | None => EmptyString
      end
  end.

(** A record made without colours, after [removeColors]: the plain
    record, with what is left of the colours the options name. *)
Definition strippedRender (level : Level) (msg : string) (opts : LogOptions)
    (customLevelColors : option CustomColors) (traceId metadataText timestamp : string)
    : string :=
  let fullText := from_option leftover EmptyString (truthy (fullLogColor opts)) in
  let msgText := from_option leftover EmptyString (truthy (logColor opts)) in
  let output :=
    fullText +:+ timestamp +:+ ":" +:+ " "
    +:+ levelLeftover (customColor opts) customLevelColors level +:+ levelName level
    +:+ ": " +:+ fullText +:+ msgText +:+ msg +:+ String "010"
    (fullText +:+ "Trace Id: " +:+ traceId +:+ String "010"
    (fullText +:+ "Function Name: " +:+ functionName opts +:+ String "010"
    (fullText +:+ "Metadata: " +:+ metadataText))) in
  match truthy (error_ opts ≫= stack) with
  | Some st => output +:+ String "010" (fullText +:+ "Error Stack: " +:+ st)
  | None => output
  end.

(** An optional colour name that, when given, is a colour of the
    palette. *)
Definition fromPalette (o : option string) : Prop :=
  forall c, truthy o = Some c -> is_Some (assoc c colorMap).

(** The colour options of an event name colours of the palette. *)
Definition paletteOnly (opts : LogOptions) : Prop :=
  fromPalette (customColor opts) /\ fromPalette (logColor opts) /\
  fromPalette (fullLogColor opts).

(** The line of a record in the file that carries the identifier. *)
Definition fileTraceLine (id : string) : string :=
  "Trace Id: " +:+ id +:+ String "010" EmptyString.

End Format.

Section FormatFacts.
Import Text Json Sys Logger Format.

Lemma currentTraceId_run (w : World) :
  currentTraceId w = (Returned (recordId w), afterId w).
Proof.
  unfold currentTraceId, recordId, afterId, ambientId.
  rewrite run_bind. unfold get at 1.
  destruct (truthy (traceStore w ≫= _)); reflexivity.
Qed.

Lemma afterId_clock (w : World) :
  clock (afterId w) = clock w /\ ticks (afterId w) = ticks w /\
  traceStore (afterId w) = traceStore w /\ console (afterId w) = console w /\
  fs (afterId w) = fs w /\ breaker (afterId w) = breaker w /\
  tzOffset (afterId w) = tzOffset w /\ pid (afterId w) = pid w.
Proof. unfold afterId. destruct (ambientId w); cbn; auto 10. Qed.

Lemma metadataText_ok (opts : LogOptions) (md : string) (w : World) :
  metadataOk opts md -> metadataText opts w = (Returned md, w).
Proof.
  unfold metadataOk, metadataText. destruct (metadata opts) as [m|].
  - intros ->. reflexivity.
  - intros ->. reflexivity.
Qed.

Lemma metadataText_cases (opts : LogOptions) (w : World) :
  (exists md, metadataOk opts md /\ metadataText opts w = (Returned md, w)) \/
  (exists m e, metadata opts = Some m /\ stringify m = inr e /\
     metadataText opts w = (Thrown e, w)).
Proof.
  unfold metadataOk, metadataText. destruct (metadata opts) as [m|].
  - destruct (stringify m) as [t|e] eqn:E; [left | right]; eauto.
  - left. eauto.
Qed.

Lemma formatLog_ok level msg opts uc cc (md : string) (w : World) :
  metadataOk opts md ->
  formatLog level msg opts uc cc w =
    (Returned (render level msg opts uc cc (recordId w) md
                 (JsDate.toISOString (clock w (ticks w)))),
     afterFormat w).
Proof.
  intros Hmd. unfold formatLog.
  rewrite (run_bind_returned _ _ _ _ _ (currentTraceId_run w)).
  rewrite (run_bind_returned _ _ _ _ _ (metadataText_ok opts md _ Hmd)).
  rewrite run_bind. unfold getTimestamp. rewrite run_bind. unfold dateNow at 1.
  rewrite !run_ret. unfold afterFormat.
  destruct (afterId_clock w) as (-> & -> & _). reflexivity.
Qed.

Lemma formatLog_throws level msg opts uc cc m e (w : World) :
  metadata opts = Some m -> stringify m = inr e ->
  formatLog level msg opts uc cc w = (Thrown e, afterId w).
Proof.
  intros Hm He. unfold formatLog.
  rewrite (run_bind_returned _ _ _ _ _ (currentTraceId_run w)).
  apply run_bind_thrown. unfold metadataText. now rewrite Hm, He.
Qed.

Lemma formatLog_returned level msg opts uc cc (w w' : World) (out : string) :
  formatLog level msg opts uc cc w = (Returned out, w') ->
  exists md, metadataOk opts md /\ w' = afterFormat w /\
    out = render level msg opts uc cc (recordId w) md
            (JsDate.toISOString (clock w (ticks w))).
Proof.
  intros H. destruct (metadataText_cases opts (afterId w))
    as [(md & Hmd & _)|(m & e & Hm & He & _)].
  - rewrite (formatLog_ok level msg opts uc cc md w Hmd) in H.
    injection H as <- <-. eauto.
  - rewrite (formatLog_throws level msg opts uc cc m e w Hm He) in H. discriminate.
Qed.

(** *** Substrings *)

Lemma includes_cons (c : ascii) (s p : string) :
  includes s p = true -> includes (String c s) p = true.
Proof. intros H. cbn [includes]. rewrite H. apply orb_true_r. Qed.

Lemma includes_app_r (a b p : string) :
  includes b p = true -> includes (a +:+ b) p = true.
Proof.
  intros H. induction a as [|c a IH]; [exact H|].
  rewrite app_cons_str. now apply includes_cons.
Qed.

Lemma startsWith_app_l (s p r : string) :
  startsWith s p = true -> startsWith (s +:+ r) p = true.
Proof.
  intros H. apply startsWith_inv in H as [x ->].
  rewrite app_assoc_str. apply startsWith_app.
Qed.

Lemma includes_app_l (a b p : string) :
  includes a p = true -> includes (a +:+ b) p = true.
Proof.
  induction a as [|c a IH]; intros H.
  - destruct p; [now destruct b | discriminate H].
  - cbn [includes] in H. apply orb_true_iff in H as [H|H].
    + apply includes_here. now apply startsWith_app_l.
    + rewrite app_cons_str. apply includes_cons. now apply IH.
Qed.

Lemma containsAnsi_cons (c : ascii) (s : string) :
  containsAnsi s = true -> containsAnsi (String c s) = true.
Proof. intros H. cbn [containsAnsi]. rewrite H. apply orb_true_r. Qed.

Lemma containsAnsi_app_r (a b : string) :
  containsAnsi b = true -> containsAnsi (a +:+ b) = true.
Proof.
  intros H. induction a as [|c a IH]; [exact H|].
  rewrite app_cons_str. now apply containsAnsi_cons.
Qed.

Lemma containsAnsi_reset (rest : string) : containsAnsi (reset +:+ rest) = true.
Proof. reflexivity. Qed.

End FormatFacts.

Section RecordFacts.
Import Text Json Sys Logger Format.

Lemma startsWith_app_both (a x y : string) :
  startsWith (a +:+ x) (a +:+ y) = startsWith x y.
Proof.
  induction a as [|c a IH]; [reflexivity|].
  rewrite !app_cons_str. cbn [startsWith]. now rewrite Ascii.eqb_refl.
Qed.

(** Every record has the line with the identifier. *)
Lemma render_trace_line level msg opts uc cc (id md ts : string) :
  includes (render level msg opts uc cc id md ts) (traceLine id) = true.
Proof.
  unfold render. cbn zeta.
  assert (H : forall rest, includes
     (from_option getColorCode EmptyString (truthy (fullLogColor opts)) +:+
      (if uc then bright else EmptyString) +:+ ts +:+ ":" +:+ reset +:+ " " +:+
      levelColorFor (customColor opts) cc level +:+ levelName level +:+ reset +:+ ": " +:+
      from_option getColorCode EmptyString (truthy (fullLogColor opts)) +:+
      from_option getColorCode EmptyString (truthy (logColor opts)) +:+ msg +:+ reset +:+
      String "010"
        (from_option getColorCode EmptyString (truthy (fullLogColor opts)) +:+
         (if uc then dim else EmptyString) +:+ "Trace Id: " +:+ id +:+ reset +:+
         String "010" rest)) (traceLine id) = true).
  { intros rest. do 14 apply includes_app_r. apply includes_cons.
    do 2 apply includes_app_r. apply includes_here.
    unfold traceLine. rewrite !startsWith_app_both. cbn [startsWith].
    rewrite Ascii.eqb_refl. now destruct rest. }
  destruct (truthy (error_ opts ≫= stack)); [apply includes_app_l|]; apply H.
Qed.

(** Every record contains the reset code, whatever the colour flag. *)
Lemma render_contains_ansi level msg opts uc cc (id md ts : string) :
  containsAnsi (render level msg opts uc cc id md ts) = true.
Proof.
  unfold render. cbn zeta.
  destruct (truthy (error_ opts ≫= stack)).
  - apply containsAnsi_app_r, containsAnsi_cons.
    do 4 apply containsAnsi_app_r. reflexivity.
  - do 4 apply containsAnsi_app_r. apply containsAnsi_reset.
Qed.

(** The level token is coloured and reset in the same way with and
    without colours. *)
Lemma render_level_token level msg opts uc cc (id md ts : string) :
  includes (render level msg opts uc cc id md ts)
    (levelColorFor (customColor opts) cc level +:+ levelName level +:+ reset) = true.
Proof.
  unfold render. cbn zeta.
  assert (H : forall rest, includes
     (from_option getColorCode EmptyString (truthy (fullLogColor opts)) +:+
      (if uc then bright else EmptyString) +:+ ts +:+ ":" +:+ reset +:+ " " +:+
      levelColorFor (customColor opts) cc level +:+ levelName level +:+ reset +:+ rest)
     (levelColorFor (customColor opts) cc level +:+ levelName level +:+ reset) = true).
  { intros rest. do 6 apply includes_app_r. apply includes_here.
    rewrite !startsWith_app_both.
    rewrite <- (app_nil_r_str reset) at 2. rewrite startsWith_app_both.
    now destruct rest. }
  destruct (truthy (error_ opts ≫= stack)); [apply includes_app_l|]; apply H.
Qed.

End RecordFacts.

Section TraceClaims.
Import Text Json Sys Logger Format.

Lemma uuid_nonempty (r : nat -> N) : Uuid.format r <> EmptyString.
Proof. discriminate. Qed.

Lemma truthy_nonempty (o : option string) (s : string) :
  truthy o = Some s -> o = Some s /\ s <> EmptyString.
Proof.
  destruct o as [[|c t]|]; cbn; intros H; try discriminate; injection H as <-.
  split; [reflexivity | discriminate].
Qed.

Lemma ambientId_scope (w : World) (store : gmap string string) (id : string) :
  traceStore w = Some store -> store !! "traceId" = Some id -> id <> EmptyString ->
  ambientId w = Some id.
Proof.
  intros Hs Hid Hne. unfold ambientId. rewrite Hs. cbn. rewrite Hid.
  destruct id; [contradiction | reflexivity].
Qed.

Lemma ambientId_no_scope (w : World) : traceStore w = None -> ambientId w = None.
Proof. intros Hs. unfold ambientId. now rewrite Hs. Qed.

(** The scope opened by [httpLogger] carries the identifier generated
    for the request: the application code and the [finish] handler run
    with it as the ambient identifier. *)
Lemma httpLogger_scope config L req res next (w : World) :
  exists body,
    httpLogger config L req res next w =
      alsRun {[ "traceId" := Uuid.format (entropy w (draws w)) ]} body
        (setDraws (S (draws w)) w) /\
    forall w1, ambientId (setTraceStore
                 (Some {[ "traceId" := Uuid.format (entropy w (draws w)) ]}) w1)
               = Some (Uuid.format (entropy w (draws w))).
Proof.
  eexists. split; [reflexivity|]. intros w1.
  eapply ambientId_scope; [reflexivity | apply lookup_singleton_eq | apply uuid_nonempty].
Qed.

(** C8.  Every record that [formatLog] produces contains the line
    [Trace Id: <id>].  Inside a trace scope, that is with an ambient
    store holding a non-empty [traceId], [<id>] is that identifier and
    no identifier is generated; outside any scope [<id>] is a freshly
    generated, non-empty identifier.  Formatting leaves the ambient
    store as it is, so every statement of one scope gets the same
    identifier. *)
Theorem C8_trace_id_on_every_record level msg opts uc cc (w w' : World) (out : string) :
  formatLog level msg opts uc cc w = (Returned out, w') ->
  includes out (traceLine (recordId w)) = true /\
  recordId w <> EmptyString /\
  (forall store id, traceStore w = Some store -> store !! "traceId" = Some id ->
     id <> EmptyString -> recordId w = id /\ draws w' = draws w) /\
  (traceStore w = None ->
     recordId w = Uuid.format (entropy w (draws w)) /\ draws w' = S (draws w)) /\
  traceStore w' = traceStore w.
Proof.
  intros H. apply formatLog_returned in H as (md & _ & -> & ->).
  split; [apply render_trace_line|].
  split.
  { unfold recordId. destruct (ambientId w) as [id|] eqn:E; cbn.
    - now apply truthy_nonempty in E as [_ E].
    - apply uuid_nonempty. }
  split; [|split].
  - intros store id Hs Hid Hne.
    pose proof (ambientId_scope w store id Hs Hid Hne) as Ha.
    unfold recordId, afterFormat, afterId. now rewrite Ha.
  - intros Hs. pose proof (ambientId_no_scope w Hs) as Ha.
    unfold recordId, afterFormat, afterId. now rewrite Ha.
  - unfold afterFormat. cbn. now destruct (afterId_clock w) as (_ & _ & -> & _).
Qed.

(** C9, as it holds.  The outcome of [formatLog] - the text, or the
    exception - is determined by its arguments together with the next
    reading of the clock and the identifier put on the record (the
    ambient one, or else the one generated next); nothing else in the
    world matters. *)
Theorem C9_formatLog_determined level msg opts uc cc (w1 w2 : World) :
  clock w1 (ticks w1) = clock w2 (ticks w2) ->
  recordId w1 = recordId w2 ->
  fst (formatLog level msg opts uc cc w1) = fst (formatLog level msg opts uc cc w2).
Proof.
  intros Hc Hid.
  destruct (metadataText_cases opts (afterId w1))
    as [(md & Hmd & _)|(m & e & Hm & He & _)].
  - rewrite !(formatLog_ok level msg opts uc cc md _ Hmd). cbn [fst].
    now rewrite Hc, Hid.
  - now rewrite !(formatLog_throws level msg opts uc cc m e _ Hm He).
Qed.

End TraceClaims.

(** Two loggers' worlds, and one event. *)
Module FormatExample.
Import Text Json Sys Logger.

Definition options : LogOptions :=
  {| functionName := "orders/create"; metadata := Some [("a", JNum 1)];
     error_ := None; customColor := None; logColor := None; fullLogColor := None |}.

Definition plain : LogOptions :=
  {| functionName := "disk/check"; metadata := None;
     error_ := None; customColor := None; logColor := None; fullLogColor := None |}.

Definition world : World := RotationExample.world.

(** The same clock reading and the same ambient identifier in a world
    that differs in everything else. *)
Definition scoped (w : World) : World := setTraceStore (Some {[ "traceId" := "req-1" ]}) w.

Definition other : World :=
  {| clock := fun _ => 1700000000123; ticks := 7; tzOffset := 3600000;
     entropy := fun _ _ => 9%N; draws := 3; pid := 1;
     traceStore := Some {[ "traceId" := "req-1" ]};
     console := [{| method := ConsoleLog; args := ["earlier"] |}];
     fs := ∅; breaker := Breaker.trip 5 (Breaker.create 0) |}.

End FormatExample.

Lemma C8_witness :
  Text.includes
    (Logger.render Logger.warn "disk almost full" FormatExample.plain true None
       (Format.recordId FormatExample.world) "{}"
       (JsDate.toISOString 1700000000123))
    (Format.traceLine (Format.recordId FormatExample.world)) = true /\
  Format.recordId FormatExample.world = "00010203-0405-4607-8809-0a0b0c0d0e0f".
Proof.
  split; [|reflexivity].
  refine (proj1 (C8_trace_id_on_every_record Logger.warn "disk almost full"
            FormatExample.plain true None FormatExample.world
            (Format.afterFormat FormatExample.world) _ _)).
  reflexivity.
Defined.

Lemma C9_witness :
  fst (Logger.formatLog Logger.info "created" FormatExample.options false None
         (FormatExample.scoped FormatExample.world))
  = fst (Logger.formatLog Logger.info "created" FormatExample.options false None
           FormatExample.other).
Proof.
  apply C9_formatLog_determined; vm_compute; reflexivity.
Defined.

(** C9 fails as stated: the same call made twice in a row gives two
    different texts, the clock having advanced and, outside a scope, a
    new identifier having been generated. *)
Lemma C9_counterexample :
  let first := Logger.formatLog Logger.info "created" FormatExample.options false None
                 FormatExample.world in
  let second := Logger.formatLog Logger.info "created" FormatExample.options false None
                  (snd first) in
  fst first <> fst second /\
  fst (Logger.formatLog Logger.info "created" FormatExample.options false None
         (FormatExample.scoped FormatExample.world))
  <> fst (Logger.formatLog Logger.info "created" FormatExample.options false None
            (Sys.setTicks 1 (FormatExample.scoped FormatExample.world))).
Proof. split; vm_compute; discriminate. Qed.

(* --------------------------------------------------------------------- *)
(** ** Escape characters                                                  *)
(* --------------------------------------------------------------------- *)

Section EscapeFacts.
Import Text Json Sys Logger Format SizeGrammar RotationNames.

Ltac ascii_cases c := destruct c as [[] [] [] [] [] [] [] []].

Lemma noEsc_app (a b : string) : noEsc a -> noEsc b -> noEsc (a +:+ b).
Proof. unfold noEsc. intros Ha Hb. now rewrite hasChar_app, Ha, Hb. Qed.

Lemma noEsc_cons (c : ascii) (s : string) :
  Ascii.eqb c ESC = false -> noEsc s -> noEsc (String c s).
Proof. unfold noEsc. intros Hc Hs. cbn [hasChar]. now rewrite Hc, Hs. Qed.

Lemma plain_noEsc (s : string) : allChars plainChar s = true -> noEsc s.
Proof.
  induction s as [|c s IH]; [reflexivity|].
  cbn [allChars]. intros H. apply andb_true_iff in H as [Hc Hs].
  apply noEsc_cons; [|now apply IH]. now apply plainChar_facts in Hc.
Qed.

Lemma digitChar_not_esc (d : Z) : Ascii.eqb (digitChar d) ESC = false.
Proof.
  assert (H : plainChar (digitChar d) = true).
  { unfold plainChar. rewrite digitChar_isDigit. reflexivity. }
  destruct (plainChar_facts (digitChar d) H) as (_ & _ & _ & E). exact E.
Qed.

Lemma pad6_plain (n : Z) : allChars plainChar (pad6 n) = true.
Proof.
  unfold pad6. cbn [allChars]. rewrite pad4_plain. unfold plainChar.
  now rewrite !digitChar_isDigit.
Qed.

Lemma yearString_noEsc (y : Z) : noEsc (JsDate.yearString y).
Proof.
  unfold JsDate.yearString.
  destruct ((0 <=? y) && (y <=? 9999)); [apply plain_noEsc, pad4_plain|].
  apply noEsc_cons; [now destruct (y <? 0) | apply plain_noEsc, pad6_plain].
Qed.

Lemma toISOString_noEsc (t : Z) : noEsc (JsDate.toISOString t).
Proof.
  unfold JsDate.toISOString.
  apply noEsc_app; [apply yearString_noEsc|].
  apply noEsc_app; [reflexivity|].
  apply noEsc_app; [apply plain_noEsc, pad2_plain|].
  apply noEsc_app; [reflexivity|].
  apply noEsc_app; [apply plain_noEsc, pad2_plain|].
  apply noEsc_app; [reflexivity|].
  apply noEsc_app; [apply plain_noEsc, pad2_plain|].
  apply noEsc_app; [reflexivity|].
  apply noEsc_app; [apply plain_noEsc, pad2_plain|].
  apply noEsc_app; [reflexivity|].
  apply noEsc_app; [apply plain_noEsc, pad2_plain|].
  apply noEsc_app; [reflexivity|].
  apply noEsc_app; [apply plain_noEsc, pad3_plain|].
  reflexivity.
Qed.

Lemma hexDigit_not_esc (n : nat) : Ascii.eqb (Uuid.hexDigit n) ESC = false.
Proof. do 16 (destruct n as [|n]; [reflexivity|]). reflexivity. Qed.

Lemma uuid_noEsc (r : nat -> N) : noEsc (Uuid.format r).
Proof.
  unfold noEsc, Uuid.format, Uuid.hexByte. cbn [hasChar].
  rewrite !hexDigit_not_esc. reflexivity.
Qed.

Lemma escapeChar_noEsc (c : ascii) (rest : string) :
  hasChar ESC (escapeChar c rest) = hasChar ESC rest.
Proof. ascii_cases c; reflexivity. Qed.

Lemma escapeString_noEsc (s : string) : noEsc (escapeString s).
Proof.
  induction s as [|c s IH]; [reflexivity|].
  unfold noEsc. cbn [escapeString]. now rewrite escapeChar_noEsc.
Qed.

Lemma quote_noEsc (s : string) : noEsc (quote s).
Proof.
  unfold quote. apply noEsc_cons; [reflexivity|].
  apply noEsc_app; [apply escapeString_noEsc | reflexivity].
Qed.

Lemma digitsOf_noEsc (fuel : nat) : forall n acc, noEsc acc -> noEsc (digitsOf fuel n acc).
Proof.
  induction fuel as [|f IH]; intros n acc Ha; [exact Ha|].
  cbn [digitsOf].
  assert (noEsc (String (digitChar n) acc)) by (apply noEsc_cons; [apply digitChar_not_esc | exact Ha]).
  destruct (n / 10 =? 0); [assumption | now apply IH].
Qed.

Lemma showZ_noEsc (z : Z) : noEsc (showZ z).
Proof.
  unfold showZ. destruct (z <? 0).
  - apply noEsc_cons; [reflexivity|]. now apply digitsOf_noEsc.
  - now apply digitsOf_noEsc.
Qed.

Lemma joinComma_noEsc (parts : list string) :
  Forall noEsc parts -> noEsc (joinComma parts).
Proof.
  induction 1 as [|x l Hx Hl IH]; [reflexivity|].
  cbn [joinComma]. destruct l as [|y l]; [exact Hx|].
  apply noEsc_app; [exact Hx|]. apply noEsc_app; [reflexivity | exact IH].
Qed.

(** Induction on values, with the elements of arrays and the members
    of objects. *)
Lemma JsValue_nested_ind (P : JsValue -> Prop) :
  P JUndefined -> P JNull -> (forall b, P (JBool b)) -> (forall z, P (JNum z)) ->
  (forall s, P (JStr s)) -> (forall z, P (JBigInt z)) ->
  (forall items, Forall P items -> P (JArr items)) ->
  (forall props, Forall (fun kv => P (snd kv)) props -> P (JObj props)) ->
  P JBackRef ->
  forall v, P v.
Proof.
  intros HU HN HB HZ HS HBI HA HO HR.
  fix IH 1.
  intros [ | | b | z | s | z | items | props | ];
    [exact HU | exact HN | apply HB | apply HZ | apply HS | apply HBI | | | exact HR].
  - apply HA. induction items as [|x l IHl]; constructor; [apply IH | exact IHl].
  - apply HO. induction props as [|[k x] l IHl]; constructor; [apply IH | exact IHl].
Qed.

(** [JSON.stringify] never emits a raw escape character. *)
Lemma serialize_noEsc (v : JsValue) :
  forall t, serialize v = inl (Some t) -> noEsc t.
Proof.
  induction v as [ | | b | z | s | z | items IH | props IH | ] using JsValue_nested_ind;
    intros t H; cbn [serialize] in H; try discriminate.
  - injection H as <-. reflexivity.
  - injection H as <-. now destruct b.
  - injection H as <-. apply showZ_noEsc.
  - injection H as <-. apply quote_noEsc.
  - match type of H with
    | match ?e with _ => _ end = _ => destruct e as [ps|e'] eqn:E; [|discriminate]
    end.
    injection H as <-.
    apply noEsc_app; [reflexivity|]. apply noEsc_app; [|reflexivity].
    apply joinComma_noEsc.
    clear -IH E. revert ps E. induction IH as [|x l Hx Hl IHl]; intros ps E.
    + injection E as <-. constructor.
    + destruct (serialize x) as [o|] eqn:Ex; [|discriminate].
      match type of E with
      | match ?e with _ => _ end = _ => destruct e as [ps'|] eqn:E'; [|discriminate]
      end.
      injection E as <-. constructor; [|now apply IHl].
      destruct o as [t|]; [now apply Hx | reflexivity].
  - match type of H with
    | match ?e with _ => _ end = _ => destruct e as [ps|e'] eqn:E; [|discriminate]
    end.
    injection H as <-.
    apply noEsc_app; [reflexivity|]. apply noEsc_app; [|reflexivity].
    apply joinComma_noEsc.
    clear -IH E. revert ps E. induction IH as [|[k x] l Hx Hl IHl]; intros ps E.
    + injection E as <-. constructor.
    + cbn [snd] in Hx. destruct (serialize x) as [o|] eqn:Ex; [|discriminate].
      match type of E with
      | match ?e with _ => _ end = _ => destruct e as [ps'|] eqn:E'; [|discriminate]
      end.
      injection E as <-. destruct o as [t|]; [|now apply IHl].
      constructor; [|now apply IHl].
      apply noEsc_app; [apply quote_noEsc|]. apply noEsc_app; [reflexivity | now apply Hx].
Qed.

Lemma stringify_noEsc (props : list (string * JsValue)) (t : string) :
  stringify props = inl t -> noEsc t.
Proof.
  unfold stringify. destruct (serialize (JObj props)) as [o|] eqn:E; [|discriminate].
  intros H. injection H as <-. destruct o as [t|]; [|reflexivity].
  now apply (serialize_noEsc (JObj props)).
Qed.

Lemma metadataOk_noEsc (opts : LogOptions) (md : string) : metadataOk opts md -> noEsc md.
Proof.
  unfold metadataOk. destruct (metadata opts) as [m|].
  - apply stringify_noEsc.
  - intros ->. reflexivity.
Qed.

End EscapeFacts.

(* --------------------------------------------------------------------- *)
(** ** Removing colours                                                   *)
(* --------------------------------------------------------------------- *)

Section StripFacts.
Import Text Json Sys Logger Format.

Lemma ansiLength_not_esc (c : ascii) (s : string) :
  Ascii.eqb c ESC = false -> ansiLength (String c s) = None.
Proof. intros H. cbn [ansiLength]. destruct s; [reflexivity | now rewrite H]. Qed.

Lemma stripsTo_nil : stripsTo EmptyString EmptyString.
Proof. intros rest. reflexivity. Qed.

Lemma stripsTo_cons (c : ascii) (b b' : string) :
  Ascii.eqb c ESC = false -> stripsTo b b' -> stripsTo (String c b) (String c b').
Proof.
  intros Hc Hb rest. rewrite !app_cons_str. cbn [strip].
  rewrite (ansiLength_not_esc c _ Hc). now rewrite Hb.
Qed.

Lemma stripsTo_text (t : string) : noEsc t -> stripsTo t t.
Proof.
  unfold noEsc. induction t as [|c t IH]; intros H; [apply stripsTo_nil|].
  cbn [hasChar] in H. apply orb_false_iff in H as [Hc Ht].
  apply stripsTo_cons; [exact Hc | now apply IH].
Qed.

Lemma stripsTo_app (a a' b b' : string) :
  stripsTo a a' -> stripsTo b b' -> stripsTo (a +:+ b) (a' +:+ b').
Proof. intros Ha Hb rest. now rewrite !app_assoc_str, Ha, Hb. Qed.

Lemma stripsTo_drop (a b b' : string) :
  stripsTo a EmptyString -> stripsTo b b' -> stripsTo (a +:+ b) b'.
Proof. intros Ha Hb. exact (stripsTo_app a EmptyString b b' Ha Hb). Qed.

Lemma reset_strips : stripsTo reset EmptyString.
Proof. intros rest. reflexivity. Qed.

Lemma stripsTo_end (t : string) : noEsc t -> stripsTo (t +:+ reset) t.
Proof.
  intros Ht rest. rewrite app_assoc_str, (stripsTo_text t Ht), reset_strips.
  reflexivity.
Qed.

Lemma leftover_noEsc (c : string) : noEsc (leftover c).
Proof.
  unfold leftover. destruct (assoc c colorMap); [reflexivity|].
  unfold objectPrototype. cbn [assoc].
  repeat (match goal with
          | |- context [String.eqb c ?k] => destruct (String.eqb c k)
          end; [reflexivity|]).
  reflexivity.
Qed.

Lemma getColorCode_strips (c : string) : stripsTo (getColorCode c) (leftover c).
Proof.
  pose proof (leftover_noEsc c) as Hleft. revert Hleft.
  unfold getColorCode, leftover, colorMap. cbn [assoc].
  repeat (match goal with
          | |- context [String.eqb c ?k] => destruct (String.eqb c k)
          end; [intros _ rest; reflexivity|]).
  apply stripsTo_text.
Qed.

Lemma leftover_palette (c : string) : is_Some (assoc c colorMap) -> leftover c = EmptyString.
Proof. intros [code H]. unfold leftover. now rewrite H. Qed.

Lemma optionalColor_strips (o : option string) :
  stripsTo (from_option getColorCode EmptyString o) (from_option leftover EmptyString o).
Proof. destruct o; [apply getColorCode_strips | apply stripsTo_nil]. Qed.

Lemma optionalLeftover_noEsc (o : option string) :
  noEsc (from_option leftover EmptyString o).
Proof. destruct o; [apply leftover_noEsc | reflexivity]. Qed.

Lemma levelColor_strips (custom : option string) (cc : option CustomColors) (level : Level) :
  stripsTo (levelColorFor custom cc level) (levelLeftover custom cc level).
Proof.
  unfold levelColorFor, levelLeftover. destruct (truthy custom); [apply getColorCode_strips|].
  match goal with
  | |- context [match ?e with Some _ => _ | None => _ end] => destruct e
  end; [apply getColorCode_strips|].
  destruct level; intros rest; reflexivity.
Qed.

Lemma levelLeftover_noEsc (custom : option string) (cc : option CustomColors)
    (level : Level) : noEsc (levelLeftover custom cc level).
Proof.
  unfold levelLeftover. destruct (truthy custom); [apply leftover_noEsc|].
  match goal with
  | |- context [match ?e with Some _ => _ | None => _ end] => destruct e
  end; [apply leftover_noEsc | reflexivity].
Qed.

Lemma levelName_noEsc (level : Level) : noEsc (levelName level).
Proof. now destruct level. Qed.

(** Stripping a record made without colours gives the plain record
    and what is left of the colours named, provided the texts of the
    caller hold no escape character. *)
Lemma render_strips level msg opts cc (id md ts : string) :
  noEsc msg -> noEsc (functionName opts) -> noEsc id -> noEsc md -> noEsc ts ->
  (forall st, truthy (error_ opts ≫= stack) = Some st -> noEsc st) ->
  removeColors (render level msg opts false cc id md ts)
  = strippedRender level msg opts cc id md ts.
Proof.
  intros Hmsg Hfn Hid Hmd Hts Hst.
  pose proof (levelName_noEsc level) as Hlv.
  pose proof (levelColor_strips (customColor opts) cc level) as Hlc.
  pose proof (optionalColor_strips (truthy (fullLogColor opts))) as Hfull.
  pose proof (optionalColor_strips (truthy (logColor opts))) as Hmc.
  pose proof reset_strips as Hreset.
  pose proof stripsTo_nil as Hnil.
  assert (Hgoal : stripsTo (render level msg opts false cc id md ts)
                    (strippedRender level msg opts cc id md ts)).
  { unfold render, strippedRender. cbn zeta.
    set (fullColor := from_option getColorCode EmptyString (truthy (fullLogColor opts))) in *.
    set (fullText := from_option leftover EmptyString (truthy (fullLogColor opts))) in *.
    set (msgColor := from_option getColorCode EmptyString (truthy (logColor opts))) in *.
    set (msgText := from_option leftover EmptyString (truthy (logColor opts))) in *.
    set (levelColor := levelColorFor (customColor opts) cc level) in *.
    set (levelText := levelLeftover (customColor opts) cc level) in *.
    assert (Hout : stripsTo
      (fullColor +:+ EmptyString +:+ ts +:+ ":" +:+ reset +:+ " " +:+
       levelColor +:+ levelName level +:+ reset +:+ ": " +:+
       fullColor +:+ msgColor +:+ msg +:+ reset +:+
       String "010"
         (fullColor +:+ EmptyString +:+ "Trace Id: " +:+ id +:+ reset +:+
          String "010"
            (fullColor +:+ EmptyString +:+ "Function Name: " +:+ functionName opts +:+ reset +:+
             String "010"
               (fullColor +:+ EmptyString +:+ "Metadata: " +:+ md +:+ reset))))
      (fullText +:+ ts +:+ ":" +:+ " " +:+ levelText +:+ levelName level +:+ ": " +:+
       fullText +:+ msgText +:+ msg +:+ String "010"
       (fullText +:+ "Trace Id: " +:+ id +:+ String "010"
        (fullText +:+ "Function Name: " +:+ functionName opts +:+ String "010"
         (fullText +:+ "Metadata: " +:+ md))))).
    { repeat first
        [ apply stripsTo_app; [assumption|]
        | apply stripsTo_drop; [assumption|]
        | apply stripsTo_app; [apply stripsTo_text; first [assumption | reflexivity]|]
        | apply stripsTo_cons; [reflexivity|] ].
      apply stripsTo_end; assumption. }
    destruct (truthy (error_ opts ≫= stack)) as [st|] eqn:Est; [|exact Hout].
    apply stripsTo_app; [exact Hout|].
    specialize (Hst st eq_refl).
    apply stripsTo_cons; [reflexivity|].
    repeat first
        [ apply stripsTo_app; [assumption|]
        | apply stripsTo_drop; [assumption|]
        | apply stripsTo_app; [apply stripsTo_text; first [assumption | reflexivity]|] ].
    apply stripsTo_end; assumption. }
  unfold removeColors. specialize (Hgoal EmptyString).
  now rewrite !app_nil_r_str in Hgoal.
Qed.

Lemma strippedRender_noEsc level msg opts cc (id md ts : string) :
  noEsc msg -> noEsc (functionName opts) -> noEsc id -> noEsc md -> noEsc ts ->
  (forall st, truthy (error_ opts ≫= stack) = Some st -> noEsc st) ->
  noEsc (strippedRender level msg opts cc id md ts).
Proof.
  intros Hmsg Hfn Hid Hmd Hts Hst.
  pose proof (levelName_noEsc level) as Hlv.
  pose proof (levelLeftover_noEsc (customColor opts) cc level) as Hlt.
  pose proof (optionalLeftover_noEsc (truthy (fullLogColor opts))) as Hft.
  pose proof (optionalLeftover_noEsc (truthy (logColor opts))) as Hmt.
  unfold strippedRender. cbn zeta.
  set (fullText := from_option leftover EmptyString (truthy (fullLogColor opts))) in *.
  set (msgText := from_option leftover EmptyString (truthy (logColor opts))) in *.
  set (levelText := levelLeftover (customColor opts) cc level) in *.
  assert (Hout : noEsc
      (fullText +:+ ts +:+ ":" +:+ " " +:+ levelText +:+ levelName level +:+ ": " +:+
       fullText +:+ msgText +:+ msg +:+ String "010"
       (fullText +:+ "Trace Id: " +:+ id +:+ String "010"
        (fullText +:+ "Function Name: " +:+ functionName opts +:+ String "010"
         (fullText +:+ "Metadata: " +:+ md))))).
  { repeat first
      [ assumption
      | apply noEsc_app; [first [assumption | reflexivity]|]
      | apply noEsc_cons; [reflexivity|] ]. }
  destruct (truthy (error_ opts ≫= stack)) as [st|]; [|exact Hout].
  apply noEsc_app; [exact Hout|]. apply noEsc_cons; [reflexivity|].
  apply noEsc_app; [exact Hft|].
  apply noEsc_app; [reflexivity | now apply Hst].
Qed.

(** The record in the file carries the line of the identifier. *)
Lemma strippedRender_trace_line level msg opts cc (id md ts : string) :
  includes (strippedRender level msg opts cc id md ts) (fileTraceLine id) = true.
Proof.
  unfold strippedRender. cbn zeta.
  set (fullText := from_option leftover EmptyString (truthy (fullLogColor opts))).
  assert (H : forall rest, includes
     (fullText +:+ ts +:+ ":" +:+ " " +:+
      levelLeftover (customColor opts) cc level +:+ levelName level +:+ ": " +:+
      fullText +:+ from_option leftover EmptyString (truthy (logColor opts)) +:+ msg +:+
      String "010" (fullText +:+ "Trace Id: " +:+ id +:+ String "010" rest))
     (fileTraceLine id) = true).
  { intros rest. do 10 apply includes_app_r. apply includes_cons.
    apply includes_app_r. apply includes_here.
    unfold fileTraceLine. rewrite !startsWith_app_both. cbn [startsWith].
    rewrite Ascii.eqb_refl. now destruct rest. }
  destruct (truthy (error_ opts ≫= stack)); [apply includes_app_l|]; apply H.
Qed.

(** With colours of the palette nothing is left of the colours. *)
Lemma strippedRender_palette level msg opts (id md ts : string) :
  paletteOnly opts ->
  strippedRender level msg opts None id md ts = renderPlain level msg opts id md ts.
Proof.
  intros (Hc & Hl & Hf). unfold strippedRender, renderPlain, levelLeftover. cbn zeta.
  assert (Hfull : from_option leftover EmptyString (truthy (fullLogColor opts)) = EmptyString).
  { destruct (truthy (fullLogColor opts)) as [c|] eqn:E; [|reflexivity].
    cbn. apply leftover_palette. now apply Hf. }
  assert (Hmsg : from_option leftover EmptyString (truthy (logColor opts)) = EmptyString).
  { destruct (truthy (logColor opts)) as [c|] eqn:E; [|reflexivity].
    cbn. apply leftover_palette. now apply Hl. }
  assert (Hlevel : match truthy (customColor opts) with
                   | Some c => leftover c
                   | None => EmptyString
                   end = EmptyString).
  { destruct (truthy (customColor opts)) as [c|] eqn:E; [|reflexivity].
    apply leftover_palette. now apply Hc. }
  cbn [mbind option_bind]. rewrite Hfull, Hmsg, Hlevel. reflexivity.
Qed.

Lemma renderPlain_noEsc level msg opts (id md ts : string) :
  noEsc msg -> noEsc (functionName opts) -> noEsc id -> noEsc md -> noEsc ts ->
  (forall st, truthy (error_ opts ≫= stack) = Some st -> noEsc st) ->
  noEsc (renderPlain level msg opts id md ts).
Proof.
  intros Hmsg Hfn Hid Hmd Hts Hst.
  pose proof (levelName_noEsc level) as Hlv.
  unfold renderPlain. cbn zeta.
  assert (Hout : noEsc
      (ts +:+ ":" +:+ " " +:+ levelName level +:+ ": " +:+ msg +:+ String "010"
       ("Trace Id: " +:+ id +:+ String "010"
        ("Function Name: " +:+ functionName opts +:+ String "010"
         ("Metadata: " +:+ md))))).
  { repeat first
      [ assumption
      | apply noEsc_app; [first [assumption | reflexivity]|]
      | apply noEsc_cons; [reflexivity|] ]. }
  destruct (truthy (error_ opts ≫= stack)) as [st|]; [|exact Hout].
  apply noEsc_app; [exact Hout|]. apply noEsc_cons; [reflexivity|].
  apply noEsc_app; [reflexivity | now apply Hst].
Qed.

(** A string without escape character holds no colour sequence. *)
Lemma noEsc_no_ansi (s : string) : noEsc s -> containsAnsi s = false.
Proof.
  unfold noEsc. induction s as [|c s IH]; [reflexivity|].
  cbn [hasChar]. intros H. apply orb_false_iff in H as [Hc Hs].
  cbn [containsAnsi]. rewrite (IH Hs), (ansiLength_not_esc c s Hc).
  reflexivity.
Qed.

End StripFacts.

(* --------------------------------------------------------------------- *)
(** ** The file sink                                                      *)
(* --------------------------------------------------------------------- *)

Section FileSinkFacts.
Import Text Json Sys Logger Format.

(** [checkAndRotate] reports failures on the console and always
    returns. *)
Lemma checkAndRotate_returns (o : Rotator.RotationOptions) (p : Path) (w : World) :
  exists w1, Rotator.checkAndRotate o p w = (Returned tt, w1).
Proof.
  unfold Rotator.checkAndRotate. destruct (negb (Rotator.enabled o)); [now exists w|].
  unfold tryCatch.
  match goal with
  | |- context [match ?m w with _ => _ end] => destruct (m w) as [[[]|e] w1]
  end; eexists; reflexivity.
Qed.

(** The write of the file transport appends the text and a line feed
    to the file (created when missing, started afresh when just
    rotated). *)
Lemma fileTransportWrite_appends (L : CustomLogger) (p : Path) (data : string) (w : World) :
  exists w' before,
    fileTransportWrite L p data w = (Returned tt, w') /\
    content <$> fs w' !! p = Some (before +:+ data +:+ String "010" EmptyString).
Proof.
  destruct (checkAndRotate_returns (logRotator L) p w) as [w1 H1].
  unfold fileTransportWrite.
  eexists. exists (from_option content EmptyString (fs w1 !! p)).
  split.
  - apply run_tryCatch_returned. rewrite (run_bind_returned _ _ _ _ _ H1). reflexivity.
  - cbn [fs setFs]. rewrite lookup_insert_eq. cbn.
    destruct (fs w1 !! p); reflexivity.
Qed.

(** C10, as it holds.  With the colour flag false the output of
    [formatLog] still contains colour escape sequences: the level token is
    wrapped in the level colour and the reset code whatever the flag.  The
    logger passes [removeColors] of such an output to the file transport,
    which appends it, followed by a line feed, to the file.  Provided the
    message, the function name, the error stack and the ambient trace
    identifier hold no escape character, what is appended contains no
    escape character, hence no colour sequence; and when the colour
    options of the event, where given, name colours of the palette, it is
    the plain record. *)
Theorem C10_colours_and_file_sink level msg opts (L : CustomLogger) (p : Path) :
  (forall cc w w1 out,
     formatLog level msg opts false cc w = (Returned out, w1) ->
     containsAnsi out = true /\
     includes out (levelColorFor (customColor opts) cc level +:+ levelName level +:+ reset)
       = true) /\
  (forall w w1 fileLog,
     formatLog level msg opts false None w = (Returned fileLog, w1) ->
     (exists w2 before,
        fileTransportWrite L p (removeColors fileLog) w1 = (Returned tt, w2) /\
        content <$> fs w2 !! p
          = Some (before +:+ removeColors fileLog +:+ String "010" EmptyString)) /\
     (noEsc msg -> noEsc (functionName opts) ->
      (forall id, ambientId w = Some id -> noEsc id) ->
      (forall st, truthy (error_ opts ≫= stack) = Some st -> noEsc st) ->
      noEsc (removeColors fileLog) /\ containsAnsi (removeColors fileLog) = false /\
      (paletteOnly opts ->
       exists md, metadataOk opts md /\
         removeColors fileLog
         = renderPlain level msg opts (recordId w) md
             (JsDate.toISOString (clock w (ticks w)))))).
Proof.
  split.
  - intros cc w w1 out H. apply formatLog_returned in H as (md & _ & _ & ->).
    split; [apply render_contains_ansi | apply render_level_token].
  - intros w w1 fileLog H. split; [apply fileTransportWrite_appends|].
    intros Hmsg Hfn Hamb Hst.
    apply formatLog_returned in H as (md & Hmd & _ & ->).
    assert (Hid : noEsc (recordId w)).
    { unfold recordId. destruct (ambientId w) as [id|] eqn:E; cbn.
      - now apply Hamb.
      - apply uuid_noEsc. }
    pose proof (metadataOk_noEsc opts md Hmd) as Hmdn.
    pose proof (toISOString_noEsc (clock w (ticks w))) as Hts.
    rewrite (render_strips level msg opts None _ _ _ Hmsg Hfn Hid Hmdn Hts Hst).
    pose proof (strippedRender_noEsc level msg opts None _ _ _ Hmsg Hfn Hid Hmdn Hts Hst)
      as Hplain.
    split; [exact Hplain|]. split; [now apply noEsc_no_ansi|].
    intros Hpal. exists md. split; [exact Hmd|]. now apply strippedRender_palette.
Qed.

End FileSinkFacts.

(** A logger in [pro] mode writing to [logs/app.log], rotation off. *)
Module SinkExample.
Import Text Json Sys Logger.

Definition config : LoggerConfig :=
  {| mode := Some pro; logLevel := Some debug; filePath := Some ("logs", "app.log");
     colors := Some false; customColors := None; circuitBreaker := None;
     rotation := None; includeIp := None; includeUserAgent := None;
     includeParams := false; includeQueries := false;
     includeResponseHeaders := false; includeSendData := false |}.

Definition world : World :=
  {| clock := fun n => 1700000000123 + Z.of_nat n; ticks := 0; tzOffset := 0;
     entropy := fun d n => N.of_nat (16 * d + n); draws := 0; pid := 4242;
     traceStore := None; console := []; fs := ∅;
     breaker := Breaker.create 0 |}.

Definition options : LogOptions :=
  {| functionName := "jobs/run"; metadata := None; error_ := None;
     customColor := None; logColor := None; fullLogColor := None |}.

(** A message that holds its own escape characters: the reset code in
    the middle of an unfinished red code. *)
Definition crafted : string :=
  String ESC ("[3" +:+ reset +:+ "1mhello").

(** An object that refers to itself: [m.self = m]. *)
Definition circular : list (string * JsValue) := [("self", JBackRef)].

Definition withMetadata (m : list (string * JsValue)) : LogOptions :=
  {| functionName := "jobs/run"; metadata := Some m; error_ := None;
     customColor := None; logColor := None; fullLogColor := None |}.

(** [logger.init(config)] and one call. *)
Definition runLog (level : Level) (msg : string) (opts : LogOptions)
    : Outcome unit * World :=
  (L ← newCustomLogger config; log L level msg opts) world.

(** The file after [logger.init(config)] and one call. *)
Definition fileAfter (level : Level) (msg : string) (opts : LogOptions) : string :=
  from_option content EmptyString (fs (snd (runLog level msg opts)) !! ("logs", "app.log")).

End SinkExample.

(** C10 fails as stated: [removeColors] makes one pass, and dropping
    the reset code out of the crafted message leaves a red code in the
    line written to the file. *)
Lemma C10_counterexample :
  Logger.containsAnsi (SinkExample.fileAfter Logger.info SinkExample.crafted
                         SinkExample.options) = true /\
  Text.includes (SinkExample.fileAfter Logger.info SinkExample.crafted SinkExample.options)
    (Logger.red +:+ "hello") = true.
Proof. split; vm_compute; reflexivity. Qed.

(* --------------------------------------------------------------------- *)
(** ** What the sinks leave alone                                         *)
(* --------------------------------------------------------------------- *)

Module Frames.
Import Sys.

(** [w'] differs from [w] at most in the clock and generator
    positions, the file system, and console output added at the end:
    the ambient trace store and the breaker are the same. *)
Definition extends (w w' : World) : Prop :=
  traceStore w' = traceStore w /\ breaker w' = breaker w /\
  exists more, console w' = console w ++ more.

(** A computation that only extends the world, whatever its outcome. *)
Definition Frame {A} (m : M A) : Prop := forall w, extends w (snd (m w)).

End Frames.

Section FrameFacts.
Import Text Json Sys Logger Format Frames.

Lemma extends_refl (w : World) : extends w w.
Proof. split; [reflexivity|]. split; [reflexivity|]. exists []. now rewrite app_nil_r. Qed.

Lemma extends_trans (w1 w2 w3 : World) : extends w1 w2 -> extends w2 w3 -> extends w1 w3.
Proof.
  intros (S1 & B1 & m1 & C1) (S2 & B2 & m2 & C2).
  split; [congruence|]. split; [congruence|].
  exists (m1 ++ m2). now rewrite C2, C1, app_assoc.
Qed.

Lemma Frame_ret {A} (a : A) : Frame (mret a : M A).
Proof. intros w. apply extends_refl. Qed.

Lemma Frame_bind {A B} (m : M A) (f : A -> M B) :
  Frame m -> (forall a, Frame (f a)) -> Frame (m ≫= f).
Proof.
  intros Hm Hf w. rewrite run_bind. specialize (Hm w).
  destruct (m w) as [[a|e] w1]; cbn [snd] in *; [|exact Hm].
  exact (extends_trans _ _ _ Hm (Hf a w1)).
Qed.

Lemma Frame_tryCatch {A} (m : M A) (h : Exn -> M A) :
  Frame m -> (forall e, Frame (h e)) -> Frame (tryCatch m h).
Proof.
  intros Hm Hh w. unfold tryCatch. specialize (Hm w).
  destruct (m w) as [[a|e] w1]; cbn [snd] in *; [exact Hm|].
  exact (extends_trans _ _ _ Hm (Hh e w1)).
Qed.

Lemma Frame_if {A} (b : bool) (m1 m2 : M A) :
  Frame m1 -> Frame m2 -> Frame (if b then m1 else m2).
Proof. now destruct b. Qed.

Lemma Frame_get : Frame get.
Proof. intros w. apply extends_refl. Qed.

Lemma Frame_throw {A} (e : Exn) : Frame (throw e : M A).
Proof. intros w. apply extends_refl. Qed.

Lemma Frame_dateNow : Frame dateNow.
Proof. intros w. apply (extends_refl w). Qed.

Lemma Frame_uuidv4 : Frame uuidv4.
Proof. intros w. apply (extends_refl w). Qed.

Lemma Frame_consoleCall (m : ConsoleMethod) (a : list string) : Frame (consoleCall m a).
Proof. intros w. split; [reflexivity|]. split; [reflexivity|]. eexists. reflexivity. Qed.

Lemma Frame_existsSync (p : Path) : Frame (existsSync p).
Proof. intros w. apply extends_refl. Qed.

Lemma Frame_statSync (p : Path) : Frame (statSync p).
Proof. intros w. unfold statSync. destruct (fs w !! p); apply extends_refl. Qed.

Lemma Frame_readdirSync (d : string) : Frame (readdirSync d).
Proof. intros w. apply extends_refl. Qed.

Lemma Frame_appendFile (p : Path) (d : string) : Frame (appendFile p d).
Proof. intros w. apply (extends_refl w). Qed.

Lemma Frame_unlinkSync (p : Path) : Frame (unlinkSync p).
Proof.
  intros w. unfold unlinkSync. destruct (fs w !! p) as [f|]; [|apply extends_refl].
  destruct (busy f); [apply extends_refl | apply (extends_refl w)].
Qed.

Lemma Frame_renameSync (p q : Path) : Frame (renameSync p q).
Proof.
  intros w. unfold renameSync. destruct (fs w !! p) as [f|]; [|apply extends_refl].
  destruct (busy f); [apply extends_refl|].
  destruct (fs w !! q) as [g|]; [|apply (extends_refl w)].
  destruct (busy g); [apply extends_refl | apply (extends_refl w)].
Qed.

Lemma Frame_statEntries (dir : string) (names : list string) :
  Frame (Rotator.statEntries dir names).
Proof.
  induction names as [|n names IH]; [apply Frame_ret|].
  cbn [Rotator.statEntries].
  apply Frame_bind; [apply Frame_statSync|]. intros st.
  apply Frame_bind; [exact IH|]. intros es. apply Frame_ret.
Qed.

Lemma Frame_removeEntries (l : list Rotator.Entry) : Frame (Rotator.removeEntries l).
Proof.
  induction l as [|e l IH]; [apply Frame_ret|].
  cbn [Rotator.removeEntries].
  apply Frame_bind; [|intros _; exact IH].
  apply Frame_tryCatch; [apply Frame_unlinkSync | intros x; apply Frame_consoleCall].
Qed.

Lemma Frame_cleanupOldFiles o p : Frame (Rotator.cleanupOldFiles o p).
Proof.
  unfold Rotator.cleanupOldFiles.
  apply Frame_tryCatch; [|intros x; apply Frame_consoleCall].
  apply Frame_bind; [apply Frame_readdirSync|]. intros names.
  apply Frame_bind; [apply Frame_statEntries|]. intros es. cbn zeta.
  apply Frame_if; [apply Frame_removeEntries | apply Frame_ret].
Qed.

Lemma Frame_rotateFile p : Frame (Rotator.rotateFile p).
Proof.
  unfold Rotator.rotateFile. apply Frame_bind; [apply Frame_dateNow|]. intros now.
  apply Frame_tryCatch; [apply Frame_renameSync | intros x; apply Frame_consoleCall].
Qed.

Lemma Frame_checkAndRotate o p : Frame (Rotator.checkAndRotate o p).
Proof.
  unfold Rotator.checkAndRotate. apply Frame_if; [apply Frame_ret|].
  apply Frame_tryCatch; [|intros x; apply Frame_consoleCall].
  apply Frame_bind; [apply Frame_existsSync|]. intros ex.
  apply Frame_if; [apply Frame_ret|].
  apply Frame_bind; [apply Frame_statSync|]. intros st. cbn zeta.
  apply Frame_if; [|apply Frame_ret].
  apply Frame_bind; [apply Frame_rotateFile | intros _; apply Frame_cleanupOldFiles].
Qed.

Lemma Frame_fileTransportWrite L p data : Frame (fileTransportWrite L p data).
Proof.
  unfold fileTransportWrite.
  apply Frame_tryCatch; [|intros x; apply Frame_consoleCall].
  apply Frame_bind; [apply Frame_checkAndRotate | intros _; apply Frame_appendFile].
Qed.

Lemma Frame_formatLog level msg opts uc cc : Frame (formatLog level msg opts uc cc).
Proof.
  unfold formatLog.
  apply Frame_bind.
  { unfold currentTraceId. apply Frame_bind; [apply Frame_get|]. intros w0.
    destruct (truthy _); [apply Frame_ret | apply Frame_uuidv4]. }
  intros id. apply Frame_bind.
  { unfold metadataText. destruct (metadata opts) as [m|]; [|apply Frame_ret].
    destruct (stringify m); [apply Frame_ret | apply Frame_throw]. }
  intros md. apply Frame_bind; [|intros ts; apply Frame_ret].
  unfold getTimestamp. apply Frame_bind; [apply Frame_dateNow | intros t; apply Frame_ret].
Qed.

Lemma Frame_writeToConsole L level out c1 c2 c3 : Frame (writeToConsole L level out c1 c2 c3).
Proof.
  unfold writeToConsole. apply Frame_bind.
  { unfold getConsoleTimestamp. apply Frame_bind; [apply Frame_get|]. intros w0.
    apply Frame_bind; [apply Frame_dateNow | intros t; apply Frame_ret]. }
  intros ts. apply Frame_bind; [apply Frame_get|]. intros w0. apply Frame_consoleCall.
Qed.

End FrameFacts.

(* --------------------------------------------------------------------- *)
(** ** One [log] call                                                     *)
(* --------------------------------------------------------------------- *)

Module Emit.
Import Text Json Sys Logger.

(** The writes of one [log] call: console, then file. *)
Definition emit (L : CustomLogger) (level : Level) (msg : string) (opts : LogOptions)
    : M unit :=
  formattedLog ← formatLog level msg opts (useColors L) (Some (customLevelColors L));
  writeToConsole L level formattedLog (customColor opts) (logColor opts)
    (fullLogColor opts);;
  match fileTransport L with
  | Some p =>
      fileLog ← formatLog level msg opts false None;
      fileTransportWrite L p (removeColors fileLog)
  | None => mret tt
  end.

(** The feedback into the breaker at the end of [log]. *)
Definition bump (L : CustomLogger) (level : Level) : M unit :=
  if decide (level = error) then incrementErrorCount L else mret tt.

(** The world after the checks at the head of [log], when they let
    the event through. *)
Definition admitted (L : CustomLogger) (level : Level) (w : World) : World :=
  if decide (level = error) then
    if Breaker.isOpen (breaker w) then
      setBreaker (snd (Breaker.isEnabled (breakerOptions L) (clock w (ticks w)) (breaker w)))
        (setTicks (S (ticks w)) w)
    else w
  else w.

(** Whether the breaker stops an error event at the next clock
    reading. *)
Definition breakerBlocks (L : CustomLogger) (w : World) : bool :=
  Breaker.isOpen (breaker w)
  && negb (Breaker.circuitBreakerCooldown (breakerOptions L)
           <=? clock w (ticks w) - Breaker.lastResetTime (breaker w)).

End Emit.

Section LogFacts.
Import Text Json Sys Logger Format Frames Emit.

Lemma bind_assoc_run {A B C} (m : M A) (f : A -> M B) (g : B -> M C) (w : World) :
  ((m ≫= f) ≫= g) w = (m ≫= (fun a => f a ≫= g)) w.
Proof. rewrite !run_bind. destruct (m w) as [[a|e] w1]; reflexivity. Qed.

Lemma Frame_emit L level msg opts : Frame (emit L level msg opts).
Proof.
  unfold emit. apply Frame_bind; [apply Frame_formatLog|]. intros out.
  apply Frame_bind; [apply Frame_writeToConsole|]. intros _.
  destruct (fileTransport L) as [p|]; [|apply Frame_ret].
  apply Frame_bind; [apply Frame_formatLog | intros fl; apply Frame_fileTransportWrite].
Qed.

(** [log] is its checks, then the writes, then the feedback. *)
Lemma log_run L level msg opts (w : World) :
  log L level msg opts w =
    if negb (shouldLog L level) then (Returned tt, w)
    else if decide (level = error) then
      if breakerBlocks L w then (Returned tt, setTicks (S (ticks w)) w)
      else (emit L level msg opts ≫= fun _ => bump L level) (admitted L level w)
    else (emit L level msg opts ≫= fun _ => bump L level) w.
Proof.
  unfold log. destruct (negb (shouldLog L level)); [reflexivity|].
  assert (Hbody : forall w0,
    (formattedLog ← formatLog level msg opts (useColors L) (Some (customLevelColors L));
     writeToConsole L level formattedLog (customColor opts) (logColor opts)
       (fullLogColor opts);;
     match fileTransport L with
     | Some p =>
         fileLog ← formatLog level msg opts false None;
         fileTransportWrite L p (removeColors fileLog)
     | None => mret tt
     end;;
     (if decide (level = error) then incrementErrorCount L else mret tt)) w0
    = (emit L level msg opts ≫= fun _ => bump L level) w0).
  { intros w0. unfold emit, bump. rewrite bind_assoc_run, !run_bind.
    destruct (formatLog _ _ _ _ _ w0) as [[out|e] w1]; [|reflexivity].
    now rewrite bind_assoc_run. }
  unfold admitted, breakerBlocks.
  destruct (decide (level = error)) as [->|Hne].
  - rewrite run_bind. unfold isEnabled at 1. rewrite !run_bind. unfold get at 1.
    destruct (Breaker.isOpen (breaker w)) eqn:Ho; cbn [negb andb].
    + rewrite run_bind. unfold dateNow at 1. unfold Breaker.isEnabled. rewrite Ho.
      cbn [negb fst snd breaker setTicks].
      destruct (_ <=? _) eqn:Hc; cbn [negb].
      * rewrite run_bind. unfold modify at 1. rewrite !run_ret. apply Hbody.
      * rewrite run_bind. unfold modify at 1. rewrite !run_ret.
        destruct w; reflexivity.
    + rewrite !run_ret. apply Hbody.
  - rewrite run_bind, run_ret. apply Hbody.
Qed.

(** The writes, when the metadata serialises. *)
Lemma emit_ok L level msg opts (md : string) (w0 : World) :
  metadataOk opts md ->
  exists w3 prefix more,
    emit L level msg opts w0 = (Returned tt, w3) /\
    console w3 = console w0 ++
      [{| method := consoleMethodOf level;
          args := [prefix;
                   render level msg opts (useColors L) (Some (customLevelColors L))
                     (recordId w0) md (JsDate.toISOString (clock w0 (ticks w0)))] |}]
      ++ more /\
    breaker w3 = breaker w0 /\ traceStore w3 = traceStore w0 /\
    (forall p, fileTransport L = Some p ->
       exists before fileLog w2,
         formatLog level msg opts false None w2 = (Returned fileLog, afterFormat w2) /\
         content <$> fs w3 !! p
           = Some (before +:+ removeColors fileLog +:+ String "010" EmptyString)).
Proof.
  intros Hmd. unfold emit.
  rewrite (run_bind_returned _ _ _ _ _ (formatLog_ok level msg opts _ _ md w0 Hmd)).
  set (out := render level msg opts (useColors L) (Some (customLevelColors L))
                (recordId w0) md (JsDate.toISOString (clock w0 (ticks w0)))).
  rewrite run_bind.
  assert (Hcons : exists prefix w2,
            writeToConsole L level out (customColor opts) (logColor opts)
              (fullLogColor opts) (afterFormat w0) = (Returned tt, w2) /\
            console w2 = console w0 ++
              [{| method := consoleMethodOf level; args := [prefix; out] |}] /\
            breaker w2 = breaker w0 /\ traceStore w2 = traceStore w0).
  { unfold writeToConsole. eexists. eexists. split; [reflexivity|].
    cbn. destruct (afterId_clock w0) as (_ & _ & Hs & Hc & _ & Hb & _).
    rewrite Hc, Hb, Hs. auto. }
  destruct Hcons as (prefix & w2 & E2 & C2 & B2 & S2). rewrite E2.
  destruct (fileTransport L) as [p|].
  - rewrite (run_bind_returned _ _ _ _ _ (formatLog_ok level msg opts false None md w2 Hmd)).
    destruct (fileTransportWrite_appends L p
                (removeColors (render level msg opts false None (recordId w2) md
                                 (JsDate.toISOString (clock w2 (ticks w2)))))
                (afterFormat w2)) as (w3 & before & E3 & F3).
    pose proof (Frame_fileTransportWrite L p
                  (removeColors (render level msg opts false None (recordId w2) md
                                   (JsDate.toISOString (clock w2 (ticks w2)))))
                  (afterFormat w2)) as (S3 & B3 & more & C3).
    rewrite E3 in S3, B3, C3. cbn [snd] in S3, B3, C3.
    exists w3, prefix, more. split; [exact E3|].
    assert (Haf : console (afterFormat w2) = console w2 /\
                  breaker (afterFormat w2) = breaker w2 /\
                  traceStore (afterFormat w2) = traceStore w2).
    { unfold afterFormat. cbn. destruct (afterId_clock w2) as (_ & _ & -> & -> & _ & -> & _).
      auto. }
    destruct Haf as (Hc & Hb & Hs).
    split; [now rewrite C3, Hc, C2, <- app_assoc|].
    split; [congruence|]. split; [congruence|].
    intros p' Hp. injection Hp as <-.
    exists before,
      (render level msg opts false None (recordId w2) md
         (JsDate.toISOString (clock w2 (ticks w2)))), w2.
    split; [|exact F3].
    apply (formatLog_ok level msg opts false None md w2 Hmd).
  - exists w2, prefix, []. rewrite run_ret. split; [reflexivity|].
    rewrite app_nil_r. split; [exact C2|]. split; [exact B2|]. split; [exact S2|].
    intros p Hp. discriminate.
Qed.

(** The writes, when the metadata does not serialise: the exception
    leaves [formatLog] and nothing is written. *)
Lemma emit_throws L level msg opts m e (w0 : World) :
  metadata opts = Some m -> stringify m = inr e ->
  emit L level msg opts w0 = (Thrown e, afterId w0).
Proof.
  intros Hm He. unfold emit. apply run_bind_thrown.
  now apply formatLog_throws with (m := m).
Qed.

(** [incrementErrorCount] of the logger: the pure transition at the
    next clock reading, then the callback if the breaker opened. *)
Lemma bump_error_run L (w : World) :
  Breaker.isOpen (breaker w) = false ->
  bump L error w =
    let r := Breaker.incrementErrorCount (breakerOptions L) (clock w (ticks w)) (breaker w) in
    (match snd r with
     | O => mret tt
     | S _ => circuitBreakerCallback L
     end) (setBreaker (fst r) (setTicks (S (ticks w)) w)).
Proof.
  intros Ho. unfold bump. rewrite decide_True by reflexivity.
  unfold incrementErrorCount. rewrite run_bind. unfold get at 1. rewrite Ho.
  rewrite run_bind. unfold dateNow at 1. cbn [breaker setTicks].
  destruct (Breaker.incrementErrorCount _ _ _) as [b n]. cbn zeta. cbn [fst snd].
  rewrite run_bind. unfold modify at 1. reflexivity.
Qed.

End LogFacts.

Section LogContract.
Import Text Json Sys Logger Format Frames Emit.

(** What one [log] call does when serialising the metadata does not
    throw.  Below the configured level, and for an error event that the
    open breaker stops, nothing is formatted or written and the breaker is
    as before (the second case takes one clock reading).  Otherwise one
    record is printed on the console, the stripped record is appended to
    the file when there is a file transport, and afterwards the breaker
    takes its [incrementErrorCount] transition if and only if the level is
    [error]. *)
Lemma log_contract L level msg opts (w : World) :
  (shouldLog L level = false -> log L level msg opts w = (Returned tt, w)) /\
  (level = error -> shouldLog L level = true -> breakerBlocks L w = true ->
     log L level msg opts w = (Returned tt, setTicks (S (ticks w)) w)) /\
  (shouldLog L level = true -> (level = error -> breakerBlocks L w = false) ->
     forall md, metadataOk opts md ->
     exists w3 prefix more,
       emit L level msg opts (admitted L level w) = (Returned tt, w3) /\
       console w3 = console w ++
         [{| method := consoleMethodOf level;
             args := [prefix;
                      render level msg opts (useColors L) (Some (customLevelColors L))
                        (recordId (admitted L level w)) md
                        (JsDate.toISOString
                           (clock (admitted L level w) (ticks (admitted L level w))))] |}]
         ++ more /\
       (forall p, fileTransport L = Some p ->
          exists before fileLog w2,
            formatLog level msg opts false None w2 = (Returned fileLog, afterFormat w2) /\
            content <$> fs w3 !! p
              = Some (before +:+ removeColors fileLog +:+ String "010" EmptyString)) /\
       (level <> error ->
          log L level msg opts w = (Returned tt, w3) /\ breaker w3 = breaker w) /\
       (level = error ->
          Breaker.isOpen (breaker w3) = false /\
          log L level msg opts w =
            let r := Breaker.incrementErrorCount (breakerOptions L)
                       (clock w3 (ticks w3)) (breaker w3) in
            (match snd r with
             | O => mret tt
             | S _ => circuitBreakerCallback L
             end) (setBreaker (fst r) (setTicks (S (ticks w3)) w3)))).
Proof.
  split; [|split].
  - intros H. rewrite log_run, H. reflexivity.
  - intros -> Hs Hb. rewrite log_run, Hs, Hb. cbn [negb].
    now rewrite decide_True by reflexivity.
  - intros Hs Hgate md Hmd.
    destruct (emit_ok L level msg opts md (admitted L level w) Hmd)
      as (w3 & prefix & more & E & C & B & S & F).
    assert (Hcons : console (admitted L level w) = console w).
    { unfold admitted. destruct (decide (level = error)); [|reflexivity].
      destruct (Breaker.isOpen (breaker w)); reflexivity. }
    exists w3, prefix, more. split; [exact E|]. split; [now rewrite C, Hcons|].
    split; [exact F|]. split.
    + intros Hne. rewrite log_run, Hs. cbn [negb].
      rewrite decide_False by exact Hne.
      assert (Ha : admitted L level w = w) by (unfold admitted; now rewrite decide_False).
      rewrite Ha in E, B. rewrite (run_bind_returned _ _ _ _ _ E).
      unfold bump. rewrite decide_False by exact Hne. split; [reflexivity | exact B].
    + intros ->. specialize (Hgate eq_refl).
      assert (Hclosed : Breaker.isOpen (breaker (admitted L error w)) = false).
      { unfold admitted, breakerBlocks in *. rewrite decide_True by reflexivity.
        destruct (Breaker.isOpen (breaker w)) eqn:Ho; [|exact Ho].
        cbn [andb] in Hgate. apply negb_false_iff in Hgate.
        unfold Breaker.isEnabled. rewrite Ho. cbn [negb]. now rewrite Hgate. }
      rewrite B. split; [exact Hclosed|].
      rewrite log_run, Hs. cbn [negb]. rewrite decide_True by reflexivity.
      rewrite Hgate. rewrite (run_bind_returned _ _ _ _ _ E).
      rewrite <- B in Hclosed. rewrite (bump_error_run L w3 Hclosed). now rewrite B.
Qed.

(** What one [log] call does when serialising the metadata throws: an
    event that passes the checks makes the call throw; nothing reaches
    the console or the file and the breaker is not fed. *)
Lemma log_throws L level msg opts m e (w : World) :
  shouldLog L level = true -> (level = error -> breakerBlocks L w = false) ->
  metadata opts = Some m -> stringify m = inr e ->
  log L level msg opts w = (Thrown e, afterId (admitted L level w)) /\
  console (afterId (admitted L level w)) = console w /\
  fs (afterId (admitted L level w)) = fs w /\
  Breaker.errorCount (breaker (afterId (admitted L level w)))
    = Breaker.errorCount (breaker (admitted L level w)).
Proof.
  intros Hs Hgate Hm He. split.
  - rewrite log_run, Hs. cbn [negb].
    destruct (decide (level = error)) as [->|Hne].
    + rewrite (Hgate eq_refl). apply run_bind_thrown. now apply emit_throws with (m := m).
    + assert (Ha : admitted L level w = w) by (unfold admitted; now rewrite decide_False).
      rewrite Ha. apply run_bind_thrown. now apply emit_throws with (m := m).
  - destruct (afterId_clock (admitted L level w)) as (_ & _ & _ & -> & -> & -> & _).
    unfold admitted. destruct (decide (level = error)); [|auto].
    destruct (Breaker.isOpen (breaker w)); auto.
Qed.

End LogContract.

(** C2 on an input the code can receive: an error event with metadata
    that refers to itself, on a logger whose level admits it and whose
    breaker is closed.  The call throws; no record reaches the console or
    the file, and the failure count of the breaker stays 0. *)
Lemma C2_failing_input :
  let r := SinkExample.runLog Logger.error "payment failed"
             (SinkExample.withMetadata SinkExample.circular) in
  fst r = Sys.Thrown (Json.TypeError "Converting circular structure to JSON") /\
  Sys.console (snd r) = [] /\
  Sys.fs (snd r) !! ("logs", "app.log") = None /\
  Breaker.errorCount (Sys.breaker (snd r)) = 0 /\
  Breaker.isOpen (Sys.breaker (snd r)) = false.
Proof. vm_compute. repeat split. Qed.

(** C3 on an input the code can receive: metadata that refers to
    itself.  [formatLog] throws instead of falling back to a marker, and
    the exception leaves [logger.info]; the request middleware does fall
    back to a marker for such a body, and absent metadata does serialise
    as the empty object. *)
Lemma C3_failing_input :
  fst (Logger.formatLog Logger.info "saved"
         (SinkExample.withMetadata SinkExample.circular) true None SinkExample.world)
    = Sys.Thrown (Json.TypeError "Converting circular structure to JSON") /\
  fst (SinkExample.runLog Logger.info "saved"
         (SinkExample.withMetadata SinkExample.circular))
    = Sys.Thrown (Json.TypeError "Converting circular structure to JSON") /\
  Logger.bodyEntry (Json.JObj SinkExample.circular)
    = [("body", Json.JStr "[Unserializable Body]")] /\
  fst (Logger.metadataText SinkExample.options SinkExample.world) = Sys.Returned "{}".
Proof. vm_compute. repeat split. Qed.


(** ["10m"] is ten times [2^20] bytes. *)
Lemma C7_witness : Rotator.parseSize (Utf16.utf16 "10m") = Some 10485760.
Proof.
  refine (proj1 (proj2 (C7_parseSize_grammar (Utf16.utf16 "10m")))
            (Utf16.utf16 "10") (Some 20) _ _).
  - split; [discriminate|]. split; [reflexivity|]. split; [reflexivity|].
    exists [], (Utf16.utf16 "m"). split; [reflexivity|]. split; [|reflexivity].
    apply (SizeGrammar.Unit 109%N 20). reflexivity.
  - vm_compute. reflexivity.
Defined.

(** An ordinary message: the line written to the file has no escape
    character. *)
Lemma C10_witness :
  exists fileLog w1,
    Logger.formatLog Logger.info "job finished" SinkExample.options false None
      SinkExample.world = (Sys.Returned fileLog, w1) /\
    Logger.containsAnsi fileLog = true /\
    Format.noEsc (Logger.removeColors fileLog).
Proof.
  do 2 eexists. split; [reflexivity|].
  destruct (C10_colours_and_file_sink Logger.info "job finished" SinkExample.options
              (Logger.Build_CustomLogger None Breaker.defaultOptions Logger.defaultCallback
                 Rotator.defaultOptions 0 false (fun _ => None))
              ("logs", "app.log")) as [Hfirst Hsecond].
  split; [exact (proj1 (Hfirst None SinkExample.world _ _ eq_refl))|].
  destruct (Hsecond SinkExample.world _ _ eq_refl) as [_ Hplain].
  apply Hplain.
  - reflexivity.
  - reflexivity.
  - intros id Hid. vm_compute in Hid. discriminate Hid.
  - intros st Hst. vm_compute in Hst. discriminate Hst.
Defined.

(* ===================================================================== *)
(** * Further properties                                                  *)
(* ===================================================================== *)

(* --------------------------------------------------------------------- *)
(** ** The breaker under arbitrary use                                    *)
(* --------------------------------------------------------------------- *)

Module BreakerOps.
Import Breaker.

(** The calls a breaker can receive, each with the clock reading it
    takes ([getStatus] changes nothing and is left out). *)
Inductive Op :=
| OpIsEnabled (now : Z)
| OpFailure (now : Z)
| OpEnable (now : Z)
| OpTrip (now : Z).

Definition step (o : CircuitBreakerOptions) (b : LoggerCircuitBreaker) (op : Op)
    : LoggerCircuitBreaker :=
  match op with
  | OpIsEnabled t => snd (isEnabled o t b)
  | OpFailure t => fst (incrementErrorCount o t b)
  | OpEnable t => enable t b
  | OpTrip t => trip t b
  end.

Definition run (o : CircuitBreakerOptions) (ops : list Op) (b : LoggerCircuitBreaker)
    : LoggerCircuitBreaker :=
  fold_left (step o) ops b.

(** The count is between zero and the threshold, and below the
    threshold while the breaker is closed. *)
Definition countInRange (o : CircuitBreakerOptions) (b : LoggerCircuitBreaker) : Prop :=
  0 <= errorCount b <= circuitBreakerCount o /\
  (isOpen b = false -> errorCount b < circuitBreakerCount o).

(** Failures that each come more than [w] after the one before, the
    first more than [w] after [prev]. *)
Fixpoint sparse (w : Z) (prev : Z) (ts : list Z) : Prop :=
  match ts with
  | [] => True
  | t :: ts' => w < t - prev /\ sparse w t ts'
  end.

End BreakerOps.

Section BreakerMore.
Import Breaker BreakerOps.
Variable o : CircuitBreakerOptions.

Lemma step_countInRange (b : LoggerCircuitBreaker) (op : Op) :
  1 <= circuitBreakerCount o -> countInRange o b -> countInRange o (step o b op).
Proof.
  intros HT [[H0 HT'] Hc]. destruct op as [t|t|t|t]; cbn [step].
  - unfold isEnabled. destruct (isOpen b) eqn:Ho; cbn [negb].
    + destruct (circuitBreakerCooldown o <=? t - lastResetTime b); cbn [snd].
      * split; cbn; [lia|intros _; lia].
      * split; [lia|]. rewrite Ho. discriminate.
    + cbn [snd]. split; [lia | intros _; now apply Hc].
  - unfold incrementErrorCount. destruct (isOpen b) eqn:Ho.
    + cbn [fst]. split; [lia|]. rewrite Ho. discriminate.
    + specialize (Hc eq_refl). cbn zeta.
      destruct (circuitBreakerTime o <? t - lastResetTime b).
      * destruct (Z.leb_spec (circuitBreakerCount o) 1); cbn [fst];
          (split; cbn; [lia | intros; first [discriminate | lia]]).
      * destruct (Z.leb_spec (circuitBreakerCount o) (errorCount b + 1)); cbn [fst];
          (split; cbn; [lia | intros; first [discriminate | lia]]).
  - unfold enable. split; cbn; [lia | intros _; lia].
  - unfold trip. split; cbn; [lia | discriminate].
Qed.

(** X1.  With a threshold of at least one, whatever calls a breaker
    receives after its creation, and at whatever clock readings, its
    failure count stays between zero and the threshold, and stays below
    the threshold while the breaker is closed. *)
Theorem breaker_count_in_range (ops : list Op) (t0 : Z) :
  1 <= circuitBreakerCount o ->
  countInRange o (run o ops (create t0)).
Proof.
  intros HT. unfold run.
  assert (H0 : countInRange o (create t0)) by (split; cbn; [lia | intros _; lia]).
  revert H0. generalize (create t0). induction ops as [|op ops IH]; intros b Hb; [exact Hb|].
  cbn [fold_left]. apply IH. now apply step_countInRange.
Qed.

(** X2.  The snapshot of [getStatus] agrees with [isEnabled]: the
    remaining cooldown is never negative, is zero for a closed breaker,
    and for an open breaker is zero exactly when [isEnabled], called at the
    same clock reading, would answer true; it is positive and at most the
    cooldown while the breaker is open and the cooldown has not passed. *)
Theorem status_agrees_with_isEnabled (now1 now2 : Z) (b : LoggerCircuitBreaker) :
  let s := getStatus o now1 now2 b in
  0 <= st_remainingCooldown s /\
  (isOpen b = false -> st_remainingCooldown s = 0) /\
  (isOpen b = true ->
     (st_remainingCooldown s = 0 <-> fst (isEnabled o now2 b) = true)) /\
  (isOpen b = true -> lastResetTime b <= now2 -> fst (isEnabled o now2 b) = false ->
     0 < st_remainingCooldown s <= circuitBreakerCooldown o) /\
  st_isOpen s = isOpen b /\ st_errorCount s = errorCount b /\
  st_timeSinceLastReset s = now1 - lastResetTime b.
Proof.
  cbn zeta. unfold getStatus. cbn [st_remainingCooldown st_isOpen st_errorCount
    st_timeSinceLastReset].
  split; [destruct (isOpen b); lia|].
  split; [now intros ->|].
  split.
  { intros Ho. rewrite Ho. unfold isEnabled. rewrite Ho. cbn [negb].
    destruct (Z.leb_spec (circuitBreakerCooldown o) (now2 - lastResetTime b));
      cbn [fst]; split; intros Hx; try reflexivity; try discriminate; lia. }
  split; [|auto].
  intros Ho Hle. rewrite Ho. unfold isEnabled. rewrite Ho. cbn [negb].
  destruct (Z.leb_spec (circuitBreakerCooldown o) (now2 - lastResetTime b));
    cbn [fst]; intros Hx; [discriminate | lia].
Qed.

(** X3.  With a threshold of at least two, failures that each come
    more than the window after the one before never open a closed breaker
    and never invoke the callback, however many they are: each one
    restarts the count at one. *)
Theorem sparse_failures_never_trip (ts : list Z) (b : LoggerCircuitBreaker) :
  2 <= circuitBreakerCount o ->
  isOpen b = false ->
  sparse (circuitBreakerTime o) (lastResetTime b) ts ->
  isOpen (fst (recordFailures o ts b)) = false /\
  snd (recordFailures o ts b) = 0%nat /\
  (ts <> [] ->
     errorCount (fst (recordFailures o ts b)) = 1 /\
     lastResetTime (fst (recordFailures o ts b)) = List.last ts (lastResetTime b)).
Proof.
  intros HT. revert b. induction ts as [|t ts IH]; intros b Hc Hs.
  - cbn. split; [exact Hc|]. split; [reflexivity|]. intros H. now destruct H.
  - cbn [sparse] in Hs. destruct Hs as [Hgap Hs].
    cbn [recordFailures].
    rewrite (incrementErrorCount_stale o t b Hc Hgap).
    destruct (Z.leb_spec (circuitBreakerCount o) 1) as [Hbad|_]; [lia|].
    set (b1 := {| errorCount := 1; lastResetTime := t; isOpen := false |}).
    destruct (IH b1 eq_refl Hs) as (I1 & I2 & I3).
    destruct (recordFailures o ts b1) as [b2 c2] eqn:E. cbn [fst snd] in *.
    split; [exact I1|]. split; [now rewrite I2|]. intros _.
    destruct ts as [|t' ts'].
    + cbn in E. injection E as <- <-. now cbn.
    + destruct (I3 ltac:(discriminate)) as [J1 J2]. split; [exact J1|].
      rewrite J2. cbn [lastResetTime b1]. symmetry. apply last_cons_default.
Qed.

(** X4.  After [trip()] at clock reading [s], whatever failures are
    recorded meanwhile, [isEnabled] at reading [t] answers true exactly
    when the cooldown has passed since [s]: failures recorded while the
    breaker is open do not prolong the suppression.  The call that answers
    true closes the breaker and sets the count to zero. *)
Theorem trip_suppresses_for_cooldown (s t : Z) (ts : list Z) (b : LoggerCircuitBreaker) :
  let b' := fst (recordFailures o ts (trip s b)) in
  fst (isEnabled o t b') = (circuitBreakerCooldown o <=? t - s) /\
  snd (recordFailures o ts (trip s b)) = 0%nat /\
  (circuitBreakerCooldown o <= t - s ->
     isOpen (snd (isEnabled o t b')) = false /\
     errorCount (snd (isEnabled o t b')) = 0) /\
  (t - s < circuitBreakerCooldown o -> snd (isEnabled o t b') = b').
Proof.
  cbn zeta. rewrite (recordFailures_open o ts (trip s b) eq_refl). cbn [fst snd].
  unfold isEnabled, trip. cbn [isOpen lastResetTime negb].
  destruct (Z.leb_spec (circuitBreakerCooldown o) (t - s)); cbn [fst snd isOpen errorCount].
  - repeat split; auto; lia.
  - repeat split; auto; lia.
Qed.

End BreakerMore.

Lemma breaker_count_in_range_witness :
  BreakerOps.countInRange Breaker.defaultOptions
    (BreakerOps.run Breaker.defaultOptions
       [BreakerOps.OpFailure 10; BreakerOps.OpFailure 20; BreakerOps.OpTrip 30;
        BreakerOps.OpIsEnabled 70000; BreakerOps.OpFailure 70001; BreakerOps.OpEnable 70002]
       (Breaker.create 0)).
Proof.
  apply (breaker_count_in_range Breaker.defaultOptions). vm_compute. discriminate.
Defined.

Lemma sparse_failures_never_trip_witness :
  Breaker.isOpen (fst (Breaker.recordFailures Breaker.defaultOptions
                         [40000; 80000; 120000; 160000; 200000; 240000]
                         (Breaker.create 0))) = false /\
  snd (Breaker.recordFailures Breaker.defaultOptions
         [40000; 80000; 120000; 160000; 200000; 240000] (Breaker.create 0)) = 0%nat.
Proof.
  destruct (sparse_failures_never_trip Breaker.defaultOptions
              [40000; 80000; 120000; 160000; 200000; 240000] (Breaker.create 0))
    as (H1 & H2 & _).
  - vm_compute. discriminate.
  - reflexivity.
  - cbn. lia.
  - split; [exact H1 | exact H2].
Defined.

(* --------------------------------------------------------------------- *)
(** ** Rotation and retention together                                    *)
(* --------------------------------------------------------------------- *)

Module Sink.
Import Text Json Sys Logger.

(** The console call made when the rename of the active file fails. *)
Definition rotateFailure (e : Exn) : ConsoleCall :=
  {| method := ConsoleError; args := ["Failed to rotate log file:"; showExn e] |}.

End Sink.

Section RotationMore.
Import Text Json Sys Rotator Retention Logger Frames SizeGrammar Sink.

Lemma nearest_mant_nonneg (p q m e : Z) :
  0 <= p -> 0 < q -> Double.nearest p q = Double.Finite m e -> 0 <= m.
Proof.
  intros Hp Hq. unfold Double.nearest.
  destruct (p =? 0); [intros H; injection H as <- <-; lia|].
  cbv zeta.
  set (e0 := Z.max (Double.floorLog2 p q - 52) (-1074)).
  set (num := if 0 <=? e0 then p else p * 2 ^ (- e0)).
  set (den := if 0 <=? e0 then q * 2 ^ e0 else q).
  assert (Hnum : 0 <= num).
  { unfold num. destruct (Z.leb_spec 0 e0); [lia|].
    apply Z.mul_nonneg_nonneg; [lia|]. apply Z.pow_nonneg. lia. }
  assert (Hden : 0 < den).
  { unfold den. destruct (Z.leb_spec 0 e0); [|lia].
    apply Z.mul_pos_pos; [lia|]. apply Z.pow_pos_nonneg; lia. }
  assert (H0 : 0 <= num / den) by (apply Z.div_pos; lia).
  destruct ((den <? 2 * (num mod den)) || ((den =? 2 * (num mod den)) && Z.odd (num / den)));
    match goal with |- context [if ?c then Double.Infinity else _] => destruct c end;
    intros H; try discriminate H; injection H as <- <-; lia.
Qed.

(** The parsed limit is never negative. *)
Lemma parseSize_nonneg (s : list N) (k : Z) : parseSize s = Some k -> 0 <= k.
Proof.
  unfold parseSize. destruct (matchSize (Utf16.toLowerCase s)) as [[[int frac] u]|] eqn:E.
  - apply matchSize_sound in E as (_ & Hi & Hf & _).
    unfold parseFloat.
    destruct (Double.nearest _ _) as [m e|] eqn:En; [|discriminate].
    apply nearest_mant_nonneg in En;
      [| apply digitsValue_nonneg; [apply digitsValue_nonneg; [lia | exact Hi] | exact Hf]
       | apply Z.pow_pos_nonneg; lia].
    unfold Double.scale.
    match goal with |- context [if ?c then Double.Infinity else _] => destruct c end;
      [discriminate|].
    cbn [Double.floor]. intros H. injection H as <-.
    destruct (Z.leb_spec 0 (e + default 0 u)).
    + apply Z.mul_nonneg_nonneg; [lia | apply Z.pow_nonneg; lia].
    + apply Z.div_pos; [lia | apply Z.pow_pos_nonneg; lia].
  - intros H. injection H as <-. lia.
Qed.

(** X5.  The limit [parseSize] yields is never negative, so an empty
    log file is never rotated, whatever the [maxSize] text: [checkAndRotate]
    on an empty file changes nothing and reports nothing. *)
Theorem empty_file_never_rotated (o : RotationOptions) (p : Path) (w : World) (f : File) :
  fs w !! p = Some f -> content f = EmptyString ->
  checkAndRotate o p w = (Returned tt, w).
Proof.
  intros Hf Hc. unfold checkAndRotate. destruct (enabled o); [|reflexivity]. cbn [negb].
  apply run_tryCatch_returned. rewrite run_bind. unfold existsSync at 1.
  rewrite Hf, bool_decide_eq_true_2 by eauto. cbn [negb].
  rewrite (run_bind_returned _ _ _ _ _ (statSync_some _ _ _ Hf)). cbn [fst].
  rewrite Hc. change (Z.of_nat (String.length EmptyString)) with 0.
  destruct (parseSize (maxSize o)) as [k|] eqn:E; cbn [Double.gtFloor]; [|reflexivity].
  apply parseSize_nonneg in E. destruct (Z.ltb_spec k 0); [lia | reflexivity].
Qed.

(** The entries [cleanupOldFiles] tries to unlink. *)
Definition doomed (o : RotationOptions) (filePath : Path) (w : World) : list Entry :=
  let sorted := sortNewestFirst
                  (entryOf (fs w) (fst filePath) <$> siblingNames (fs w) filePath) in
  if maxFiles o <? Z.of_nat (length sorted) then slice (maxFiles o) sorted else [].

(** [cleanupOldFiles] for any [maxFiles], negative ones included. *)
Lemma cleanupOldFiles_any (o : RotationOptions) (filePath : Path) (w : World) :
  exists w',
    cleanupOldFiles o filePath w = (Returned tt, w') /\
    (forall q, fs w' !! q =
       if decide (q ∈ path <$> doomed o filePath w)
       then afterUnlink (fs w !! q) else fs w !! q).
Proof.
  unfold cleanupOldFiles.
  assert (Hstat : statEntries (fst filePath)
            (filter (fun f => isSibling filePath f = true) (dirNames (fs w) (fst filePath))) w
          = (Returned (entryOf (fs w) (fst filePath) <$> siblingNames (fs w) filePath), w)).
  { apply statEntries_ok. intros n Hn. now apply elem_of_siblingNames in Hn as [_ Hn]. }
  destruct (removeEntries_spec (doomed o filePath w) w) as (w' & E & F & _).
  exists w'. split; [|exact F].
  apply run_tryCatch_returned. rewrite run_bind. unfold readdirSync at 1.
  rewrite run_bind, Hstat. cbn zeta. unfold doomed in E.
  destruct (maxFiles o <? _); exact E.
Qed.

Lemma sorted_entries (filePath : Path) (w : World) (e : Entry) :
  e ∈ sortNewestFirst (entryOf (fs w) (fst filePath) <$> siblingNames (fs w) filePath) ->
  e = entryOf (fs w) (fst filePath) (name e) /\ name e ∈ siblingNames (fs w) filePath.
Proof.
  intros He. rewrite sortNewestFirst_perm in He.
  apply list_elem_of_fmap in He as (n & -> & Hn). now split.
Qed.

Lemma slice_subseteq {A} (k : Z) (l : list A) : slice k l ⊆ l.
Proof. unfold slice. destruct (k <? 0); apply subseteq_drop. Qed.

Lemma doomed_sorted (o : RotationOptions) (filePath : Path) (w : World) (e : Entry) :
  e ∈ doomed o filePath w ->
  e ∈ sortNewestFirst (entryOf (fs w) (fst filePath) <$> siblingNames (fs w) filePath).
Proof.
  unfold doomed. cbn zeta. destruct (maxFiles o <? _); intros He.
  - now apply (slice_subseteq (maxFiles o)).
  - now apply elem_of_nil in He.
Qed.

(** Only entries that pass the filter are ever unlinked. *)
Lemma doomed_siblings (o : RotationOptions) (filePath q : Path) (w : World) :
  q ∈ path <$> doomed o filePath w ->
  fst q = fst filePath /\ snd q ∈ siblingNames (fs w) filePath.
Proof.
  intros Hq. apply list_elem_of_fmap in Hq as (e & -> & He).
  apply doomed_sorted, sorted_entries in He as [Ee Hn].
  rewrite Ee. cbn. now split.
Qed.

Lemma cleanupOldFiles_active (o : RotationOptions) (filePath : Path) (w : World) :
  exists w',
    cleanupOldFiles o filePath w = (Returned tt, w') /\
    fs w' !! filePath = fs w !! filePath.
Proof.
  destruct (cleanupOldFiles_any o filePath w) as (w' & E & F).
  exists w'. split; [exact E|]. rewrite F. case_decide as Hin; [|reflexivity].
  apply doomed_siblings in Hin as [_ Hin].
  now apply active_not_sibling in Hin.
Qed.

(** An oversized file that can be renamed: [checkAndRotate] is the
    rename followed by the cleanup. *)
Lemma checkAndRotate_rotates (o : RotationOptions) (p : Path) (w : World) (f : File) :
  enabled o = true -> fs w !! p = Some f ->
  Double.gtFloor (Z.of_nat (String.length (content f))) (parseSize (maxSize o)) = true ->
  busy f = false ->
  (forall g, fs w !! rotatedPath p (clock w (ticks w)) = Some g -> busy g = false) ->
  checkAndRotate o p w = cleanupOldFiles o p (afterRotation p f w).
Proof.
  intros He Hf Hsz Hb Ht.
  destruct (cleanupOldFiles_any o p (afterRotation p f w)) as (w' & E & _).
  rewrite E. unfold checkAndRotate. rewrite He. cbn [negb].
  apply run_tryCatch_returned. rewrite run_bind. unfold existsSync at 1.
  rewrite Hf, bool_decide_eq_true_2 by eauto. cbn [negb].
  rewrite (run_bind_returned _ _ _ _ _ (statSync_some _ _ _ Hf)). cbn [fst]. rewrite Hsz.
  rewrite (run_bind_returned _ _ _ _ _ (rotateFile_ok p f w Hf Hb Ht)). exact E.
Qed.

Lemma rotated_split (p : Path) (now : Z) :
  rotatedPath p now = (fst p, snd (rotatedPath p now)).
Proof. reflexivity. Qed.

(** X6.  Rotation at the retention limit keeps the log just rotated.
    When an oversized active file is rotated with [maxFiles >= 1], and the
    active file was modified after every other entry of its directory
    that the cleanup selects, that is every other entry whose name starts
    with the base name of the active file and ends with its extension,
    be it a rotated log or not, then, however many such entries there
    are, the cleanup that follows does not remove the file just rotated:
    it is there with the content of the active file, and the active path
    is free. *)
Theorem rotated_log_survives_cleanup (o : RotationOptions) (p : Path) (w : World)
    (f : File) :
  enabled o = true -> fs w !! p = Some f ->
  Double.gtFloor (Z.of_nat (String.length (content f))) (parseSize (maxSize o)) = true ->
  busy f = false ->
  (forall g, fs w !! rotatedPath p (clock w (ticks w)) = Some g -> busy g = false) ->
  1 <= maxFiles o ->
  (forall n, is_Some (fs w !! (fst p, n)) ->
     startsWith n (basenameExt (snd p) (extname (snd p))) = true ->
     endsWith n (extname (snd p)) = true ->
     n <> snd p ->
     n <> snd (rotatedPath p (clock w (ticks w))) ->
     mtimeOf (fs w) (fst p, n) < mtime f) ->
  exists w',
    checkAndRotate o p w = (Returned tt, w') /\
    fs w' !! p = None /\
    fs w' !! rotatedPath p (clock w (ticks w)) = Some f.
Proof.
  intros He Hf Hsz Hb Ht HN Hall.
  assert (Hnew : forall n, n ∈ siblingNames (fs w) p ->
            n <> snd (rotatedPath p (clock w (ticks w))) ->
            mtimeOf (fs w) (fst p, n) < mtime f).
  { intros n Hn Hne. apply selected_iff in Hn as (H1 & H2 & H3 & H4). now apply Hall. }
  clear Hall.
  set (target := rotatedPath p (clock w (ticks w))) in *.
  set (w1 := afterRotation p f w).
  assert (Hfs1 : fs w1 = <[target := f]> (delete p (fs w))) by reflexivity.
  assert (Hp1 : fs w1 !! p = None).
  { rewrite Hfs1, lookup_insert_ne by apply rotated_ne. apply lookup_delete_eq. }
  assert (Ht1 : fs w1 !! target = Some f) by (rewrite Hfs1; apply lookup_insert_eq).
  destruct (cleanupOldFiles_any o p w1) as (w' & E & F).
  exists w'. split; [rewrite (checkAndRotate_rotates o p w f He Hf Hsz Hb Ht); exact E|].
  split; [rewrite F, Hp1; now destruct (decide _)|].
  rewrite F, Ht1. rewrite decide_False; [reflexivity|].
  intros Hin. apply list_elem_of_fmap in Hin as (e & Hpe & Hed).
  pose proof (doomed_sorted _ _ _ _ Hed) as Hes.
  destruct (sorted_entries _ _ _ Hes) as [Ee _].
  assert (Hname : name e = snd target).
  { rewrite Ee in Hpe. cbn in Hpe. unfold target in Hpe. rewrite rotated_split in Hpe.
    now injection Hpe as <-. }
  assert (Htime : time e = mtime f).
  { rewrite Ee. unfold entryOf. cbn [time]. rewrite Hname. unfold mtimeOf.
    change (fst p, snd target) with target. now rewrite Ht1. }
  unfold doomed in Hed. cbn zeta in Hed.
  set (sorted := sortNewestFirst (entryOf (fs w1) (fst p) <$> siblingNames (fs w1) p)) in *.
  destruct (maxFiles o <? Z.of_nat (length sorted)); [|now apply elem_of_nil in Hed].
  rewrite slice_nonneg in Hed by lia.
  assert (Hnd : NoDup (name <$> sorted)).
  { assert (Hnames : name <$> (entryOf (fs w1) (fst p) <$> siblingNames (fs w1) p)
                      = siblingNames (fs w1) p)
      by (rewrite <- list_fmap_compose; apply list_fmap_id).
    unfold sorted. rewrite sortNewestFirst_perm, Hnames. apply NoDup_siblingNames. }
  pose proof (sortNewestFirst_sorted
                (entryOf (fs w1) (fst p) <$> siblingNames (fs w1) p)) as Hs.
  fold sorted in Hs.
  destruct sorted as [|x rest] eqn:Esorted; [now apply elem_of_nil in Hes|].
  replace (Z.to_nat (maxFiles o)) with (S (Z.to_nat (maxFiles o - 1))) in Hed by lia.
  cbn [drop] in Hed. apply (subseteq_drop _ rest) in Hed.
  apply StronglySorted_inv in Hs as [_ Hall].
  rewrite Forall_forall in Hall. specialize (Hall e Hed). unfold newerEq in Hall.
  cbn [fmap list_fmap] in Hnd. apply NoDup_cons in Hnd as [Hnx _].
  assert (Hxe : name x <> snd target).
  { intros Eq. apply Hnx. rewrite Eq, <- Hname. apply list_elem_of_fmap. now exists e. }
  assert (Hxs : x ∈ sortNewestFirst (entryOf (fs w1) (fst p) <$> siblingNames (fs w1) p)).
  { change (x ∈ sorted). rewrite Esorted. left. }
  destruct (sorted_entries _ _ _ Hxs) as [Ex Hxn].
  rewrite Hfs1 in Hxn.
  apply (siblings_after_rename (fs w) p target f (name x) eq_refl
           (rotated_is_sibling p (clock w (ticks w)))) in Hxn as [Hxn|Hxn];
    [contradiction|].
  assert (Hxt : time x = mtimeOf (fs w) (fst p, name x)).
  { rewrite Ex. unfold entryOf. cbn [time]. unfold mtimeOf. rewrite Hfs1.
    rewrite lookup_insert_ne.
    2:{ unfold target. rewrite rotated_split. intros Eq. injection Eq as Eq. now apply Hxe. }
    rewrite lookup_delete_ne; [reflexivity|].
    intros Eq. apply (active_not_sibling (fs w) p).
    apply (f_equal snd) in Eq. cbn [snd] in Eq. rewrite Eq. exact Hxn. }
  specialize (Hnew (name x) Hxn Hxe). lia.
Qed.

End RotationMore.

Section RetentionMore.
Import Text Json Sys Rotator Retention Logger Frames Sink.

Lemma doomed_zero (o : RotationOptions) (filePath : Path) (w : World) :
  maxFiles o = 0 ->
  doomed o filePath w
  = sortNewestFirst (entryOf (fs w) (fst filePath) <$> siblingNames (fs w) filePath).
Proof.
  intros H0. unfold doomed. cbn zeta. rewrite H0.
  destruct (sortNewestFirst _) as [|x rest]; reflexivity.
Qed.

Lemma sorted_paths (filePath : Path) (w : World) (n : string) :
  n ∈ siblingNames (fs w) filePath ->
  (fst filePath, n) ∈
    path <$> sortNewestFirst (entryOf (fs w) (fst filePath) <$> siblingNames (fs w) filePath).
Proof.
  intros Hn. apply list_elem_of_fmap. exists (entryOf (fs w) (fst filePath) n).
  split; [reflexivity|]. rewrite sortNewestFirst_perm.
  apply list_elem_of_fmap. now exists n.
Qed.

(** X7.  With [maxFiles = 0] nothing is retained: when an oversized
    active file is rotated, the cleanup that follows unlinks every rotated
    sibling, the file just rotated included, so the content of the active
    file is discarded.  (Only entries the platform refuses to unlink
    stay.) *)
Theorem zero_retention_discards_rotated_log (o : RotationOptions) (p : Path) (w : World)
    (f : File) :
  enabled o = true -> fs w !! p = Some f ->
  Double.gtFloor (Z.of_nat (String.length (content f))) (parseSize (maxSize o)) = true ->
  busy f = false ->
  (forall g, fs w !! rotatedPath p (clock w (ticks w)) = Some g -> busy g = false) ->
  maxFiles o = 0 ->
  exists w',
    checkAndRotate o p w = (Returned tt, w') /\
    fs w' !! p = None /\
    fs w' !! rotatedPath p (clock w (ticks w)) = None /\
    (forall n, n ∈ siblingNames (fs w) p ->
       fs w' !! (fst p, n) = afterUnlink (fs w !! (fst p, n))).
Proof.
  intros He Hf Hsz Hb Ht H0.
  set (target := rotatedPath p (clock w (ticks w))) in *.
  set (w1 := afterRotation p f w).
  assert (Hfs1 : fs w1 = <[target := f]> (delete p (fs w))) by reflexivity.
  assert (Hp1 : fs w1 !! p = None).
  { rewrite Hfs1, lookup_insert_ne by apply rotated_ne. apply lookup_delete_eq. }
  assert (Ht1 : fs w1 !! target = Some f) by (rewrite Hfs1; apply lookup_insert_eq).
  assert (Hsib : forall n, n ∈ siblingNames (fs w1) p <->
                   n = snd target \/ n ∈ siblingNames (fs w) p).
  { intros n. rewrite Hfs1. apply siblings_after_rename; [reflexivity|].
    apply rotated_is_sibling. }
  destruct (cleanupOldFiles_any o p w1) as (w' & E & F).
  rewrite (doomed_zero o p w1 H0) in F.
  exists w'. split; [rewrite (checkAndRotate_rotates o p w f He Hf Hsz Hb Ht); exact E|].
  split; [rewrite F, Hp1; now destruct (decide _)|].
  assert (Htarget : fs w' !! target = None).
  { rewrite F, Ht1. rewrite decide_True.
    - cbn. now rewrite Hb.
    - change target with (fst p, snd target). apply sorted_paths, Hsib. now left. }
  split; [exact Htarget|].
  intros n Hn. destruct (decide (n = snd target)) as [->|Hne].
  - change (fst p, snd target) with target. rewrite Htarget.
    apply elem_of_siblingNames in Hn as [_ [g Hg]].
    change (fst p, snd target) with target in Hg. rewrite Hg. cbn.
    now rewrite (Ht g Hg).
  - rewrite F. rewrite decide_True by (apply sorted_paths, Hsib; now right).
    f_equal. rewrite Hfs1.
    rewrite lookup_insert_ne.
    2:{ intros Eq. apply (f_equal snd) in Eq. cbn [snd] in Eq. now apply Hne. }
    rewrite lookup_delete_ne; [reflexivity|].
    intros Eq. apply (active_not_sibling (fs w) p).
    apply (f_equal snd) in Eq. cbn [snd] in Eq. rewrite Eq. exact Hn.
Qed.

Lemma rotateFile_busy (p : Path) (f : File) (w : World) :
  fs w !! p = Some f -> busy f = true ->
  rotateFile p w =
    (Returned tt,
     setConsole (console w ++ [rotateFailure (SystemError "EBUSY" (pathString p))])
       (setTicks (S (ticks w)) w)).
Proof.
  intros Hf Hb. unfold rotateFile. rewrite run_bind. unfold dateNow at 1.
  unfold tryCatch, renameSync. cbn [fs setTicks]. rewrite Hf, Hb. reflexivity.
Qed.

(** X8.  A rotation that fails does not cost the record.  When the
    active file is oversized but the platform refuses to rename it, the
    write of the file transport still returns normally, the failure is
    reported on the console as [Failed to rotate log file:], and the
    record, followed by a line feed, is appended to the active file after
    all that the file held. *)
Theorem write_survives_failed_rotation (L : CustomLogger) (p : Path) (data : string)
    (w : World) (f : File) :
  enabled (logRotator L) = true -> fs w !! p = Some f ->
  Double.gtFloor (Z.of_nat (String.length (content f)))
    (parseSize (maxSize (logRotator L))) = true ->
  busy f = true ->
  exists w',
    fileTransportWrite L p data w = (Returned tt, w') /\
    content <$> fs w' !! p = Some (content f +:+ data +:+ String "010" EmptyString) /\
    rotateFailure (SystemError "EBUSY" (pathString p)) ∈ console w'.
Proof.
  intros He Hf Hsz Hb.
  set (w1 := setConsole (console w ++ [rotateFailure (SystemError "EBUSY" (pathString p))])
               (setTicks (S (ticks w)) w)).
  destruct (cleanupOldFiles_active (logRotator L) p w1) as (w2 & E2 & F2).
  pose proof (Frame_cleanupOldFiles (logRotator L) p w1) as (_ & _ & more & C2).
  rewrite E2 in C2. cbn [snd] in C2.
  assert (Hp2 : fs w2 !! p = Some f) by (rewrite F2; exact Hf).
  assert (Hcr : checkAndRotate (logRotator L) p w = (Returned tt, w2)).
  { unfold checkAndRotate. rewrite He. cbn [negb].
    apply run_tryCatch_returned. rewrite run_bind. unfold existsSync at 1.
    rewrite Hf, bool_decide_eq_true_2 by eauto. cbn [negb].
    rewrite (run_bind_returned _ _ _ _ _ (statSync_some _ _ _ Hf)). cbn [fst]. rewrite Hsz.
    rewrite (run_bind_returned _ _ _ _ _ (rotateFile_busy p f w Hf Hb)). exact E2. }
  eexists. split.
  - unfold fileTransportWrite. apply run_tryCatch_returned.
    rewrite (run_bind_returned _ _ _ _ _ Hcr). unfold appendFile. reflexivity.
  - cbn [fs setFs console]. rewrite lookup_insert_eq, Hp2. cbn.
    split; [reflexivity|]. rewrite C2. apply elem_of_app. left.
    unfold w1. cbn [console setConsole]. apply elem_of_app. right. left.
Qed.

End RetentionMore.

(* --------------------------------------------------------------------- *)
(** ** Colour codes                                                       *)
(* --------------------------------------------------------------------- *)

Section ColourMore.
Import Text Json Sys Logger Format.

Lemma strip_length (s : string) : forall k,
  (String.length (strip k s) <= String.length s)%nat.
Proof.
  induction s as [|c s IH]; intros k; [destruct k; cbn; lia|].
  cbn [strip]. destruct k as [|k].
  - destruct (ansiLength (String c s)) as [n|]; cbn [String.length].
    + specialize (IH (Nat.pred n)). lia.
    + specialize (IH 0%nat). lia.
  - specialize (IH k). cbn [String.length]. lia.
Qed.

Lemma removeColors_getColorCode (c : string) :
  removeColors (getColorCode c) = leftover c.
Proof.
  pose proof (getColorCode_strips c EmptyString) as H.
  rewrite !app_nil_r_str in H. exact H.
Qed.

(** X10.  [removeColors] only ever removes: its result is never longer
    than its argument; text without an escape character is returned as it
    is; text without an escape character that was wrapped in a colour of
    the palette and the reset code comes back unwrapped; and for any
    colour name at all, what comes back is the text preceded by what
    [removeColors] leaves of [getColorCode] of that name alone, which for
    the name [constructor], found on the prototype of the colour table,
    is the source text of a function. *)
Theorem removeColors_unwraps (s : string) :
  (String.length (removeColors s) <= String.length s)%nat /\
  (noEsc s -> removeColors s = s) /\
  (noEsc s -> forall colorName, is_Some (assoc colorName colorMap) ->
     removeColors (getColorCode colorName +:+ s +:+ reset) = s) /\
  (noEsc s -> forall colorName,
     removeColors (getColorCode colorName +:+ s +:+ reset)
     = removeColors (getColorCode colorName) +:+ s) /\
  (noEsc s ->
     removeColors (getColorCode "constructor" +:+ s +:+ reset)
     = "function Object() { [native code] }" +:+ s).
Proof.
  assert (Hany : noEsc s -> forall colorName,
            removeColors (getColorCode colorName +:+ s +:+ reset) = leftover colorName +:+ s).
  { intros Hs colorName.
    assert (H : stripsTo (getColorCode colorName +:+ s +:+ reset) (leftover colorName +:+ s)).
    { apply stripsTo_app; [apply getColorCode_strips | now apply stripsTo_end]. }
    specialize (H EmptyString). rewrite !app_nil_r_str in H. exact H. }
  split; [apply strip_length|]. split.
  { intros Hs. pose proof (stripsTo_text s Hs EmptyString) as H.
    rewrite !app_nil_r_str in H. exact H. }
  split.
  { intros Hs colorName Hpal. rewrite (Hany Hs), (leftover_palette _ Hpal). reflexivity. }
  split.
  { intros Hs colorName. now rewrite (Hany Hs), removeColors_getColorCode. }
  intros Hs. now rewrite (Hany Hs).
Qed.

End ColourMore.

(* --------------------------------------------------------------------- *)
(** ** Levels and the breaker in [log]                                    *)
(* --------------------------------------------------------------------- *)

Module Events.
Import Text Json Sys Logger.

(** The console call of a record. *)
Definition recordCall (level : Level) (prefix record : string) : ConsoleCall :=
  {| method := consoleMethodOf level; args := [prefix; record] |}.

(** The console call of the default breaker callback. *)
Definition tripNotice : ConsoleCall :=
  {| method := ConsoleLog; args := ["Logging disabled due to circuit breaker"] |}.

(** A computation that leaves the file system as it is, whatever its
    outcome. *)
Definition KeepsFs {A} (m : M A) : Prop := forall w, fs (snd (m w)) = fs w.

(** [CustomLogger.resetCircuitBreaker]. *)
Definition resetCircuitBreaker : M unit :=
  now ← dateNow;
  w ← get;
  modify (setBreaker (Breaker.enable now (breaker w))).

End Events.

Section LevelMore.
Import Text Json Sys Logger Format Frames Emit Events.

(** X11.  The level filter of a constructed logger.  Whatever the
    configuration, [error] events pass the filter; an event passes exactly
    when its level is at least the configured one, so the filter is
    upward closed; and without a configured level the threshold is [info]:
    [debug] events are dropped, the three others pass. *)
Theorem level_filter (config : LoggerConfig) (w : World) :
  exists L w',
    newCustomLogger config w = (Returned L, w') /\
    shouldLog L error = true /\
    (forall l, shouldLog L l
               = (levelIndex (default info (logLevel config)) <=? levelIndex l)) /\
    (forall l1 l2, levelIndex l1 <= levelIndex l2 ->
       shouldLog L l1 = true -> shouldLog L l2 = true) /\
    (logLevel config = None ->
       shouldLog L debug = false /\ shouldLog L info = true /\ shouldLog L warn = true).
Proof.
  eexists. eexists. split; [reflexivity|].
  unfold shouldLog. cbn [currentLogLevelIndex].
  split; [destruct (default info (logLevel config)); reflexivity|].
  split; [reflexivity|]. split.
  - intros l1 l2 Hle H. apply Z.leb_le in H. apply Z.leb_le. lia.
  - intros ->. cbn. auto.
Qed.

(** X12.  Events below [error] neither consult nor feed the breaker.
    Whatever the state of the breaker, and whatever the outcome of the
    call, a [debug], [info] or [warn] call leaves the breaker and the
    ambient trace store as they were and only adds to the console; and
    when the event passes the level filter and its metadata serialises,
    the call returns normally and the record is printed, also while the
    breaker is open. *)
Theorem lower_levels_bypass_breaker (L : CustomLogger) (level : Level) (msg : string)
    (opts : LogOptions) (w : World) :
  level <> error ->
  breaker (snd (log L level msg opts w)) = breaker w /\
  traceStore (snd (log L level msg opts w)) = traceStore w /\
  (exists more, console (snd (log L level msg opts w)) = console w ++ more) /\
  (shouldLog L level = true -> forall md, metadataOk opts md ->
     exists prefix more,
       fst (log L level msg opts w) = Returned tt /\
       console (snd (log L level msg opts w)) =
         console w ++
         [recordCall level prefix
            (render level msg opts (useColors L) (Some (customLevelColors L))
               (recordId w) md (JsDate.toISOString (clock w (ticks w))))] ++ more).
Proof.
  intros Hne.
  assert (Hframe : extends w (snd (log L level msg opts w))).
  { rewrite log_run. destruct (negb (shouldLog L level)); [apply extends_refl|].
    rewrite decide_False by exact Hne.
    apply (Frame_bind (emit L level msg opts) (fun _ => bump L level)).
    - apply Frame_emit.
    - intros _. unfold bump. rewrite decide_False by exact Hne. apply Frame_ret. }
  destruct Hframe as (Hs & Hb & Hc).
  split; [exact Hb|]. split; [exact Hs|]. split; [exact Hc|].
  intros Hlog md Hmd.
  destruct (log_contract L level msg opts w) as (_ & _ & H).
  assert (Ha : admitted L level w = w) by (unfold admitted; now rewrite decide_False).
  destruct (H Hlog ltac:(intros E; contradiction) md Hmd)
    as (w3 & prefix & more & _ & C & _ & Hret & _).
  destruct (Hret Hne) as [Hrun _]. rewrite Ha in C.
  exists prefix, more. rewrite Hrun. split; [reflexivity | exact C].
Qed.

(** X13.  An [error] event that is emitted feeds the breaker after its
    writes.  When the event passes the level filter, the breaker does not
    block it, its metadata serialises and the logger uses the default
    callback, the call returns normally; the breaker afterwards is the one
    [incrementErrorCount] yields, at a clock reading, from the breaker the
    check at the head of the call left; and the console holds the record
    and then, exactly when this event opened the breaker, the notice
    [Logging disabled due to circuit breaker] as its last line. *)
Theorem error_event_feeds_breaker (L : CustomLogger) (msg : string) (opts : LogOptions)
    (md : string) (w : World) :
  shouldLog L error = true -> breakerBlocks L w = false ->
  circuitBreakerCallback L = defaultCallback ->
  metadataOk opts md ->
  exists w' t prefix more,
    log L error msg opts w = (Returned tt, w') /\
    breaker w' = fst (Breaker.incrementErrorCount (breakerOptions L) t
                        (breaker (admitted L error w))) /\
    Breaker.isOpen (breaker (admitted L error w)) = false /\
    console w' =
      console w ++
      [recordCall error prefix
         (render error msg opts (useColors L) (Some (customLevelColors L))
            (recordId (admitted L error w)) md
            (JsDate.toISOString
               (clock (admitted L error w) (ticks (admitted L error w)))))]
      ++ more ++ (if Breaker.isOpen (breaker w') then [tripNotice] else []).
Proof.
  intros Hlog Hgate Hcb Hmd.
  destruct (log_contract L error msg opts w) as (_ & _ & H).
  destruct (H Hlog (fun _ => Hgate) md Hmd)
    as (w3 & prefix & more & E & C & _ & _ & Herr).
  destruct (Herr eq_refl) as [Hclosed Hrun].
  destruct (emit_ok L error msg opts md (admitted L error w) Hmd)
    as (w3' & _ & _ & E' & _ & B3 & _).
  rewrite E in E'. injection E' as <-.
  rewrite Hrun. cbv zeta. rewrite B3.
  set (r := Breaker.incrementErrorCount (breakerOptions L) (clock w3 (ticks w3))
              (breaker (admitted L error w))).
  assert (Hr : Breaker.isOpen (fst r) = match snd r with O => false | S _ => true end).
  { unfold r, Breaker.incrementErrorCount. rewrite <- B3, Hclosed. cbv zeta.
    match goal with |- context [if ?c then _ else _] => destruct c end; reflexivity. }
  destruct (snd r) as [|n] eqn:En.
  - eexists. exists (clock w3 (ticks w3)), prefix, more.
    split; [reflexivity|]. cbn [breaker setBreaker setTicks console].
    fold r. rewrite Hr. rewrite app_nil_r.
    split; [reflexivity|]. split; [now rewrite <- B3 | exact C].
  - rewrite Hcb. eexists. exists (clock w3 (ticks w3)), prefix, more.
    split; [reflexivity|]. cbn [breaker setBreaker setTicks console setConsole].
    fold r. rewrite Hr.
    split; [reflexivity|]. split; [now rewrite <- B3|].
    rewrite C. now rewrite <- !app_assoc.
Qed.

End LevelMore.

(* --------------------------------------------------------------------- *)
(** ** The two records of one event                                       *)
(* --------------------------------------------------------------------- *)

Module Records.
Import Text Json Sys Logger Format.

(** The identifier on the file record of an event logged in [w]: the
    ambient one, or else the one generated second. *)
Definition fileId (w : World) : string :=
  match ambientId w with
  | Some id => id
  | None => Uuid.format (entropy w (S (draws w)))
  end.

End Records.

Section RecordsMore.
Import Text Json Sys Logger Format Frames Emit Events Records.

Lemma writeToConsole_run (L : CustomLogger) (level : Level) (out : string)
    (c1 c2 c3 : option string) (w : World) :
  exists prefix,
    writeToConsole L level out c1 c2 c3 w =
      (Returned tt,
       setConsole (console w ++ [recordCall level prefix out]) (setTicks (S (ticks w)) w)).
Proof.
  unfold writeToConsole, recordCall.
  rewrite run_bind. unfold getConsoleTimestamp.
  rewrite run_bind. unfold get at 1. rewrite run_bind. unfold dateNow at 1.
  rewrite run_ret. rewrite run_bind. unfold get at 1.
  unfold consoleCall, modify. cbn [console pid tzOffset setTicks].
  eexists. reflexivity.
Qed.

Lemma recordId_afterId (w : World) :
  recordId (afterId w) = fileId w /\
  clock (afterId w) = clock w /\ ticks (afterId w) = ticks w.
Proof.
  destruct (afterId_clock w) as (Hc & Ht & _). split; [|now split].
  unfold afterId, fileId, recordId. destruct (ambientId w) as [id|] eqn:E.
  - now rewrite E.
  - assert (Ha : ambientId (setDraws (S (draws w)) w) = None) by exact E.
    now rewrite Ha.
Qed.

(** The writes of one event to the console and to the file. *)
Lemma emit_records (L : CustomLogger) (level : Level) (msg : string) (opts : LogOptions)
    (md : string) (p : Path) (w0 : World) :
  metadataOk opts md -> fileTransport L = Some p ->
  exists w3 prefix more before,
    emit L level msg opts w0 = (Returned tt, w3) /\
    console w3 = console w0 ++
      [recordCall level prefix
         (render level msg opts (useColors L) (Some (customLevelColors L))
            (recordId w0) md (JsDate.toISOString (clock w0 (ticks w0))))] ++ more /\
    content <$> fs w3 !! p =
      Some (before +:+
            removeColors (render level msg opts false None (fileId w0) md
                            (JsDate.toISOString (clock w0 (S (S (ticks w0))))))
            +:+ String "010" EmptyString) /\
    breaker w3 = breaker w0.
Proof.
  intros Hmd Hp. unfold emit.
  rewrite (run_bind_returned _ _ _ _ _ (formatLog_ok level msg opts _ _ md w0 Hmd)).
  set (out := render level msg opts (useColors L) (Some (customLevelColors L))
                (recordId w0) md (JsDate.toISOString (clock w0 (ticks w0)))).
  destruct (writeToConsole_run L level out (customColor opts) (logColor opts)
              (fullLogColor opts) (afterFormat w0)) as [prefix E2].
  set (w2 := setConsole _ _) in E2.
  rewrite (run_bind_returned _ _ _ _ _ E2). rewrite Hp.
  rewrite (run_bind_returned _ _ _ _ _ (formatLog_ok level msg opts false None md w2 Hmd)).
  destruct (recordId_afterId w0) as (Hid & Hclock & Hticks).
  assert (Hid2 : recordId w2 = fileId w0) by exact Hid.
  assert (Hts2 : clock w2 (ticks w2) = clock w0 (S (S (ticks w0)))).
  { unfold w2, afterFormat. cbn [clock ticks setConsole setTicks].
    now rewrite Hclock. }
  rewrite Hid2, Hts2.
  set (fileLog := removeColors _).
  destruct (fileTransportWrite_appends L p fileLog (afterFormat w2))
    as (w3 & before & E3 & F3).
  pose proof (Frame_fileTransportWrite L p fileLog (afterFormat w2)) as (_ & B3 & more & C3).
  rewrite E3 in B3, C3. cbn [snd] in B3, C3.
  exists w3, prefix, more, before. split; [exact E3|].
  destruct (afterId_clock w2) as (_ & _ & _ & Hc2 & _ & Hb2 & _).
  destruct (afterId_clock w0) as (_ & _ & _ & Hc0 & _ & Hb0 & _).
  split; [|split; [exact F3|]].
  - rewrite C3. change (console (afterFormat w2)) with (console (afterId w2)).
    rewrite Hc2. unfold w2. cbn [console setConsole].
    change (console (afterFormat w0)) with (console (afterId w0)).
    now rewrite Hc0, <- app_assoc.
  - rewrite B3. change (breaker (afterFormat w2)) with (breaker (afterId w2)).
    rewrite Hb2. change (breaker w2) with (breaker (afterId w0)). exact Hb0.
Qed.

Lemma admitted_same (L : CustomLogger) (level : Level) (w : World) :
  traceStore (admitted L level w) = traceStore w /\
  entropy (admitted L level w) = entropy w /\ draws (admitted L level w) = draws w /\
  console (admitted L level w) = console w.
Proof.
  unfold admitted. destruct (decide (level = error)); [|auto].
  destruct (Breaker.isOpen (breaker w)); auto.
Qed.

Lemma admitted_closed (L : CustomLogger) (w : World) :
  breakerBlocks L w = false -> Breaker.isOpen (breaker (admitted L error w)) = false.
Proof.
  intros Hgate. unfold admitted, breakerBlocks in *. rewrite decide_True by reflexivity.
  destruct (Breaker.isOpen (breaker w)) eqn:Ho; [|exact Ho].
  cbn [andb] in Hgate. apply negb_false_iff in Hgate.
  cbn [breaker setBreaker]. unfold Breaker.isEnabled. rewrite Ho. cbn [negb].
  now rewrite Hgate.
Qed.

(** One [log] call of a logger with a file transport, for an event
    that is let through: the record on the console and the record in the
    file. *)
Lemma log_records (L : CustomLogger) (level : Level) (msg : string) (opts : LogOptions)
    (p : Path) (md : string) (w : World) :
  fileTransport L = Some p -> shouldLog L level = true ->
  (level = error ->
     breakerBlocks L w = false /\ circuitBreakerCallback L = defaultCallback) ->
  metadataOk opts md ->
  exists w' prefix before t1 t2,
    log L level msg opts w = (Returned tt, w') /\
    recordCall level prefix
      (render level msg opts (useColors L) (Some (customLevelColors L))
         (recordId w) md (JsDate.toISOString t1)) ∈ console w' /\
    content <$> fs w' !! p =
      Some (before +:+
            removeColors (render level msg opts false None (fileId w) md
                            (JsDate.toISOString t2))
            +:+ String "010" EmptyString).
Proof.
  intros Hp Hlog Herr Hmd.
  set (wa := admitted L level w).
  destruct (admitted_same L level w) as (Hs & He & Hd & _).
  assert (Hrid : recordId wa = recordId w).
  { unfold recordId, ambientId. fold wa in Hs, He, Hd. now rewrite Hs, He, Hd. }
  assert (Hfid : fileId wa = fileId w).
  { unfold fileId, ambientId. fold wa in Hs, He, Hd. now rewrite Hs, He, Hd. }
  destruct (emit_records L level msg opts md p wa Hmd Hp)
    as (w3 & prefix & more & before & E & C & F & B).
  rewrite Hrid in C. rewrite Hfid in F.
  assert (Hin : recordCall level prefix
            (render level msg opts (useColors L) (Some (customLevelColors L))
               (recordId w) md (JsDate.toISOString (clock wa (ticks wa)))) ∈ console w3).
  { rewrite C. apply elem_of_app. right. apply elem_of_app. left. left. }
  rewrite log_run, Hlog. cbn [negb].
  destruct (decide (level = error)) as [->|Hne].
  - destruct (Herr eq_refl) as [Hgate Hcb]. rewrite Hgate.
    fold wa. rewrite (run_bind_returned _ _ _ _ _ E).
    assert (Hclosed : Breaker.isOpen (breaker w3) = false).
    { rewrite B. now apply admitted_closed. }
    rewrite (bump_error_run L w3 Hclosed). cbv zeta.
    destruct (snd _).
    + eexists. exists prefix, before, (clock wa (ticks wa)), (clock wa (S (S (ticks wa)))).
      split; [reflexivity|]. cbn [console fs setBreaker setTicks]. now split.
    + rewrite Hcb. eexists.
      exists prefix, before, (clock wa (ticks wa)), (clock wa (S (S (ticks wa)))).
      split; [reflexivity|]. cbn [console fs setBreaker setTicks setConsole].
      split; [|exact F]. apply elem_of_app. now left.
  - assert (Ha : wa = w) by (unfold wa, admitted; now rewrite decide_False).
    rewrite Ha in E. rewrite (run_bind_returned _ _ _ _ _ E).
    unfold bump. rewrite decide_False by exact Hne.
    exists w3, prefix, before, (clock wa (ticks wa)), (clock wa (S (S (ticks wa)))).
    split; [reflexivity|]. now split.
Qed.

(** X14.  Inside a trace scope the two records of one event carry the
    same identifier.  For a logger with a file transport and an event that
    is let through (its metadata serialising, its texts and the ambient
    identifier [id] holding no escape character), the call returns
    normally, the record printed on the console contains the line
    [Trace Id: id], and what is appended to the file is [removeColors] of
    the record made without colours for the same [id], followed by a line
    feed: a text without escape character that contains the line
    [Trace Id: id], and that is the plain record when the colour options
    of the event, where given, name colours of the palette. *)
Theorem scoped_event_shares_id (L : CustomLogger) (level : Level) (msg : string)
    (opts : LogOptions) (p : Path) (id md : string) (w : World) :
  ambientId w = Some id ->
  fileTransport L = Some p -> shouldLog L level = true ->
  (level = error ->
     breakerBlocks L w = false /\ circuitBreakerCallback L = defaultCallback) ->
  metadataOk opts md ->
  noEsc msg -> noEsc (functionName opts) -> noEsc id ->
  (forall st, truthy (error_ opts ≫= stack) = Some st -> noEsc st) ->
  exists w' prefix record before t,
    log L level msg opts w = (Returned tt, w') /\
    recordCall level prefix record ∈ console w' /\
    includes record (traceLine id) = true /\
    content <$> fs w' !! p =
      Some (before +:+
            removeColors (render level msg opts false None id md (JsDate.toISOString t))
            +:+ String "010" EmptyString) /\
    includes (removeColors (render level msg opts false None id md (JsDate.toISOString t)))
      (fileTraceLine id) = true /\
    noEsc (removeColors (render level msg opts false None id md (JsDate.toISOString t))) /\
    (paletteOnly opts ->
     removeColors (render level msg opts false None id md (JsDate.toISOString t))
     = renderPlain level msg opts id md (JsDate.toISOString t)).
Proof.
  intros Hid Hp Hlog Herr Hmd Hmsg Hfn Hidn Hst.
  destruct (log_records L level msg opts p md w Hp Hlog Herr Hmd)
    as (w' & prefix & before & t1 & t2 & E & Hin & F).
  assert (Hrid : recordId w = id) by (unfold recordId; now rewrite Hid).
  assert (Hfid : fileId w = id) by (unfold fileId; now rewrite Hid).
  rewrite Hrid in Hin. rewrite Hfid in F.
  pose proof (render_strips level msg opts None id md _ Hmsg Hfn Hidn
                (metadataOk_noEsc opts md Hmd) (toISOString_noEsc t2) Hst) as Hstrip.
  eexists w', prefix, _, before, t2.
  split; [exact E|]. split; [exact Hin|]. split; [apply render_trace_line|].
  split; [exact F|]. rewrite Hstrip.
  split; [apply strippedRender_trace_line|].
  split; [exact (strippedRender_noEsc level msg opts None id md _ Hmsg Hfn Hidn
                  (metadataOk_noEsc opts md Hmd) (toISOString_noEsc t2) Hst)|].
  apply strippedRender_palette.
Qed.

(** X15.  Outside a trace scope the two records of one event carry
    identifiers of their own: [formatLog] runs once for the console and
    once for the file, and each run generates an identifier.  The record
    printed on the console carries the identifier generated first; what is
    appended to the file is [removeColors] of the record made without
    colours for the identifier generated second, and contains the line
    [Trace Id:] with that second identifier. *)
Theorem unscoped_event_draws_two_ids (L : CustomLogger) (level : Level) (msg : string)
    (opts : LogOptions) (p : Path) (md : string) (w : World) :
  ambientId w = None ->
  fileTransport L = Some p -> shouldLog L level = true ->
  (level = error ->
     breakerBlocks L w = false /\ circuitBreakerCallback L = defaultCallback) ->
  metadataOk opts md ->
  noEsc msg -> noEsc (functionName opts) ->
  (forall st, truthy (error_ opts ≫= stack) = Some st -> noEsc st) ->
  exists w' prefix record before t,
    log L level msg opts w = (Returned tt, w') /\
    recordCall level prefix record ∈ console w' /\
    includes record (traceLine (Uuid.format (entropy w (draws w)))) = true /\
    content <$> fs w' !! p =
      Some (before +:+
            removeColors
              (render level msg opts false None
                 (Uuid.format (entropy w (S (draws w)))) md (JsDate.toISOString t))
            +:+ String "010" EmptyString) /\
    includes
      (removeColors
         (render level msg opts false None
            (Uuid.format (entropy w (S (draws w)))) md (JsDate.toISOString t)))
      (fileTraceLine (Uuid.format (entropy w (S (draws w))))) = true.
Proof.
  intros Hid Hp Hlog Herr Hmd Hmsg Hfn Hst.
  destruct (log_records L level msg opts p md w Hp Hlog Herr Hmd)
    as (w' & prefix & before & t1 & t2 & E & Hin & F).
  assert (Hrid : recordId w = Uuid.format (entropy w (draws w)))
    by (unfold recordId; now rewrite Hid).
  assert (Hfid : fileId w = Uuid.format (entropy w (S (draws w))))
    by (unfold fileId; now rewrite Hid).
  rewrite Hrid in Hin. rewrite Hfid in F.
  pose proof (render_strips level msg opts None _ md _ Hmsg Hfn
                (uuid_noEsc (entropy w (S (draws w))))
                (metadataOk_noEsc opts md Hmd) (toISOString_noEsc t2) Hst) as Hstrip.
  eexists w', prefix, _, before, t2.
  split; [exact E|]. split; [exact Hin|]. split; [apply render_trace_line|].
  split; [exact F|]. rewrite Hstrip. apply strippedRender_trace_line.
Qed.

End RecordsMore.

(* --------------------------------------------------------------------- *)
(** ** The request log of the middleware                                  *)
(* --------------------------------------------------------------------- *)

Module Wire.
Import Text Json Sys Logger.

(** [JSON.stringify(v)] does not throw. *)
Definition Serialises (v : JsValue) : Prop := exists o, serialize v = inl o.

(** [JSON.stringify(v)] yields text. *)
Definition SerialisesToText (v : JsValue) : Prop := exists t, serialize v = inl (Some t).

(** The options of the request log. *)
Definition requestOptions (md : list (string * JsValue)) : LogOptions :=
  {| functionName := "HTTP_REQUEST"; metadata := Some md; error_ := None;
     customColor := None; logColor := None; fullLogColor := None |}.

End Wire.

Section WireFacts.
Import Text Json Sys Logger Format Frames Emit Events Wire.

Lemma text_serialises (v : JsValue) : SerialisesToText v -> Serialises v.
Proof. intros [t H]. now exists (Some t). Qed.

Lemma arr_text (items : list JsValue) :
  Forall Serialises items -> SerialisesToText (JArr items).
Proof.
  intros H. unfold SerialisesToText. cbn [serialize].
  match goal with
  | |- context [match ?f items with _ => _ end] =>
      assert (Hps : exists ps, f items = inl ps)
  end.
  { induction H as [|x l [o Hx] Hl [ps IHl]]; [now exists []|].
    exists (default "null" o :: ps). now rewrite Hx, IHl. }
  destruct Hps as [ps ->]. eauto.
Qed.

Lemma obj_text (props : list (string * JsValue)) :
  Forall (fun kv => Serialises (snd kv)) props -> SerialisesToText (JObj props).
Proof.
  intros H. unfold SerialisesToText. cbn [serialize].
  match goal with
  | |- context [match ?f props with _ => _ end] =>
      assert (Hps : exists ps, f props = inl ps)
  end.
  { induction H as [|[k x] l [o Hx] Hl [ps IHl]]; [now exists []|].
    cbn [snd] in Hx. eexists. rewrite Hx, IHl. reflexivity. }
  destruct Hps as [ps ->]. eauto.
Qed.

Lemma obj_members (props : list (string * JsValue)) :
  Serialises (JObj props) -> Forall (fun kv => Serialises (snd kv)) props.
Proof.
  intros [o H]. cbn [serialize] in H.
  match type of H with
  | match ?e with _ => _ end = _ => destruct e as [ps|e'] eqn:E; [|discriminate]
  end.
  clear H. revert ps E. induction props as [|[k x] l IHl]; intros ps E; [constructor|].
  destruct (serialize x) as [ox|] eqn:Ex; [|discriminate].
  match type of E with
  | match ?e with _ => _ end = _ => destruct e as [ps'|] eqn:E'; [|discriminate]
  end.
  constructor; [now exists ox | now apply (IHl ps')].
Qed.

(** What [JSON.parse(JSON.stringify(v))] yields can be serialised. *)
Lemma jsonClone_text (v : JsValue) :
  forall b, jsonClone v = inl (Some b) -> SerialisesToText b.
Proof.
  induction v as [ | | b0 | z | s | z | items IH | props IH | ] using JsValue_nested_ind;
    intros b H; cbn [jsonClone] in H; try discriminate;
    try (injection H as <-; eexists; reflexivity).
  - match type of H with
    | match ?e with _ => _ end = _ => destruct e as [vs|e'] eqn:E; [|discriminate]
    end.
    injection H as <-. apply arr_text.
    clear -IH E. revert vs E. induction IH as [|x l Hx Hl IHl]; intros vs E.
    + injection E as <-. constructor.
    + destruct (jsonClone x) as [o|] eqn:Ex; [|discriminate].
      match type of E with
      | match ?e with _ => _ end = _ => destruct e as [vs'|] eqn:E'; [|discriminate]
      end.
      injection E as <-. constructor; [|now apply IHl].
      destruct o as [x'|]; cbn [default from_option id].
      * apply text_serialises. now apply Hx.
      * now exists (Some "null").
  - match type of H with
    | match ?e with _ => _ end = _ => destruct e as [ps|e'] eqn:E; [|discriminate]
    end.
    injection H as <-. apply obj_text.
    clear -IH E. revert ps E. induction IH as [|[k x] l Hx Hl IHl]; intros ps E.
    + injection E as <-. constructor.
    + cbn [snd] in Hx. destruct (jsonClone x) as [o|] eqn:Ex; [|discriminate].
      match type of E with
      | match ?e with _ => _ end = _ => destruct e as [ps'|] eqn:E'; [|discriminate]
      end.
      injection E as <-. destruct o as [x'|]; [|now apply IHl].
      constructor; [|now apply IHl].
      cbn [snd]. apply text_serialises. now apply Hx.
Qed.

Lemma bodyEntry_serialises (body : JsValue) :
  Forall (fun kv => Serialises (snd kv)) (bodyEntry body).
Proof.
  assert (Hstr : forall t, Serialises (JStr t)) by (intros t; eexists; reflexivity).
  assert (Hclone : Forall (fun kv => Serialises (snd kv))
            match jsonClone body with
            | inl (Some b) => [("body", b)]
            | inl None => [("body", JUndefined)]
            | inr _ => [("body", JStr "[Unserializable Body]")]
            end).
  { destruct (jsonClone body) as [[b|]|e] eqn:E; repeat constructor; cbn [snd].
    - apply text_serialises. now apply (jsonClone_text body).
    - now exists None.
    - apply Hstr. }
  destruct body as [ | | b0 | z | s | z | items | props | ]; cbn [bodyEntry];
    try constructor; try exact Hclone.
  destruct s as [|c s]; repeat constructor. apply Hstr.
Qed.

(** Every member of the metadata object of a request serialises, when
    the included parameters, query and response headers do. *)
Lemma requestMetadata_members (config : LoggerConfig) (req : Request) (res : Response)
    (elapsed : Z) :
  (includeParams config = true -> Serialises (JObj (reqParams req))) ->
  (includeQueries config = true -> Serialises (JObj (reqQuery req))) ->
  (includeResponseHeaders config = true -> Serialises (JObj (responseHeaders res))) ->
  Forall (fun kv => Serialises (snd kv)) (requestMetadata config req res elapsed).
Proof.
  intros Hp Hq Hh.
  assert (Hstr : forall t, Serialises (JStr t)) by (intros t; eexists; reflexivity).
  unfold requestMetadata. repeat apply Forall_app_2.
  - repeat constructor; cbn [snd]; try apply Hstr. eexists; reflexivity.
  - destruct (default true (includeIp config)); repeat constructor. cbn [snd].
    destruct (reqIp req); eexists; reflexivity.
  - destruct (default true (includeUserAgent config)); repeat constructor. apply Hstr.
  - destruct (includeParams config); cbn [andb]; [|constructor].
    destruct (negb _); repeat constructor. cbn [snd]. now apply Hp.
  - destruct (includeQueries config); cbn [andb]; [|constructor].
    destruct (negb _); repeat constructor. cbn [snd]. now apply Hq.
  - destruct (includeResponseHeaders config); repeat constructor. cbn [snd]. now apply Hh.
  - destruct (includeSendData config); [apply bodyEntry_serialises | constructor].
Qed.

(** X16.  The body of a request can never make the request log throw.
    Whatever [req.body] is (a circular object, an object holding a BigInt,
    anything), the metadata object built for the request log serialises,
    provided the parameters, the query and the response headers that the
    configuration includes do; and a body object that cannot be cloned is
    logged as the text [[Unserializable Body]]. *)
Theorem request_body_never_breaks_logging (config : LoggerConfig) (req : Request)
    (res : Response) (elapsed : Z) :
  (includeParams config = true -> Serialises (JObj (reqParams req))) ->
  (includeQueries config = true -> Serialises (JObj (reqQuery req))) ->
  (includeResponseHeaders config = true -> Serialises (JObj (responseHeaders res))) ->
  exists md,
    stringify (requestMetadata config req res elapsed) = inl md /\
    (forall props e, reqBody req = JObj props -> jsonClone (JObj props) = inr e ->
       bodyEntry (reqBody req) = [("body", JStr "[Unserializable Body]")]).
Proof.
  intros Hp Hq Hh.
  destruct (obj_text _ (requestMetadata_members config req res elapsed Hp Hq Hh))
    as [t Ht].
  exists t. split; [unfold stringify; now rewrite Ht|].
  intros props e -> He. unfold bodyEntry. now rewrite He.
Qed.

(** X17.  One request, one record, one identifier.  The middleware
    generates an identifier, runs the application code in a trace scope
    that carries it and, when that code returns, writes the request log in
    the same scope: with a logger whose level admits [info], and
    parameters, query and headers that serialise, the call returns
    normally, the console gains the record of the request, with the line
    [Trace Id: id] for the identifier generated for this request and the
    serialised request metadata, and the ambient store is afterwards what
    it was before the request. *)
Theorem httpLogger_logs_request (config : LoggerConfig) (L : CustomLogger) (req : Request)
    (res : Response) (next : M unit) (w w2 : World) :
  let id := Uuid.format (entropy w (draws w)) in
  let w1 := setTicks (S (ticks w))
              (setTraceStore (Some {[ "traceId" := id ]}) (setDraws (S (draws w)) w)) in
  next w1 = (Returned tt, w2) -> traceStore w2 = traceStore w1 ->
  shouldLog L info = true ->
  (includeParams config = true -> Serialises (JObj (reqParams req))) ->
  (includeQueries config = true -> Serialises (JObj (reqQuery req))) ->
  (includeResponseHeaders config = true -> Serialises (JObj (responseHeaders res))) ->
  exists w' prefix md t more,
    httpLogger config L req res next w = (Returned tt, w') /\
    traceStore w' = traceStore w /\
    stringify (requestMetadata config req res (clock w2 (ticks w2) - clock w (ticks w)))
      = inl md /\
    console w' =
      console w2 ++
      [recordCall info prefix
         (render info (reqMethod req +:+ " " +:+ reqUrl req)
            (requestOptions
               (requestMetadata config req res (clock w2 (ticks w2) - clock w (ticks w))))
            (useColors L) (Some (customLevelColors L)) id md (JsDate.toISOString t))]
      ++ more /\
    includes
      (render info (reqMethod req +:+ " " +:+ reqUrl req)
         (requestOptions
            (requestMetadata config req res (clock w2 (ticks w2) - clock w (ticks w))))
         (useColors L) (Some (customLevelColors L)) id md (JsDate.toISOString t))
      (traceLine id) = true.
Proof.
  intros id w1 Hnext Hstore Hlog Hp Hq Hh.
  set (elapsed := clock w2 (ticks w2) - clock w (ticks w)).
  assert (Hmd : exists md, stringify (requestMetadata config req res elapsed) = inl md).
  { destruct (obj_text _ (requestMetadata_members config req res elapsed Hp Hq Hh))
      as [t Ht].
    exists t. unfold stringify. now rewrite Ht. }
  destruct Hmd as [md Hmd].
  set (opts := requestOptions (requestMetadata config req res elapsed)).
  set (msg := reqMethod req +:+ " " +:+ reqUrl req).
  set (w3 := setTicks (S (ticks w2)) w2).
  assert (Hamb : ambientId w3 = Some id).
  { apply (ambientId_scope w3 {[ "traceId" := id ]} id).
    - change (traceStore w3) with (traceStore w2). now rewrite Hstore.
    - apply lookup_singleton_eq.
    - apply uuid_nonempty. }
  destruct (log_contract L info msg opts w3) as (_ & _ & H).
  assert (Ha : admitted L info w3 = w3) by reflexivity.
  destruct (H Hlog ltac:(discriminate) md Hmd)
    as (w4 & prefix & more & _ & C & _ & Hret & _).
  destruct (Hret ltac:(discriminate)) as [Hrun _].
  rewrite Ha in C. unfold recordId in C. rewrite Hamb in C. cbn [default from_option id] in C.
  exists (setTraceStore (traceStore w) w4), prefix, md, (clock w3 (ticks w3)), more.
  split.
  - unfold httpLogger. rewrite run_bind. unfold uuidv4 at 1. unfold alsRun.
    fold id. cbn [traceStore setDraws].
    rewrite run_bind. unfold dateNow at 1. cbn [clock ticks setTraceStore setDraws].
    fold w1. rewrite run_bind, Hnext.
    rewrite run_bind. unfold dateNow at 1. fold w3. fold elapsed msg.
    change (log L info msg _ w3) with (log L info msg opts w3).
    now rewrite Hrun.
  - split; [reflexivity|]. split; [exact Hmd|].
    split; [exact C | apply render_trace_line].
Qed.

End WireFacts.

(* --------------------------------------------------------------------- *)
(** ** Loggers without a file, and the manual reset                       *)
(* --------------------------------------------------------------------- *)

Section ConsoleOnly.
Import Text Json Sys Logger Format Frames Emit Events.

Lemma KeepsFs_ret {A} (a : A) : KeepsFs (mret a : M A).
Proof. intros w. reflexivity. Qed.

Lemma KeepsFs_bind {A B} (m : M A) (f : A -> M B) :
  KeepsFs m -> (forall a, KeepsFs (f a)) -> KeepsFs (m ≫= f).
Proof.
  intros Hm Hf w. rewrite run_bind. specialize (Hm w).
  destruct (m w) as [[a|e] w1]; cbn [snd] in *; [|exact Hm].
  now rewrite (Hf a w1).
Qed.

Lemma KeepsFs_if {A} (b : bool) (m1 m2 : M A) :
  KeepsFs m1 -> KeepsFs m2 -> KeepsFs (if b then m1 else m2).
Proof. now destruct b. Qed.

Lemma KeepsFs_get : KeepsFs get.
Proof. intros w. reflexivity. Qed.

Lemma KeepsFs_dateNow : KeepsFs dateNow.
Proof. intros w. reflexivity. Qed.

Lemma KeepsFs_uuidv4 : KeepsFs uuidv4.
Proof. intros w. reflexivity. Qed.

Lemma KeepsFs_throw {A} (e : Exn) : KeepsFs (throw e : M A).
Proof. intros w. reflexivity. Qed.

Lemma KeepsFs_consoleCall (m : ConsoleMethod) (a : list string) : KeepsFs (consoleCall m a).
Proof. intros w. reflexivity. Qed.

Lemma KeepsFs_setBreaker (b : Breaker.LoggerCircuitBreaker) : KeepsFs (modify (setBreaker b)).
Proof. intros w. reflexivity. Qed.

Lemma KeepsFs_formatLog level msg opts uc cc : KeepsFs (formatLog level msg opts uc cc).
Proof.
  unfold formatLog.
  apply KeepsFs_bind.
  { unfold currentTraceId. apply KeepsFs_bind; [apply KeepsFs_get|]. intros w0.
    destruct (truthy _); [apply KeepsFs_ret | apply KeepsFs_uuidv4]. }
  intros id. apply KeepsFs_bind.
  { unfold metadataText. destruct (metadata opts) as [m|]; [|apply KeepsFs_ret].
    destruct (stringify m); [apply KeepsFs_ret | apply KeepsFs_throw]. }
  intros md. apply KeepsFs_bind; [|intros ts; apply KeepsFs_ret].
  unfold getTimestamp. apply KeepsFs_bind; [apply KeepsFs_dateNow | intros t; apply KeepsFs_ret].
Qed.

Lemma KeepsFs_writeToConsole L level out c1 c2 c3 :
  KeepsFs (writeToConsole L level out c1 c2 c3).
Proof.
  unfold writeToConsole. apply KeepsFs_bind.
  { unfold getConsoleTimestamp. apply KeepsFs_bind; [apply KeepsFs_get|]. intros w0.
    apply KeepsFs_bind; [apply KeepsFs_dateNow | intros t; apply KeepsFs_ret]. }
  intros ts. apply KeepsFs_bind; [apply KeepsFs_get|]. intros w0. apply KeepsFs_consoleCall.
Qed.

Lemma KeepsFs_isEnabled L : KeepsFs (isEnabled L).
Proof.
  unfold isEnabled. apply KeepsFs_bind; [apply KeepsFs_get|]. intros w0.
  apply KeepsFs_if; [apply KeepsFs_ret|].
  apply KeepsFs_bind; [apply KeepsFs_dateNow|]. intros now.
  destruct (Breaker.isEnabled _ _ _) as [r b].
  apply KeepsFs_bind; [apply KeepsFs_setBreaker | intros _; apply KeepsFs_ret].
Qed.

Lemma KeepsFs_incrementErrorCount L :
  KeepsFs (circuitBreakerCallback L) -> KeepsFs (incrementErrorCount L).
Proof.
  intros Hcb. unfold incrementErrorCount.
  apply KeepsFs_bind; [apply KeepsFs_get|]. intros w0.
  apply KeepsFs_if; [apply KeepsFs_ret|].
  apply KeepsFs_bind; [apply KeepsFs_dateNow|]. intros now.
  destruct (Breaker.incrementErrorCount _ _ _) as [b n].
  apply KeepsFs_bind; [apply KeepsFs_setBreaker|]. intros _.
  destruct n; [apply KeepsFs_ret | exact Hcb].
Qed.

Lemma KeepsFs_log L level msg opts :
  fileTransport L = None -> KeepsFs (circuitBreakerCallback L) ->
  KeepsFs (log L level msg opts).
Proof.
  intros Hft Hcb. unfold log. apply KeepsFs_if; [apply KeepsFs_ret|].
  apply KeepsFs_bind.
  { destruct (decide (level = error)); [|apply KeepsFs_ret].
    apply KeepsFs_bind; [apply KeepsFs_isEnabled | intros en; apply KeepsFs_ret]. }
  intros blocked. apply KeepsFs_if; [apply KeepsFs_ret|].
  apply KeepsFs_bind; [apply KeepsFs_formatLog|]. intros out.
  apply KeepsFs_bind; [apply KeepsFs_writeToConsole|]. intros _.
  apply KeepsFs_bind; [rewrite Hft; apply KeepsFs_ret|]. intros _.
  destruct (decide (level = error)); [now apply KeepsFs_incrementErrorCount | apply KeepsFs_ret].
Qed.

(** X18.  A logger without a file transport never touches the file
    system.  When the configuration is not in [pro] mode, or names no file
    path, a logger constructed from it leaves every file as it is in every
    [log] call, whatever the level, the event, the state of the breaker
    and the outcome of the call (the configured callback, if any, leaving
    the files alone): no file is created, rotated or removed, although the
    rotation options are part of the configuration. *)
Theorem console_only_logger_keeps_files (config : LoggerConfig) (level : Level)
    (msg : string) (opts : LogOptions) (w : World) :
  (mode config <> Some pro \/ filePath config = None) ->
  (forall cb, circuitBreaker config ≫= cfgCallback = Some cb -> KeepsFs cb) ->
  fs (snd ((L ← newCustomLogger config; log L level msg opts) w)) = fs w.
Proof.
  intros Hmode Hcb.
  assert (E : exists L w0,
            newCustomLogger config w = (Returned L, w0) /\
            fileTransport L = match mode config with
                              | Some pro => filePath config
                              | _ => None
                              end /\
            circuitBreakerCallback L
              = default defaultCallback
                  (cfgCallback (default emptyBreakerConfig (circuitBreaker config))) /\
            fs w0 = fs w).
  { eexists. eexists. split; [reflexivity|]. cbn. auto. }
  destruct E as (L & w0 & E & Hft & Hcall & Hfs).
  rewrite (run_bind_returned _ _ _ _ _ E). rewrite <- Hfs.
  apply KeepsFs_log.
  - rewrite Hft. destruct Hmode as [Hm|Hp].
    + destruct (mode config) as [[]|]; try reflexivity. now destruct Hm.
    + rewrite Hp. now destruct (mode config) as [[]|].
  - rewrite Hcall. destruct (circuitBreaker config) as [bc|] eqn:Ebc; cbn [default from_option id].
    + destruct (cfgCallback bc) as [cb|] eqn:Ecb; cbn [default from_option id].
      * apply Hcb. cbn. exact Ecb.
      * apply KeepsFs_consoleCall.
    + apply KeepsFs_consoleCall.
Qed.

(** X19.  [resetCircuitBreaker] lifts the suppression at once.
    Whatever the state of the breaker, also open with its cooldown not
    over, after the reset the breaker is closed with a count of zero, and
    the next [error] event of a logger with the default callback (passing
    the level filter, its metadata serialising) is not blocked: the call
    returns normally and its record is printed on the console. *)
Theorem reset_lifts_suppression (L : CustomLogger) (msg : string) (opts : LogOptions)
    (md : string) (w : World) :
  shouldLog L error = true -> circuitBreakerCallback L = defaultCallback ->
  metadataOk opts md ->
  exists w1 w' prefix record more,
    resetCircuitBreaker w = (Returned tt, w1) /\
    breaker w1 = {| Breaker.errorCount := 0; Breaker.lastResetTime := clock w (ticks w);
                    Breaker.isOpen := false |} /\
    log L error msg opts w1 = (Returned tt, w') /\
    console w' = console w ++ [recordCall error prefix record] ++ more
                 ++ (if Breaker.isOpen (breaker w') then [tripNotice] else []).
Proof.
  intros Hlog Hcb Hmd.
  set (w1 := setBreaker (Breaker.enable (clock w (ticks w)) (breaker w))
               (setTicks (S (ticks w)) w)).
  assert (Hgate : breakerBlocks L w1 = false) by reflexivity.
  destruct (log_contract L error msg opts w1) as (_ & _ & H).
  destruct (H Hlog (fun _ => Hgate) md Hmd)
    as (w3 & prefix & more & E & C & _ & _ & Herr).
  destruct (Herr eq_refl) as [Hclosed Hrun].
  change (console w1) with (console w) in C.
  set (r := Breaker.incrementErrorCount (breakerOptions L) (clock w3 (ticks w3))
              (breaker w3)) in Hrun.
  assert (Hr : Breaker.isOpen (fst r) = match snd r with O => false | S _ => true end).
  { unfold r, Breaker.incrementErrorCount. rewrite Hclosed. cbv zeta.
    match goal with |- context [if ?c then _ else _] => destruct c end; reflexivity. }
  exists w1. rewrite Hrun. cbv zeta.
  destruct (snd r) as [|n] eqn:En.
  - eexists. exists prefix. eexists. exists more.
    split; [reflexivity|]. split; [reflexivity|]. split; [reflexivity|].
    cbn [breaker setBreaker setTicks console]. rewrite Hr, app_nil_r. exact C.
  - rewrite Hcb. eexists. exists prefix. eexists. exists more.
    split; [reflexivity|]. split; [reflexivity|]. split; [reflexivity|].
    cbn [breaker setBreaker setTicks console setConsole]. rewrite Hr, C.
    now rewrite <- !app_assoc.
Qed.

End ConsoleOnly.

Section Suppression.
Import Text Json Sys Logger Format Frames Emit Events.

(** X20.  While the breaker is open and its cooldown has not passed,
    an [error] call is dropped whole: it returns normally, prints nothing,
    writes no file, leaves the breaker and the trace store as they are and
    generates no identifier; it only reads the clock once.  This holds
    whatever the event is, also for metadata that cannot be serialised:
    a suppressed call never throws. *)
Theorem open_breaker_drops_error_events (L : CustomLogger) (msg : string)
    (opts : LogOptions) (w : World) :
  breakerBlocks L w = true ->
  fst (log L error msg opts w) = Returned tt /\
  console (snd (log L error msg opts w)) = console w /\
  fs (snd (log L error msg opts w)) = fs w /\
  breaker (snd (log L error msg opts w)) = breaker w /\
  traceStore (snd (log L error msg opts w)) = traceStore w /\
  draws (snd (log L error msg opts w)) = draws w /\
  (ticks (snd (log L error msg opts w)) <= S (ticks w))%nat.
Proof.
  intros Hb. rewrite log_run. destruct (negb (shouldLog L error)).
  - cbn [fst snd]. repeat split; auto.
  - rewrite decide_True by reflexivity. rewrite Hb. cbn. repeat split; auto.
Qed.

End Suppression.

(* --------------------------------------------------------------------- *)
(** ** A burst of errors                                                  *)
(* --------------------------------------------------------------------- *)

Module Burst.
Import Text Json Sys Logger.

(** [n] calls of [logger.error] in a row. *)
Fixpoint logErrors (L : CustomLogger) (n : nat) (msg : string) (opts : LogOptions)
    : M unit :=
  match n with
  | O => mret tt
  | S k => log L error msg opts;; logErrors L k msg opts
  end.

(** The clock reading at which the [j]-th of these calls, counted from
    zero, feeds the breaker, for a logger without a file transport whose
    breaker is closed: each call reads the clock for the record, for the
    console prefix and for the breaker. *)
Definition readingOf (w : World) (j : nat) : Z := clock w (ticks w + 3 * j + 2)%nat.

End Burst.

Section BurstFacts.
Import Text Json Sys Logger Format Frames Emit Events Records Burst.

(** One [error] call of a logger without a file transport, the
    breaker being closed. *)
Lemma log_error_step (L : CustomLogger) (msg : string) (opts : LogOptions) (md : string)
    (w : World) :
  fileTransport L = None -> circuitBreakerCallback L = defaultCallback ->
  shouldLog L error = true -> metadataOk opts md ->
  Breaker.isOpen (breaker w) = false ->
  exists w' prefix record,
    log L error msg opts w = (Returned tt, w') /\
    breaker w' = fst (Breaker.incrementErrorCount (breakerOptions L) (readingOf w 0)
                        (breaker w)) /\
    clock w' = clock w /\ ticks w' = (ticks w + 3)%nat /\
    console w' = console w ++ [recordCall error prefix record]
                 ++ match snd (Breaker.incrementErrorCount (breakerOptions L)
                                 (readingOf w 0) (breaker w)) with
                    | O => []
                    | S _ => [tripNotice]
                    end.
Proof.
  intros Hft Hcb Hlog Hmd Hclosed.
  assert (Hgate : breakerBlocks L w = false) by (unfold breakerBlocks; now rewrite Hclosed).
  assert (Ha : admitted L error w = w).
  { unfold admitted. rewrite decide_True by reflexivity. now rewrite Hclosed. }
  rewrite log_run, Hlog. cbn [negb]. rewrite decide_True by reflexivity.
  rewrite Hgate, Ha.
  set (out := render error msg opts (useColors L) (Some (customLevelColors L))
                (recordId w) md (JsDate.toISOString (clock w (ticks w)))).
  destruct (writeToConsole_run L error out (customColor opts) (logColor opts)
              (fullLogColor opts) (afterFormat w)) as [prefix E2].
  set (w2 := setConsole _ _) in E2.
  assert (E : emit L error msg opts w = (Returned tt, w2)).
  { unfold emit.
    rewrite (run_bind_returned _ _ _ _ _ (formatLog_ok error msg opts _ _ md w Hmd)).
    fold out. rewrite (run_bind_returned _ _ _ _ _ E2). now rewrite Hft. }
  destruct (afterId_clock w) as (Hc & _ & _ & Hco & _ & Hb & _).
  assert (Hb2 : breaker w2 = breaker w) by exact Hb.
  assert (Hc2 : clock w2 = clock w) by exact Hc.
  assert (Ht2 : ticks w2 = S (S (ticks w))) by reflexivity.
  assert (Hco2 : console w2 = console w ++ [recordCall error prefix out]).
  { unfold w2. cbn [console setConsole].
    change (console (afterFormat w)) with (console (afterId w)). now rewrite Hco. }
  assert (Hclosed2 : Breaker.isOpen (breaker w2) = false) by now rewrite Hb2.
  rewrite (run_bind_returned _ _ _ _ _ E), (bump_error_run L w2 Hclosed2). cbv zeta.
  assert (Hread : clock w2 (ticks w2) = readingOf w 0).
  { unfold readingOf. rewrite Hc2, Ht2. f_equal. lia. }
  rewrite Hread, Hb2.
  destruct (snd _) as [|n].
  - eexists. exists prefix, out. split; [reflexivity|].
    cbn [breaker clock ticks console setBreaker setTicks].
    rewrite Hc2, Ht2, Hco2. repeat split; try reflexivity. lia.
  - rewrite Hcb. eexists. exists prefix, out. split; [reflexivity|].
    cbn [breaker clock ticks console setBreaker setTicks setConsole].
    rewrite Hc2, Ht2, Hco2, <- app_assoc. repeat split; try reflexivity. lia.
Qed.

Lemma readingOf_shift (w w1 : World) (j : nat) :
  clock w1 = clock w -> ticks w1 = (ticks w + 3)%nat ->
  readingOf w1 j = readingOf w (S j).
Proof. intros Hc Ht. unfold readingOf. rewrite Hc, Ht. f_equal. lia. Qed.

(** The count after a failure at the head of a burst. *)
Lemma next_count (L : CustomLogger) (w : World) (k : Z) :
  (k = 0 \/
   readingOf w 0 - Breaker.lastResetTime (breaker w)
   <= Breaker.circuitBreakerTime (breakerOptions L)) ->
  (if Breaker.circuitBreakerTime (breakerOptions L)
      <? readingOf w 0 - Breaker.lastResetTime (breaker w)
   then 1 else k + 1) = k + 1.
Proof.
  intros [->|Hin].
  - now destruct (_ <? _).
  - destruct (Z.ltb_spec (Breaker.circuitBreakerTime (breakerOptions L))
                (readingOf w 0 - Breaker.lastResetTime (breaker w))); [lia | reflexivity].
Qed.

(** The calls of a burst that ends with the breaker opening. *)
Lemma burst_run (L : CustomLogger) (msg : string) (opts : LogOptions) (md : string) :
  fileTransport L = None -> circuitBreakerCallback L = defaultCallback ->
  shouldLog L error = true -> metadataOk opts md ->
  forall (n : nat) (w : World) (k : Z),
    Breaker.isOpen (breaker w) = false -> Breaker.errorCount (breaker w) = k ->
    k + Z.of_nat (S n) = Breaker.circuitBreakerCount (breakerOptions L) ->
    (k = 0 \/
     readingOf w 0 - Breaker.lastResetTime (breaker w)
     <= Breaker.circuitBreakerTime (breakerOptions L)) ->
    (forall j, (j < n)%nat ->
       readingOf w (S j) - readingOf w j <= Breaker.circuitBreakerTime (breakerOptions L)) ->
    exists w' records,
      logErrors L (S n) msg opts w = (Returned tt, w') /\
      breaker w' = {| Breaker.errorCount := Breaker.circuitBreakerCount (breakerOptions L);
                      Breaker.lastResetTime := readingOf w n;
                      Breaker.isOpen := true |} /\
      console w' = console w ++ records ++ [tripNotice] /\
      length records = S n /\
      Forall (fun c => method c = ConsoleError) records /\
      clock w' = clock w /\ ticks w' = (ticks w + 3 * S n)%nat.
Proof.
  intros Hft Hcb Hlog Hmd. induction n as [|n IH]; intros w k Hclosed Hk Hsum Hfirst Hnext.
  - destruct (log_error_step L msg opts md w Hft Hcb Hlog Hmd Hclosed)
      as (w' & prefix & record & E & B & C & T & Co).
    assert (Hr : Breaker.incrementErrorCount (breakerOptions L) (readingOf w 0) (breaker w)
                 = ({| Breaker.errorCount := Breaker.circuitBreakerCount (breakerOptions L);
                       Breaker.lastResetTime := readingOf w 0;
                       Breaker.isOpen := true |}, 1%nat)).
    { unfold Breaker.incrementErrorCount. rewrite Hclosed, Hk. cbv zeta.
      rewrite (next_count L w k Hfirst).
      destruct (Z.leb_spec (Breaker.circuitBreakerCount (breakerOptions L)) (k + 1));
        [|lia].
      do 2 f_equal. lia. }
    rewrite Hr in B, Co. cbn [fst snd] in B, Co.
    exists w', [recordCall error prefix record].
    split; [cbn [logErrors]; now rewrite (run_bind_returned _ _ _ _ _ E)|].
    split; [exact B|]. split; [exact Co|]. split; [reflexivity|].
    split; [repeat constructor|]. split; [exact C | lia].
  - destruct (log_error_step L msg opts md w Hft Hcb Hlog Hmd Hclosed)
      as (w1 & prefix & record & E & B & C & T & Co).
    assert (Hr : Breaker.incrementErrorCount (breakerOptions L) (readingOf w 0) (breaker w)
                 = ({| Breaker.errorCount := k + 1;
                       Breaker.lastResetTime := readingOf w 0;
                       Breaker.isOpen := false |}, 0%nat)).
    { unfold Breaker.incrementErrorCount. rewrite Hclosed, Hk. cbv zeta.
      rewrite (next_count L w k Hfirst).
      destruct (Z.leb_spec (Breaker.circuitBreakerCount (breakerOptions L)) (k + 1));
        [lia|].
      reflexivity. }
    rewrite Hr in B, Co. cbn [fst snd] in B, Co. rewrite app_nil_r in Co.
    destruct (IH w1 (k + 1)) as (w' & records & E' & B' & Co' & Len & All & C' & T').
    + now rewrite B.
    + now rewrite B.
    + lia.
    + right. rewrite B. cbn [Breaker.lastResetTime].
      rewrite (readingOf_shift w w1 0 C T). apply (Hnext 0%nat). lia.
    + intros j Hj. rewrite !(readingOf_shift w w1 _ C T). apply Hnext. lia.
    + exists w', (recordCall error prefix record :: records).
      split.
      { change (logErrors L (S (S n)) msg opts)
          with (log L error msg opts;; logErrors L (S n) msg opts).
        now rewrite (run_bind_returned _ _ _ _ _ E). }
      split; [rewrite B'; f_equal; apply (readingOf_shift w w1 n C T)|].
      split; [rewrite Co', Co, <- app_assoc; reflexivity|].
      split; [cbn [length]; now rewrite Len|].
      split; [constructor; [reflexivity | exact All]|].
      split; [congruence | lia].
Qed.

(** X21.  A burst of errors opens the breaker through the logger.  For
    a logger without a file transport, with the default callback, a level
    that lets [error] pass and a threshold [T >= 1]: when the breaker is
    closed with a count of zero and [T] calls of [logger.error] follow
    each other so that the clock readings at which they feed the breaker
    are each within the window of the one before, then all [T] calls
    return normally, each prints its record with [console.error], the
    last one opens the breaker and prints the notice after its record,
    and the call after them is dropped without printing anything if its
    clock reading is less than the cooldown after the last one's. *)
Theorem burst_of_errors_opens_breaker (L : CustomLogger) (msg : string) (opts : LogOptions)
    (md : string) (w : World) :
  fileTransport L = None -> circuitBreakerCallback L = defaultCallback ->
  shouldLog L error = true -> metadataOk opts md ->
  Breaker.isOpen (breaker w) = false -> Breaker.errorCount (breaker w) = 0 ->
  1 <= Breaker.circuitBreakerCount (breakerOptions L) ->
  let T := Z.to_nat (Breaker.circuitBreakerCount (breakerOptions L)) in
  (forall j, (S j < T)%nat ->
     readingOf w (S j) - readingOf w j <= Breaker.circuitBreakerTime (breakerOptions L)) ->
  exists w' records,
    logErrors L T msg opts w = (Returned tt, w') /\
    Breaker.isOpen (breaker w') = true /\
    Breaker.lastResetTime (breaker w') = readingOf w (T - 1) /\
    console w' = console w ++ records ++ [tripNotice] /\
    length records = T /\
    Forall (fun c => method c = ConsoleError) records /\
    (clock w (ticks w + 3 * T)%nat - readingOf w (T - 1)
       < Breaker.circuitBreakerCooldown (breakerOptions L) ->
     fst (log L error msg opts w') = Returned tt /\
     console (snd (log L error msg opts w')) = console w' /\
     breaker (snd (log L error msg opts w')) = breaker w').
Proof.
  intros Hft Hcb Hlog Hmd Hclosed Hzero HT T Hnext.
  destruct (burst_run L msg opts md Hft Hcb Hlog Hmd (T - 1) w 0 Hclosed Hzero)
    as (w' & records & E & B & Co & Len & All & C & Tk).
  - unfold T. lia.
  - now left.
  - intros j Hj. apply Hnext. lia.
  - replace (S (T - 1)) with T in * by (unfold T; lia).
    exists w', records. split; [exact E|]. rewrite B. cbn [Breaker.isOpen Breaker.lastResetTime].
    split; [reflexivity|]. split; [reflexivity|]. split; [exact Co|].
    split; [exact Len|]. split; [exact All|].
    intros Hcool.
    assert (Hblocks : breakerBlocks L w' = true).
    { unfold breakerBlocks. rewrite B, C, Tk. cbn [Breaker.isOpen Breaker.lastResetTime andb].
      apply negb_true_iff. apply Z.leb_gt. exact Hcool. }
    rewrite log_run, Hlog. cbn [negb]. rewrite decide_True by reflexivity.
    rewrite Hblocks. cbn. auto.
Qed.

End BurstFacts.

(* --------------------------------------------------------------------- *)
(** ** Instances                                                          *)
(* --------------------------------------------------------------------- *)

(** Worlds, loggers and a request for the instances below. *)
Module MoreExamples.
Import Text Json Sys Rotator Logger.

Definition file (c : string) (t : Z) (b : bool) : File :=
  {| content := c; mtime := t; busy := b |}.

Fixpoint fill (n : nat) : string :=
  match n with
  | O => EmptyString
  | S k => String "x" (fill k)
  end.

Definition active : Path := ("logs", "app.log").

Definition base (files : gmap (string * string) File) : World :=
  {| clock := fun n => 1700000000123 + Z.of_nat n; ticks := 0; tzOffset := 0;
     entropy := fun d n => N.of_nat (16 * d + n); draws := 0; pid := 4242;
     traceStore := None; console := []; fs := files;
     breaker := Breaker.create 0 |}.

(** An empty active file. *)
Definition emptyLog : World := base {[ active := file EmptyString 10 false ]}.

(** An oversized active file next to two older rotated siblings. *)
Definition atLimit : World :=
  base {[ active := file (fill 2000) 500 false;
          ("logs", "app-a.log") := file "a" 100 false;
          ("logs", "app-b.log") := file "b" 200 false ]}.

(** An oversized active file that the platform refuses to rename. *)
Definition locked : World := base {[ active := file (fill 2000) 500 true ]}.

(** A world whose breaker was tripped just now. *)
Definition tripped : World :=
  setBreaker (Breaker.trip 1700000000000 (Breaker.create 0)) (base ∅).

(** A world inside a trace scope. *)
Definition scoped : World := setTraceStore (Some {[ "traceId" := "req-1" ]}) (base ∅).

Definition keep (n : Z) : RotationOptions :=
  {| enabled := true; maxSize := Utf16.utf16 "1k"; maxFiles := n; compress := false |}.

Definition logger (ft : option Path) (threshold : Z) (rot : RotationOptions)
    : CustomLogger :=
  {| fileTransport := ft;
     breakerOptions :=
       {| Breaker.circuitBreakerCount := threshold; Breaker.circuitBreakerTime := 30000;
          Breaker.circuitBreakerCooldown := 60000 |};
     circuitBreakerCallback := defaultCallback;
     logRotator := rot; currentLogLevelIndex := 1; useColors := false;
     customLevelColors := fun _ => None |}.

Definition options : LogOptions :=
  {| functionName := "jobs/run"; metadata := None; error_ := None;
     customColor := None; logColor := None; fullLogColor := None |}.

Definition simpleConfig : LoggerConfig :=
  {| mode := Some simple; logLevel := None; filePath := Some active;
     colors := None; customColors := None; circuitBreaker := None;
     rotation := Some {| cfgEnabled := Some true; cfgMaxSize := Some (Utf16.utf16 "1k");
                         cfgMaxFiles := Some 0; cfgCompress := None |};
     includeIp := None; includeUserAgent := None;
     includeParams := false; includeQueries := false;
     includeResponseHeaders := false; includeSendData := true |}.

(** A request whose body refers to itself. *)
Definition request : Request :=
  {| reqMethod := "POST"; reqUrl := "/orders"; reqIp := None; reqUserAgent := None;
     reqParams := []; reqQuery := []; reqBody := JObj [("self", JBackRef)] |}.

Definition response : Response := {| statusCode := 201; responseHeaders := [] |}.

(** The world in which the application code of the request runs. *)
Definition inRequest : World :=
  setTicks 1
    (setTraceStore (Some {[ "traceId" := Uuid.format (entropy (base ∅) 0) ]})
       (setDraws 1 (base ∅))).

End MoreExamples.

Section MoreInstances.
Import Text Json Sys Rotator Retention Logger Format Emit Events Records Sink Wire Burst.
Import MoreExamples.

Lemma empty_file_never_rotated_witness :
  checkAndRotate (keep 5) active emptyLog = (Returned tt, emptyLog).
Proof.
  apply (empty_file_never_rotated (keep 5) active emptyLog (file EmptyString 10 false)).
  - vm_compute. reflexivity.
  - reflexivity.
Defined.

Lemma atLimit_siblings : siblingNames (fs atLimit) active = ["app-a.log"; "app-b.log"].
Proof. vm_compute. reflexivity. Qed.

Lemma rotated_log_survives_cleanup_witness :
  exists w',
    checkAndRotate (keep 1) active atLimit = (Returned tt, w') /\
    fs w' !! active = None /\
    fs w' !! rotatedPath active (clock atLimit (ticks atLimit))
      = Some (file (fill 2000) 500 false).
Proof.
  apply (rotated_log_survives_cleanup (keep 1) active atLimit (file (fill 2000) 500 false)).
  - reflexivity.
  - vm_compute. reflexivity.
  - vm_compute. reflexivity.
  - reflexivity.
  - intros g Hg. vm_compute in Hg. discriminate Hg.
  - vm_compute. discriminate.
  - intros n H1 H2 H3 H4 _.
    assert (Hn : n ∈ siblingNames (fs atLimit) active) by (now apply selected_iff).
    rewrite atLimit_siblings in Hn.
    apply elem_of_cons in Hn as [->|Hn]; [vm_compute; reflexivity|].
    apply elem_of_cons in Hn as [->|Hn]; [vm_compute; reflexivity|].
    now apply elem_of_nil in Hn.
Defined.

Lemma zero_retention_discards_rotated_log_witness :
  exists w',
    checkAndRotate (keep 0) active atLimit = (Returned tt, w') /\
    fs w' !! active = None /\
    fs w' !! rotatedPath active (clock atLimit (ticks atLimit)) = None /\
    (forall n, n ∈ siblingNames (fs atLimit) active ->
       fs w' !! (fst active, n) = afterUnlink (fs atLimit !! (fst active, n))).
Proof.
  apply (zero_retention_discards_rotated_log (keep 0) active atLimit
           (file (fill 2000) 500 false)).
  - reflexivity.
  - vm_compute. reflexivity.
  - vm_compute. reflexivity.
  - reflexivity.
  - intros g Hg. vm_compute in Hg. discriminate Hg.
  - reflexivity.
Defined.

Lemma write_survives_failed_rotation_witness :
  exists w',
    fileTransportWrite (logger (Some active) 5 (keep 5)) active "job finished" locked
      = (Returned tt, w') /\
    content <$> fs w' !! active
      = Some (fill 2000 +:+ "job finished" +:+ String "010" EmptyString) /\
    rotateFailure (SystemError "EBUSY" (pathString active)) ∈ console w'.
Proof.
  apply (write_survives_failed_rotation (logger (Some active) 5 (keep 5)) active
           "job finished" locked (file (fill 2000) 500 true)).
  - reflexivity.
  - vm_compute. reflexivity.
  - vm_compute. reflexivity.
  - reflexivity.
Defined.

Lemma lower_levels_bypass_breaker_witness :
  breaker (snd (log (logger None 5 Rotator.defaultOptions) warn "disk almost full"
                  options tripped)) = breaker tripped /\
  exists prefix more,
    fst (log (logger None 5 Rotator.defaultOptions) warn "disk almost full" options tripped)
      = Returned tt /\
    console (snd (log (logger None 5 Rotator.defaultOptions) warn "disk almost full"
                    options tripped)) =
      console tripped ++
      [recordCall warn prefix
         (render warn "disk almost full" options false (Some (fun _ => None))
            (recordId tripped) "{}" (JsDate.toISOString (clock tripped (ticks tripped))))]
      ++ more.
Proof.
  destruct (lower_levels_bypass_breaker (logger None 5 Rotator.defaultOptions) warn
              "disk almost full" options tripped) as (Hb & _ & _ & H).
  - discriminate.
  - split; [exact Hb|]. exact (H eq_refl "{}" eq_refl).
Defined.

Lemma error_event_feeds_breaker_witness :
  exists w' t prefix more,
    log (logger None 1 Rotator.defaultOptions) error "payment failed" options (base ∅)
      = (Returned tt, w') /\
    breaker w' = fst (Breaker.incrementErrorCount
                        (breakerOptions (logger None 1 Rotator.defaultOptions)) t
                        (breaker (admitted (logger None 1 Rotator.defaultOptions) error
                                    (base ∅)))) /\
    Breaker.isOpen (breaker (admitted (logger None 1 Rotator.defaultOptions) error (base ∅)))
      = false /\
    console w' =
      console (base ∅) ++
      [recordCall error prefix
         (render error "payment failed" options false (Some (fun _ => None))
            (recordId (admitted (logger None 1 Rotator.defaultOptions) error (base ∅))) "{}"
            (JsDate.toISOString
               (clock (admitted (logger None 1 Rotator.defaultOptions) error (base ∅))
                  (ticks (admitted (logger None 1 Rotator.defaultOptions) error (base ∅))))))]
      ++ more ++ (if Breaker.isOpen (breaker w') then [tripNotice] else []).
Proof.
  apply (error_event_feeds_breaker (logger None 1 Rotator.defaultOptions) "payment failed"
           options "{}" (base ∅)); reflexivity.
Defined.

Lemma scoped_event_shares_id_witness :
  exists w' prefix record before t,
    log (logger (Some active) 5 Rotator.defaultOptions) info "job finished" options scoped
      = (Returned tt, w') /\
    recordCall info prefix record ∈ console w' /\
    includes record (traceLine "req-1") = true /\
    content <$> fs w' !! active =
      Some (before +:+
            removeColors (render info "job finished" options false None "req-1" "{}"
                            (JsDate.toISOString t))
            +:+ String "010" EmptyString) /\
    includes (removeColors (render info "job finished" options false None "req-1" "{}"
                              (JsDate.toISOString t)))
      (fileTraceLine "req-1") = true /\
    noEsc (removeColors (render info "job finished" options false None "req-1" "{}"
                           (JsDate.toISOString t))) /\
    (paletteOnly options ->
     removeColors (render info "job finished" options false None "req-1" "{}"
                     (JsDate.toISOString t))
     = renderPlain info "job finished" options "req-1" "{}" (JsDate.toISOString t)).
Proof.
  apply (scoped_event_shares_id (logger (Some active) 5 Rotator.defaultOptions) info
           "job finished" options active "req-1" "{}" scoped); try reflexivity.
  - intros H. discriminate H.
  - intros st H. discriminate H.
Defined.

Lemma unscoped_event_draws_two_ids_witness :
  exists w' prefix record before t,
    log (logger (Some active) 5 Rotator.defaultOptions) info "job finished" options (base ∅)
      = (Returned tt, w') /\
    recordCall info prefix record ∈ console w' /\
    includes record (traceLine (Uuid.format (entropy (base ∅) (draws (base ∅))))) = true /\
    content <$> fs w' !! active =
      Some (before +:+
            removeColors
              (render info "job finished" options false None
                 (Uuid.format (entropy (base ∅) (S (draws (base ∅))))) "{}"
                 (JsDate.toISOString t))
            +:+ String "010" EmptyString) /\
    includes
      (removeColors
         (render info "job finished" options false None
            (Uuid.format (entropy (base ∅) (S (draws (base ∅))))) "{}"
            (JsDate.toISOString t)))
      (fileTraceLine (Uuid.format (entropy (base ∅) (S (draws (base ∅)))))) = true.
Proof.
  apply (unscoped_event_draws_two_ids (logger (Some active) 5 Rotator.defaultOptions) info
           "job finished" options active "{}" (base ∅)); try reflexivity.
  - intros H. discriminate H.
  - intros st H. discriminate H.
Defined.

Lemma request_body_never_breaks_logging_witness :
  exists md,
    stringify (requestMetadata simpleConfig request response 12) = inl md /\
    (forall props e, reqBody request = JObj props -> jsonClone (JObj props) = inr e ->
       bodyEntry (reqBody request) = [("body", JStr "[Unserializable Body]")]).
Proof.
  apply (request_body_never_breaks_logging simpleConfig request response 12);
    intros H; discriminate H.
Defined.

Lemma httpLogger_logs_request_witness :
  exists w' prefix md t more,
    httpLogger simpleConfig (logger None 5 Rotator.defaultOptions) request response
      (mret tt) (base ∅) = (Returned tt, w') /\
    traceStore w' = traceStore (base ∅) /\
    stringify (requestMetadata simpleConfig request response
                 (clock inRequest (ticks inRequest) - clock (base ∅) (ticks (base ∅))))
      = inl md /\
    console w' =
      console inRequest ++
      [recordCall info prefix
         (render info (reqMethod request +:+ " " +:+ reqUrl request)
            (requestOptions
               (requestMetadata simpleConfig request response
                  (clock inRequest (ticks inRequest) - clock (base ∅) (ticks (base ∅)))))
            false (Some (fun _ => None))
            (Uuid.format (entropy (base ∅) (draws (base ∅)))) md (JsDate.toISOString t))]
      ++ more /\
    includes
      (render info (reqMethod request +:+ " " +:+ reqUrl request)
         (requestOptions
            (requestMetadata simpleConfig request response
               (clock inRequest (ticks inRequest) - clock (base ∅) (ticks (base ∅)))))
         false (Some (fun _ => None))
         (Uuid.format (entropy (base ∅) (draws (base ∅)))) md (JsDate.toISOString t))
      (traceLine (Uuid.format (entropy (base ∅) (draws (base ∅))))) = true.
Proof.
  apply (httpLogger_logs_request simpleConfig (logger None 5 Rotator.defaultOptions)
           request response (mret tt) (base ∅) inRequest); try reflexivity;
    intros H; discriminate H.
Defined.

Lemma console_only_logger_keeps_files_witness :
  fs (snd ((L ← newCustomLogger simpleConfig; log L error "payment failed" options) atLimit))
  = fs atLimit.
Proof.
  apply (console_only_logger_keeps_files simpleConfig error "payment failed" options atLimit).
  - left. discriminate.
  - intros cb H. discriminate H.
Defined.

Lemma reset_lifts_suppression_witness :
  exists w1 w' prefix record more,
    resetCircuitBreaker tripped = (Returned tt, w1) /\
    breaker w1 = {| Breaker.errorCount := 0;
                    Breaker.lastResetTime := clock tripped (ticks tripped);
                    Breaker.isOpen := false |} /\
    log (logger None 5 Rotator.defaultOptions) error "payment failed" options w1
      = (Returned tt, w') /\
    console w' = console tripped ++ [recordCall error prefix record] ++ more
                 ++ (if Breaker.isOpen (breaker w') then [tripNotice] else []).
Proof.
  apply (reset_lifts_suppression (logger None 5 Rotator.defaultOptions) "payment failed"
           options "{}" tripped); reflexivity.
Defined.

Lemma open_breaker_drops_error_events_witness :
  fst (log (logger (Some active) 5 (keep 0)) error "payment failed"
         {| functionName := "jobs/run"; metadata := Some [("self", JBackRef)];
            error_ := None; customColor := None; logColor := None;
            fullLogColor := None |} tripped) = Returned tt /\
  console (snd (log (logger (Some active) 5 (keep 0)) error "payment failed"
                  {| functionName := "jobs/run"; metadata := Some [("self", JBackRef)];
                     error_ := None; customColor := None; logColor := None;
                     fullLogColor := None |} tripped)) = console tripped.
Proof.
  destruct (open_breaker_drops_error_events (logger (Some active) 5 (keep 0))
              "payment failed"
              {| functionName := "jobs/run"; metadata := Some [("self", JBackRef)];
                 error_ := None; customColor := None; logColor := None;
                 fullLogColor := None |} tripped) as (H1 & H2 & _).
  - reflexivity.
  - split; [exact H1 | exact H2].
Defined.

Lemma burst_of_errors_opens_breaker_witness :
  exists w' records,
    logErrors (logger None 3 Rotator.defaultOptions) 3 "payment failed" options (base ∅)
      = (Returned tt, w') /\
    Breaker.isOpen (breaker w') = true /\
    console w' = console (base ∅) ++ records ++ [tripNotice] /\
    length records = 3%nat.
Proof.
  destruct (burst_of_errors_opens_breaker (logger None 3 Rotator.defaultOptions)
              "payment failed" options "{}" (base ∅))
    as (w' & records & E & Ho & _ & Co & Len & _); try reflexivity.
  - vm_compute. discriminate.
  - intros j _. unfold readingOf, base, logger.
    cbn [clock ticks breakerOptions Breaker.circuitBreakerTime]. lia.
  - exists w', records. split; [exact E|]. split; [exact Ho|]. split; [exact Co | exact Len].
Defined.

End MoreInstances.
